(** * Minesweeper board engine (src/minesweeper.js): shallow embedding

    The engine classes [Difficulty], [CellState], [Cell] and [Board] are
    embedded as records and state-passing functions.  JavaScript numbers
    that the engine uses as sizes, coordinates and counters are integers
    and are modelled in [Z]; array indices are obtained with [Z.to_nat]
    after the sign has been checked.  Exceptions are modelled by the
    result type [Res], which keeps the board as the exception left it,
    since the methods mutate the board in place.  [Math.random] is an
    explicit stream of draws and [new Date()] an explicit clock reading.
    The three entry points are given a second time on the numbers a
    caller can pass them, an integer or NaN ([Num]), where they agree
    with the methods on integers. *)

From Stdlib Require Import ZArith String Ascii DecimalString.
From stdpp Require Import base list numbers relations.

Local Open Scope Z_scope.

(* ================================================================= *)
(** ** Difficulty *)

Module Difficulty.

Record t := make { name : string; rows : Z; cols : Z; mines : Z }.

Definition BEGINNER : t := make "Beginner" 8 8 10.
Definition INTERMEDIATE : t := make "Intermediate" 16 16 40.
Definition EXPERT : t := make "Expert" 30 16 99.

End Difficulty.

(* ================================================================= *)
(** ** CellState *)

Definition esc : string := String (ascii_of_nat 27) EmptyString.

Definition UNOPENED : string := "X".
Definition FLAGGED : string :=
  String.append esc (String.append "[33mF" (String.append esc "[0m")).
Definition MINE : string :=
  String.append esc (String.append "[31mM" (String.append esc "[0m")).
Definition NO_ADJACENT : string := " ".

(** [CellState.#formatAdjacent(CellState.ADJACENT, value)]: the template
    has the single placeholder [{0}], which is replaced by the decimal
    rendering of [value]. *)
Definition formatAdjacent (value : Z) : string :=
  String.append esc
    (String.append "[34m"
       (String.append (NilZero.string_of_int (Z.to_int value))
          (String.append esc "[0m"))).

Record CellState := mkCellState {
  isMine : bool;
  isFlagged : bool;
  isOpened : bool;
  adjacentMines : Z;
  currentState : string;
  defaultState : string
}.

(** [constructor()] *)
Definition newCellState : CellState :=
  {| isMine := false; isFlagged := false; isOpened := false;
     adjacentMines := 0;
     currentState := UNOPENED; defaultState := NO_ADJACENT |}.

(** [set isMine(value)] *)
Definition set_isMine (value : bool) (s : CellState) : CellState :=
  {| isMine := value;
     defaultState := if value then MINE else NO_ADJACENT;
     currentState := UNOPENED;
     adjacentMines := 0;
     isOpened := false;
     isFlagged := false |}.

(** [set isFlagged(value)] *)
Definition set_isFlagged (value : bool) (s : CellState) : CellState :=
  if isOpened s then s
  else {| isMine := isMine s;
          isFlagged := value;
          isOpened := isOpened s;
          adjacentMines := adjacentMines s;
          currentState := if value then FLAGGED else UNOPENED;
          defaultState := defaultState s |}.

(** [set isOpened(value)] *)
Definition set_isOpened (value : bool) (s : CellState) : CellState :=
  {| isMine := isMine s;
     isFlagged := isFlagged s;
     isOpened := value;
     adjacentMines := adjacentMines s;
     currentState := if value then defaultState s else UNOPENED;
     defaultState := defaultState s |}.

(** [set adjacentMines(value)] *)
Definition set_adjacentMines (value : Z) (s : CellState) : CellState :=
  if isMine s then s
  else if value <? 0 then s
  else
    let d := if 0 <? value then formatAdjacent value else NO_ADJACENT in
    {| isMine := isMine s;
       isFlagged := isFlagged s;
       isOpened := isOpened s;
       adjacentMines := value;
       currentState := if isOpened s then d else currentState s;
       defaultState := d |}.

(** The four setters, as operations applied to a cell one after another. *)
Inductive CellOp :=
| SetMine (value : bool)
| SetFlagged (value : bool)
| SetOpened (value : bool)
| SetAdjacentMines (value : Z).

Definition applyCellOp (op : CellOp) (s : CellState) : CellState :=
  match op with
  | SetMine v => set_isMine v s
  | SetFlagged v => set_isFlagged v s
  | SetOpened v => set_isOpened v s
  | SetAdjacentMines v => set_adjacentMines v s
  end.

Definition runCellOps (ops : list CellOp) (s : CellState) : CellState :=
  fold_left (fun s op => applyCellOp op s) ops s.

(** The tuple the display value is said to depend on. *)
Definition cellTuple (s : CellState) : bool * bool * bool * Z :=
  (isMine s, isOpened s, isFlagged s, adjacentMines s).

(** The display token as a function of the tuple. *)
Definition displayOf (t : bool * bool * bool * Z) : string :=
  let '(m, o, f, a) := t in
  if o then
    if m then MINE
    else if 0 <? a then formatAdjacent a else NO_ADJACENT
  else if f then FLAGGED else UNOPENED.

(** A sequence of operations closes a flagged cell when it applies
    [isOpened = false] to a cell whose [isFlagged] is true. *)
Fixpoint neverClosesFlagged (ops : list CellOp) (s : CellState) : bool :=
  match ops with
  | [] => true
  | op :: ops' =>
      match op with
      | SetOpened false => negb (isFlagged s)
      | _ => true
      end && neverClosesFlagged ops' (applyCellOp op s)
  end.

(** The cached fields [currentState] and [defaultState] agree with the
    stored fields. *)
Definition cached (s : CellState) : Prop :=
  currentState s = displayOf (cellTuple s)
  /\ defaultState s =
       (if isMine s then MINE
        else if 0 <? adjacentMines s then formatAdjacent (adjacentMines s)
             else NO_ADJACENT).

(* ================================================================= *)
(** ** Cell *)

Record Cell := mkCell { row : Z; col : Z; state : CellState }.

(** [new Cell(row, col)] *)
Definition newCell (r c : Z) : Cell := mkCell r c newCellState.

(** A setter applied to [cell.state]. *)
Definition onState (f : CellState -> CellState) (c : Cell) : Cell :=
  mkCell (row c) (col c) (f (state c)).

(* ================================================================= *)
(** ** Board *)

Record Board := mkBoard {
  difficulty : string;
  rows : Z;
  cols : Z;
  mines : Z;
  cells : list (list Cell);
  minesList : list (Z * Z);
  flags : Z;
  openedCells : Z;
  isGameOver : bool;
  isGameWon : bool;
  startTime : option Z;
  endTime : option Z
}.

Definition set_cells (v : list (list Cell)) (b : Board) : Board :=
  mkBoard (difficulty b) (rows b) (cols b) (mines b) v (minesList b)
    (flags b) (openedCells b) (isGameOver b) (isGameWon b)
    (startTime b) (endTime b).

Definition set_minesList (v : list (Z * Z)) (b : Board) : Board :=
  mkBoard (difficulty b) (rows b) (cols b) (mines b) (cells b) v
    (flags b) (openedCells b) (isGameOver b) (isGameWon b)
    (startTime b) (endTime b).

Definition set_flags (v : Z) (b : Board) : Board :=
  mkBoard (difficulty b) (rows b) (cols b) (mines b) (cells b) (minesList b)
    v (openedCells b) (isGameOver b) (isGameWon b)
    (startTime b) (endTime b).

Definition set_openedCells (v : Z) (b : Board) : Board :=
  mkBoard (difficulty b) (rows b) (cols b) (mines b) (cells b) (minesList b)
    (flags b) v (isGameOver b) (isGameWon b)
    (startTime b) (endTime b).

Definition set_isGameOver (v : bool) (b : Board) : Board :=
  mkBoard (difficulty b) (rows b) (cols b) (mines b) (cells b) (minesList b)
    (flags b) (openedCells b) v (isGameWon b)
    (startTime b) (endTime b).

Definition set_isGameWon (v : bool) (b : Board) : Board :=
  mkBoard (difficulty b) (rows b) (cols b) (mines b) (cells b) (minesList b)
    (flags b) (openedCells b) (isGameOver b) v
    (startTime b) (endTime b).

Definition set_startTime (v : option Z) (b : Board) : Board :=
  mkBoard (difficulty b) (rows b) (cols b) (mines b) (cells b) (minesList b)
    (flags b) (openedCells b) (isGameOver b) (isGameWon b)
    v (endTime b).

Definition set_endTime (v : option Z) (b : Board) : Board :=
  mkBoard (difficulty b) (rows b) (cols b) (mines b) (cells b) (minesList b)
    (flags b) (openedCells b) (isGameOver b) (isGameWon b)
    (startTime b) v.

(** *** Results of the methods

    [Ok b]: the method returned and left the board [b].
    [Throw e b]: the method threw [e]; [b] is the board as the
    exception left it.  [OutOfFuel] belongs to the bounded recursion of
    [openCell_fuel] only; [openCell_total] shows it does not arise. *)
Inductive Exn := RangeError | TypeError.

Inductive Res :=
| Ok (b : Board)
| Throw (e : Exn) (b : Board)
| OutOfFuel.

Definition bind (m : Res) (k : Board -> Res) : Res :=
  match m with
  | Ok b => k b
  | Throw e b => Throw e b
  | OutOfFuel => OutOfFuel
  end.

Notation "m >>= k" := (bind m k) (at level 58, left associativity).

(** A [for ... of] loop whose body may throw. *)
Fixpoint forEach {A : Type} (f : A -> Board -> Res) (l : list A)
    (b : Board) : Res :=
  match l with
  | [] => Ok b
  | x :: l' => f x b >>= forEach f l'
  end.

(** *** The grid *)

(** [this.#_cells[row][col]]; [None] is JavaScript's [undefined]. *)
Definition getCell (b : Board) (r c : Z) : option Cell :=
  if (0 <=? r) && (0 <=? c)
  then cells b !! Z.to_nat r ≫= fun line => line !! Z.to_nat c
  else None.

(** Reading [this.#_cells[row][col]] and using the cell; a missing
    cell makes the property access throw a TypeError. *)
Definition withCell (r c : Z) (k : Cell -> Board -> Res) (b : Board) : Res :=
  match getCell b r c with
  | Some cell => k cell b
  | None => Throw TypeError b
  end.

(** A setter of [this.#_cells[row][col].state], for a cell that was read. *)
Definition updState (f : CellState -> CellState) (r c : Z) (b : Board)
    : Board :=
  set_cells
    (alter (alter (onState f) (Z.to_nat c)) (Z.to_nat r) (cells b)) b.

(** [row < 0 || row >= this.#_rows || col < 0 || col >= this.#_cols] *)
Definition outOfRange (b : Board) (r c : Z) : bool :=
  (r <? 0) || (rows b <=? r) || (c <? 0) || (cols b <=? c).

Definition directions : list (Z * Z) :=
  [(-1, -1); (-1, 0); (-1, 1); (0, -1); (0, 1); (1, -1); (1, 0); (1, 1)].

(** [#init()] *)
Definition init (nrows ncols : Z) : list (list Cell) :=
  map (fun r => map (fun c => newCell r c) (seqZ 0 ncols)) (seqZ 0 nrows).

(** [reset()] *)
Definition reset (b : Board) : Board :=
  {| difficulty := difficulty b;
     rows := rows b;
     cols := cols b;
     mines := mines b;
     cells := init (rows b) (cols b);
     minesList := [];
     flags := 0;
     openedCells := 0;
     isGameOver := false;
     isGameWon := false;
     startTime := None;
     endTime := None |}.

(** [constructor(difficulty)] *)
Definition newBoard (d : Difficulty.t) : Board :=
  reset
    {| difficulty := Difficulty.name d;
       rows := Difficulty.rows d;
       cols := Difficulty.cols d;
       mines := Difficulty.mines d;
       cells := [];
       minesList := [];
       flags := 0;
       openedCells := 0;
       isGameOver := false;
       isGameWon := false;
       startTime := None;
       endTime := None |}.

(** [#getAdjacentCells(row, col)] *)
Definition getAdjacentCells (b : Board) (r c : Z) : list (Z * Z) :=
  flat_map
    (fun d : Z * Z =>
       let newRow := r + d.1 in
       let newCol := c + d.2 in
       if (newRow <? 0) || (rows b <=? newRow) then []
       else if (newCol <? 0) || (cols b <=? newCol) then []
       else [(newRow, newCol)])
    directions.

(** *** Randomness

    The draws of [Math.random] are a stream of naturals; the value of
    [Math.floor(Math.random() * n)] is the next draw reduced below [n]
    (and [0] when [n] is [0]).  Every value the expression can take is
    given by some stream. *)
Definition Rand := list nat.

Definition randomInt (n : nat) (rs : Rand) : nat * Rand :=
  match rs with
  | [] => (0%nat, [])
  | x :: rs' => (match n with O => 0%nat | S _ => (x mod n)%nat end, rs')
  end.

(** [[array[i], array[j]] = [array[j], array[i]]] *)
Definition swap {A : Type} (i j : nat) (a : list A) : list A :=
  match a !! i, a !! j with
  | Some x, Some y => <[j := x]> (<[i := y]> a)
  | _, _ => a
  end.

(** The loop of [#shuffleArray] from index [i] down to [1]. *)
Fixpoint shuffleFrom {A : Type} (i : nat) (a : list A) (rs : Rand)
    : list A * Rand :=
  match i with
  | O => (a, rs)
  | S i' =>
      let '(j, rs') := randomInt (i + 1) rs in
      shuffleFrom i' (swap i j a) rs'
  end.

(** [#shuffleArray(array)] *)
Definition shuffleArray {A : Type} (a : list A) (rs : Rand) : list A * Rand :=
  shuffleFrom (length a - 1) a rs.

(** [excludeCells.has(`${row},${col}`)]: the key strings are in
    one-to-one correspondence with the integer pairs. *)
Definition has (excludeCells : list (Z * Z)) (p : Z * Z) : bool :=
  bool_decide (p ∈ excludeCells).

(** [#buildCellsListWithoutMines(excludeCells)] *)
Definition buildCellsListWithoutMines (b : Board)
    (excludeCells : list (Z * Z)) : list (Z * Z) :=
  flat_map
    (fun r =>
       flat_map
         (fun c => if has excludeCells (r, c) then [] else [(r, c)])
         (seqZ 0 (cols b)))
    (seqZ 0 (rows b)).

(** One iteration of the placement loop of [#placeMines]:
    destructuring [cellList[i]] throws when the index is past the end. *)
Definition placeMine (cellList : list (Z * Z)) (i : nat) (b : Board) : Res :=
  match cellList !! i with
  | None => Throw TypeError b
  | Some (r, c) =>
      withCell r c
        (fun _ b =>
           Ok (set_minesList (minesList b ++ [(r, c)])
                 (updState (set_isMine true) r c b)))
        b
  end.

(** [#calculateAdjacentMines()] *)
Definition calculateAdjacentMines (b : Board) : Res :=
  forEach
    (fun (m : Z * Z) =>
       forEach
         (fun (d : Z * Z) b =>
            let newRow := m.1 + d.1 in
            let newCol := m.2 + d.2 in
            if (newRow <? 0) || (rows b <=? newRow) then Ok b
            else if (newCol <? 0) || (cols b <=? newCol) then Ok b
            else
              withCell newRow newCol
                (fun cell b =>
                   if isMine (state cell) then Ok b
                   else
                     Ok (updState
                           (fun s => set_adjacentMines (adjacentMines s + 1) s)
                           newRow newCol b))
                b)
         directions)
    (minesList b) b.

(** The cells [#placeMines] keeps free of mines: the initial cell and
    the first [n + 1] shuffled neighbours. *)
Definition excludedCells (rs : Rand) (initialRow initialCol : Z) (b : Board)
    : list (Z * Z) * Rand :=
  let '(adjacentCells, rs1) :=
    shuffleArray (getAdjacentCells b initialRow initialCol) rs in
  let '(n, rs2) := randomInt (length adjacentCells) rs1 in
  ((initialRow, initialCol) :: take (n + 1) adjacentCells, rs2).

(** The shuffled candidate list of [#placeMines]. *)
Definition candidateCells (rs : Rand) (initialRow initialCol : Z) (b : Board)
    : list (Z * Z) :=
  let '(excludeCells, rs2) := excludedCells rs initialRow initialCol b in
  (shuffleArray (buildCellsListWithoutMines b excludeCells) rs2).1.

(** [#placeMines(initialRow, initialCol)] *)
Definition placeMines (rs : Rand) (initialRow initialCol : Z) (b : Board)
    : Res :=
  let cellList := candidateCells rs initialRow initialCol b in
  forEach (placeMine cellList) (seq 0 (Z.to_nat (mines b))) b
    >>= calculateAdjacentMines.

(** [startGame(row, col)]; [now] is the value of [new Date()]. *)
Definition startGame (now : Z) (rs : Rand) (r c : Z) (b : Board) : Res :=
  if outOfRange b r c then Throw RangeError b
  else placeMines rs r c (reset b)
         >>= fun b' => Ok (set_startTime (Some now) b').

(** [#openAllMines()] *)
Definition openAllMines (b : Board) : Res :=
  forEach
    (fun (m : Z * Z) =>
       withCell m.1 m.2
         (fun _ b => Ok (updState (set_isOpened true) m.1 m.2 b)))
    (minesList b) b.

(** The body of the loop of [#openAdjacentCells(row, col)] for the
    direction [d], over the method [openCell] it calls. *)
Definition openAdjacentCell (openCell : Z -> Z -> Board -> Res)
    (r c : Z) (d : Z * Z) (b : Board) : Res :=
  let newRow := r + d.1 in
  let newCol := c + d.2 in
  if (newRow <? 0) || (rows b <=? newRow) then Ok b
  else if (newCol <? 0) || (cols b <=? newCol) then Ok b
  else
    withCell newRow newCol
      (fun cell b =>
         if isOpened (state cell) || isFlagged (state cell) then Ok b
         else if isMine (state cell) then Ok b
         else openCell newRow newCol b)
      b.

(** [#openAdjacentCells(row, col)], over the method [openCell] it calls. *)
Definition openAdjacentCellsWith (openCell : Z -> Z -> Board -> Res)
    (r c : Z) (b : Board) : Res :=
  if (r <? 0) || (rows b <=? r) then Ok b
  else if (c <? 0) || (cols b <=? c) then Ok b
  else forEach (openAdjacentCell openCell r c) directions b.

(** The body of [openCell(row, col)], over the method [self] that
    [#openAdjacentCells] calls back. *)
Definition openCellWith (self : Z -> Z -> Board -> Res) (now : Z) (r c : Z)
    (b : Board) : Res :=
  if isGameOver b || isGameWon b then Ok b
  else if outOfRange b r c then Throw RangeError b
  else
    withCell r c
      (fun cell b =>
         if isOpened (state cell) then Ok b
         else if isMine (state cell) then
           openAllMines (set_endTime (Some now) (set_isGameOver true b))
         else
           let b1 :=
             set_openedCells (openedCells b + 1)
               (updState (set_isOpened true) r c b) in
           (if adjacentMines (set_isOpened true (state cell)) =? 0
            then openAdjacentCellsWith self r c b1
            else Ok b1)
           >>= fun b2 =>
                 if openedCells b2 =? rows b2 * cols b2 - mines b2
                 then Ok (set_isGameWon true b2)
                 else Ok b2)
      b.

(** [openCell(row, col)] with its recursion through
    [#openAdjacentCells] bounded by [fuel] nested calls. *)
Fixpoint openCell_fuel (fuel : nat) (now : Z) (r c : Z) (b : Board) : Res :=
  match fuel with
  | O => OutOfFuel
  | S fuel' => openCellWith (openCell_fuel fuel' now) now r c b
  end.

(** [openCell(row, col)]: every nested call opens a cell that was not
    open, so one more call than the board has cells is never reached
    ([openCell_total]), and the method is a fixed point of its body
    ([openCell_fixpoint]). *)
Definition openCell (now : Z) (r c : Z) (b : Board) : Res :=
  openCell_fuel (S (Z.to_nat (rows b * cols b))) now r c b.

(** [#openAdjacentCells(row, col)] *)
Definition openAdjacentCells (now : Z) (r c : Z) (b : Board) : Res :=
  openAdjacentCellsWith (openCell now) r c b.

(** [toggleFlag(row, col)] *)
Definition toggleFlag (r c : Z) (b : Board) : Res :=
  if outOfRange b r c then Throw RangeError b
  else if isGameOver b || isGameWon b then Ok b
  else
    withCell r c
      (fun cell b =>
         if isOpened (state cell) then Ok b
         else
           let b1 :=
             updState (fun s => set_isFlagged (negb (isFlagged s)) s) r c b in
           withCell r c
             (fun cell' b1 =>
                Ok (set_flags
                      (flags b1 + if isFlagged (state cell') then 1 else -1)
                      b1))
             b1)
      b.

(** [#getRemainingMines()] *)
Definition getRemainingMines (b : Board) : Z := mines b - flags b.

(* ================================================================= *)
(** ** Vocabulary of the properties *)

(** The coordinate lies in [0, rows) x [0, cols). *)
Definition inBounds (b : Board) (p : Z * Z) : Prop :=
  0 <= p.1 < rows b /\ 0 <= p.2 < cols b.

(** The grid has [rows] lines of [cols] cells, as [#init] builds it. *)
Definition GridOk (b : Board) : Prop :=
  length (cells b) = Z.to_nat (rows b)
  /\ Forall (fun line => length line = Z.to_nat (cols b)) (cells b).

(** All coordinates of the board, line by line. *)
Definition positions (b : Board) : list (Z * Z) :=
  flat_map (fun r => map (fun c => (r, c)) (seqZ 0 (cols b)))
    (seqZ 0 (rows b)).

(** A property of the state of the cell at a coordinate. *)
Definition cellIs (P : CellState -> bool) (b : Board) (p : Z * Z) : bool :=
  match getCell b p.1 p.2 with
  | Some cell => P (state cell)
  | None => false
  end.

(** The number of cells of the board whose state has a property. *)
Definition countCells (P : CellState -> bool) (b : Board) : nat :=
  length (filter (fun p => cellIs P b p = true) (positions b)).

Definition openedSafe (s : CellState) : bool :=
  isOpened s && negb (isMine s).

Definition unopenedSafe (s : CellState) : bool :=
  negb (isOpened s) && negb (isMine s).

Definition unopened (s : CellState) : bool := negb (isOpened s).

(** The board a method leaves behind, whether it returned or threw. *)
Definition boardAfter (res : Res) (b0 : Board) : Board :=
  match res with
  | Ok b => b
  | Throw _ b => b
  | OutOfFuel => b0
  end.

(** A property of the board a method leaves behind. *)
Definition resAll (I : Board -> Prop) (res : Res) : Prop :=
  match res with
  | Ok b => I b
  | Throw _ b => I b
  | OutOfFuel => True
  end.

(** *** The engine operations *)

Inductive Op :=
| DoReset
| DoStartGame (now : Z) (rs : Rand) (r c : Z)
| DoOpenCell (now : Z) (r c : Z)
| DoToggleFlag (r c : Z).

Definition perform (op : Op) (b : Board) : Res :=
  match op with
  | DoReset => Ok (reset b)
  | DoStartGame now rs r c => startGame now rs r c b
  | DoOpenCell now r c => openCell now r c b
  | DoToggleFlag r c => toggleFlag r c b
  end.

(** A driver that performs the operations in turn and goes on after an
    exception, on the board as the exception left it. *)
Definition run (ops : list Op) (b : Board) : Board :=
  fold_left (fun b op => boardAfter (perform op b) b) ops b.

(** The boards the engine can be in: a constructed board after any
    sequence of operations. *)
Definition Reachable (b : Board) : Prop :=
  exists d ops, b = run ops (newBoard d).

(** *** The elementary state changes of [openCell]

    [openCell] changes the board only by these four steps: opening a
    closed cell that is not mined, declaring the game won, declaring it
    lost, and revealing a listed mine of a lost game. *)
Inductive openStep (now : Z) : Board -> Board -> Prop :=
| step_open b r c cell :
    isGameOver b = false -> isGameWon b = false ->
    inBounds b (r, c) -> getCell b r c = Some cell ->
    isOpened (state cell) = false -> isMine (state cell) = false ->
    openStep now b
      (set_openedCells (openedCells b + 1)
         (updState (set_isOpened true) r c b))
| step_win b :
    isGameOver b = false ->
    openedCells b = rows b * cols b - mines b ->
    openStep now b (set_isGameWon true b)
| step_over b r c cell :
    isGameOver b = false -> isGameWon b = false ->
    inBounds b (r, c) -> getCell b r c = Some cell ->
    isOpened (state cell) = false -> isMine (state cell) = true ->
    openStep now b (set_endTime (Some now) (set_isGameOver true b))
| step_reveal b m cell :
    isGameOver b = true -> m ∈ minesList b ->
    getCell b m.1 m.2 = Some cell ->
    openStep now b (updState (set_isOpened true) m.1 m.2 b).

(** The fields no step of [openCell] touches. *)
Definition sameFrame (b b' : Board) : Prop :=
  rows b' = rows b /\ cols b' = cols b /\ mines b' = mines b
  /\ minesList b' = minesList b /\ flags b' = flags b
  /\ difficulty b' = difficulty b /\ startTime b' = startTime b.

(** *** Bookkeeping invariants

    [Inv] holds of every board the engine can be in; [Consistent] holds
    once mines have been placed: the opened-cell counter then measures
    how many safe cells are still closed. *)
Definition Inv (b : Board) : Prop :=
  GridOk b
  /\ (forall p, p ∈ minesList b <-> inBounds b p /\ cellIs isMine b p = true)
  /\ openedCells b = Z.of_nat (countCells openedSafe b)
  /\ (isGameOver b = false ->
      forall p, cellIs isMine b p = true -> cellIs isOpened b p = false)
  /\ (isGameWon b = true ->
      isGameOver b = false
      /\ openedCells b = rows b * cols b - mines b).

Definition Consistent (b : Board) : Prop :=
  Inv b
  /\ rows b * cols b - mines b - openedCells b
     = Z.of_nat (countCells unopenedSafe b).

(** *** The flood fill *)

(** The neighbour of [p] in direction [d]. *)
Definition shift (p d : Z * Z) : Z * Z := (p.1 + d.1, p.2 + d.2).

(** A cell [#openAdjacentCells] opens when it meets it: in bounds, not
    opened, not flagged and not mined. *)
Definition openable (b : Board) (q : Z * Z) : Prop :=
  inBounds b q
  /\ cellIs isOpened b q = false
  /\ cellIs isFlagged b q = false
  /\ cellIs isMine b q = false.

(** The cell's [adjacentMines] is 0. *)
Definition zeroAt (b : Board) (p : Z * Z) : bool :=
  cellIs (fun s => adjacentMines s =? 0) b p.

(** Around a cell with no adjacent mines nothing is left to open. *)
Definition saturated (b : Board) (p : Z * Z) : Prop :=
  zeroAt b p = true ->
  forall d, d ∈ directions -> ~ openable b (shift p d).

(** The region of the start cell [s] on board [b]: [s] itself, and
    every openable neighbour of a cell of the region that has no
    adjacent mines. *)
Inductive Region (b : Board) (s : Z * Z) : Z * Z -> Prop :=
| region_start : Region b s s
| region_next p d :
    Region b s p -> zeroAt b p = true -> d ∈ directions ->
    openable b (shift p d) -> Region b s (shift p d).

(** What a call of [openCell] on [s] that took board [b] to [b'] has
    done. *)
Definition Flooded (b b' : Board) (s : Z * Z) : Prop :=
  (isGameWon b = false -> cellIs isOpened b' s = true)
  /\ (forall p,
        cellIs isOpened b p = false -> cellIs isOpened b' p = true ->
        Region b s p /\ (saturated b' p \/ isGameWon b' = true)).

(** *** Mine placement *)

(** The number of neighbours of the start cell that [#placeMines]
    keeps free of mines. *)
Definition excludedNeighbours (rs : Rand) (r c : Z) (b : Board) : nat :=
  (length (excludedCells rs r c b).1 - 1)%nat.

(** The board while [startGame] lays the mines [ml] on the board it
    has reset: every cell is closed and unflagged and shows the
    unopened marker, the mined cells are those of [ml], and counters
    and status are those of [reset]. *)
Definition Settled (ml : list (Z * Z)) (b0 b : Board) : Prop :=
  GridOk b
  /\ minesList b = ml
  /\ (rows b, cols b, mines b, difficulty b, flags b, openedCells b,
      isGameOver b, isGameWon b, startTime b, endTime b)
     = (rows b0, cols b0, mines b0, difficulty b0, 0, 0, false, false,
        None, None)
  /\ forall p, inBounds b0 p ->
       exists cell,
         getCell b p.1 p.2 = Some cell
         /\ isMine (state cell) = bool_decide (p ∈ ml)
         /\ isOpened (state cell) = false
         /\ isFlagged (state cell) = false
         /\ currentState (state cell) = UNOPENED.

(** What holds between operations, besides [Inv]: once the counter
    stands at [rows * cols - mines] the game has been declared won. *)
Definition RInv (b : Board) : Prop :=
  Inv b
  /\ (openedCells b = rows b * cols b - mines b -> 0 < openedCells b ->
      isGameWon b = true).

(** *** The operations, case by case *)

(** The five ways a call of [openCell] goes. *)
Inductive OpenCase (now r c : Z) (b : Board) : Res -> Prop :=
| open_ended :
    isGameOver b || isGameWon b = true ->
    OpenCase now r c b (Ok b)
| open_refused :
    isGameOver b = false -> isGameWon b = false ->
    ~ inBounds b (r, c) ->
    OpenCase now r c b (Throw RangeError b)
| open_already :
    isGameOver b = false -> isGameWon b = false ->
    inBounds b (r, c) -> cellIs isOpened b (r, c) = true ->
    OpenCase now r c b (Ok b)
| open_mine b' :
    isGameOver b = false -> isGameWon b = false ->
    inBounds b (r, c) -> cellIs isOpened b (r, c) = false ->
    cellIs isMine b (r, c) = true ->
    rtc (openStep now) b b' ->
    isGameOver b' = true -> isGameWon b' = false ->
    openedCells b' = openedCells b ->
    (forall m, m ∈ minesList b -> cellIs isOpened b' m = true) ->
    OpenCase now r c b (Ok b')
| open_safe b' :
    isGameOver b = false -> isGameWon b = false ->
    inBounds b (r, c) -> cellIs isOpened b (r, c) = false ->
    cellIs isMine b (r, c) = false ->
    rtc (openStep now) b b' ->
    isGameOver b' = false ->
    isGameWon b' = (openedCells b' =? rows b' * cols b' - mines b') ->
    Flooded b b' (r, c) ->
    OpenCase now r c b (Ok b').

(** The ways a call of [toggleFlag] goes. *)
Inductive ToggleCase (r c : Z) (b : Board) : Res -> Prop :=
| toggle_refused :
    ~ inBounds b (r, c) -> ToggleCase r c b (Throw RangeError b)
| toggle_ignored :
    inBounds b (r, c) ->
    isGameOver b || isGameWon b = true
    \/ cellIs isOpened b (r, c) = true ->
    ToggleCase r c b (Ok b)
| toggle_done cell :
    inBounds b (r, c) ->
    isGameOver b = false -> isGameWon b = false ->
    getCell b r c = Some cell -> isOpened (state cell) = false ->
    ToggleCase r c b
      (Ok (set_flags
             (flags b + if isFlagged (state cell) then -1 else 1)
             (updState (fun s => set_isFlagged (negb (isFlagged s)) s)
                r c b))).

(** *** Boards used as examples *)

(** One line of three cells with one mine.  Started on the left cell
    (with no random draws left, i.e. draws of 0), the middle cell is
    excluded and the mine lies on the right cell. *)
Definition tiny : Difficulty.t := Difficulty.make "Tiny" 1 3 1.

Definition tinyStarted : Board :=
  run [DoStartGame 0 [] 0 0] (newBoard tiny).

Definition tinyFlagged : Board :=
  run [DoStartGame 0 [] 0 0; DoToggleFlag 0 1] (newBoard tiny).

Definition tinyLost : Board :=
  run [DoStartGame 0 [] 0 0; DoOpenCell 1 0 2] (newBoard tiny).

(** A single cell without mines, won by its first move. *)
Definition single : Difficulty.t := Difficulty.make "Single" 1 1 0.

Definition singleWon : Board :=
  run [DoStartGame 0 [] 0 0; DoOpenCell 1 0 0] (newBoard single).

(** One line of two cells with one mine: the start cell and its only
    neighbour are excluded, and no cell is left for the mine. *)
Definition pair : Difficulty.t := Difficulty.make "Pair" 1 2 1.

(* ================================================================= *)
(** ** Board: the read-only methods *)

(** The decimal text of a number, as a template literal gives it. *)
Definition decimal (n : Z) : string := NilZero.string_of_int (Z.to_int n).

(** [getGameBoard()]: the grid of the cell states; [None] when a cell
    is missing and the property access throws a TypeError. *)
Definition getGameBoard (b : Board) : option (list (list CellState)) :=
  mapM
    (fun r => mapM (fun c => state <$> getCell b r c) (seqZ 0 (cols b)))
    (seqZ 0 (rows b)).

(** [#gameTimeInSecond()]; [now] is the value of [new Date().getTime()],
    and the division rounds down as [Math.floor] does. *)
Definition gameTimeInSecond (now : Z) (b : Board) : Z :=
  match startTime b with
  | None => 0
  | Some start =>
      let endTime := match endTime b with None => now | Some e => e end in
      (endTime - start) / 1000
  end.

Record GameStatus := mkStatus { s_isGameOver : bool; s_isGameWon : bool }.

Record GameStats := mkStats {
  s_flags : Z;
  s_openedCells : Z;
  s_remainingMines : Z;
  s_gameTimeInSecond : Z
}.

Record GameInfo := mkInfo {
  i_difficulty : string;
  i_status : GameStatus;
  i_stats : GameStats;
  i_board : list (list CellState)
}.

(** [#getGameStatus()] *)
Definition getGameStatus (b : Board) : GameStatus :=
  mkStatus (isGameOver b) (isGameWon b).

(** [#getGameStats()] *)
Definition getGameStats (now : Z) (b : Board) : GameStats :=
  mkStats (flags b) (openedCells b) (getRemainingMines b)
    (gameTimeInSecond now b).

(** [getGameInfo()] *)
Definition getGameInfo (now : Z) (b : Board) : option GameInfo :=
  board ← getGameBoard b;
  Some (mkInfo (difficulty b) (getGameStatus b) (getGameStats now b) board).

(** The status text of [printGameInfo()]. *)
Definition statusText (s : GameStatus) : string :=
  if s_isGameOver s then "Game Over"
  else if s_isGameWon s then "Game Won" else "In Progress".

(** [printGameInfo()]: the lines it logs, one per [console.log]. *)
Definition printGameInfo (now : Z) (b : Board) : option (list string) :=
  info ← getGameInfo now b;
  Some
    [ String.append "Difficulty: " (i_difficulty info);
      String.append "Game Status: " (statusText (i_status info));
      String.append "Game Time: "
        (String.append (decimal (s_gameTimeInSecond (i_stats info)))
           " seconds");
      String.append "Opened Cells: " (decimal (s_openedCells (i_stats info)));
      String.append "Remaining Mines: "
        (decimal (s_remainingMines (i_stats info)));
      String.append "Flags: " (decimal (s_flags (i_stats info))) ].

(** *** Rendering *)

Fixpoint spaces (n : nat) : string :=
  match n with
  | O => EmptyString
  | S n' => String " " (spaces n')
  end.

(** [s.padEnd(n, " ")] *)
Definition padEnd (n : nat) (s : string) : string :=
  String.append s (spaces (n - String.length s)).

(** [#getColumnIndices(length)] *)
Definition getColumnIndices (len : Z) : string :=
  fold_left
    (fun (line : string) (col : Z) =>
       String.append line (padEnd 6 (decimal col)))
    (seqZ 1 len) "    "%string.

(** [#getRowLine(length)] *)
Definition getRowLine (len : Z) : string :=
  fold_left
    (fun (line : string) (j : Z) =>
       let line := String.append line "-----" in
       if j <? len - 1 then String.append line "+" else line)
    (seqZ 0 len) "  "%string.

(** [` ${ board[row][col].currentState }`]: the text of one cell in
    its row. *)
Definition cellText (st : CellState) : string :=
  String.append " " (currentState st).

(** The text [toString()] builds for one row of the grid: the row
    number, then the display value of every cell. *)
Definition rowText (r ncols : Z) (states : list CellState) : option string :=
  fold_left
    (fun (acc : option string) (col : Z) =>
       line ← acc;
       st ← states !! Z.to_nat col;
       let line := String.append line (String.append " " (currentState st)) in
       Some (if col <? ncols - 1 then String.append line "  | " else line))
    (seqZ 0 ncols) (Some (padEnd 3 (decimal (r + 1)))).

(** What [toString()] does with the grid [getGameBoard()] gave it: the
    array of lines it joins; [None] when [board[0]] or a cell is
    missing and the property access throws a TypeError. *)
Definition boardLines (board : list (list CellState)) : option (list string) :=
  first ← board !! 0%nat;
  let nrows := Z.of_nat (length board) in
  let ncols := Z.of_nat (length first) in
  body ←
    fold_left
      (fun (acc : option (list string)) (r : Z) =>
         lines ← acc;
         states ← board !! Z.to_nat r;
         line ← rowText r ncols states;
         Some (if r <? nrows - 1
               then lines ++ [line; getRowLine ncols]
               else lines ++ [line]))
      (seqZ 0 nrows) (Some []);
  Some (getColumnIndices ncols :: getRowLine ncols :: body).

(** The array of lines of [toString()]. *)
Definition toStringLines (b : Board) : option (list string) :=
  getGameBoard b ≫= boardLines.

(** [stringArray.join("\n")] *)
Definition joinLines (lines : list string) : string :=
  match lines with
  | [] => EmptyString
  | l :: ls =>
      fold_left
        (fun (acc : string) (x : string) =>
           String.append acc (String (ascii_of_nat 10) x))
        ls l
  end.

(** [toString()] *)
Definition toString (b : Board) : option string :=
  joinLines <$> toStringLines b.

(* ================================================================= *)
(** ** Properties of the placement: the numbers on the cells *)

(** The number of mined cells around [p]. *)
Definition minedAround (b : Board) (p : Z * Z) : nat :=
  length (filter (fun d => cellIs isMine b (shift p d) = true) directions).

(** Every cell carries the number of mines around it, and 0 when it is
    mined itself. *)
Definition AdjacentOk (b : Board) : Prop :=
  forall p cell,
    inBounds b p -> getCell b p.1 p.2 = Some cell ->
    adjacentMines (state cell)
    = if isMine (state cell) then 0 else Z.of_nat (minedAround b p).

(* ================================================================= *)
(** ** The number exercises at the end of the file *)

(** The loop of [isPrime(num)] from [i] on, over the [n] values of [i]
    still below [num]. *)
Fixpoint noDivisorFrom (num i : Z) (n : nat) : bool :=
  match n with
  | O => true
  | S n' =>
      if Z.rem num i =? 0 then false else noDivisorFrom num (i + 1) n'
  end.

(** [isPrime(num)] *)
Definition isPrime (num : Z) : bool :=
  if num <=? 1 then false
  else noDivisorFrom num 2 (Z.to_nat (num - 2)).

(** [printPrime(num)]: the line it logs. *)
Definition printPrime (num : Z) : string :=
  if isPrime num then "Yes" else "No".

(* ================================================================= *)
(** ** Further invariants of the boards the engine can be in *)

(** The cell at [(r, c)] knows its coordinate and its cached display
    fields agree with its stored fields. *)
Definition CellOk (r c : Z) (cell : Cell) : Prop :=
  cached (state cell) /\ row cell = r /\ col cell = c.

Definition AllCellsOk (b : Board) : Prop :=
  forall r c cell, getCell b r c = Some cell -> CellOk r c cell.

Definition Inv2 (b : Board) : Prop :=
  flags b = Z.of_nat (countCells isFlagged b)
  /\ AllCellsOk b
  /\ (endTime b = None <-> isGameOver b = false)
  /\ NoDup (minesList b).

(** A lost game shows all its mines. *)
Definition MinesShown (b : Board) : Prop :=
  isGameOver b = true ->
  forall p, cellIs isMine b p = true -> cellIs isOpened b p = true.

(** What a move may do to a cell: it keeps mine, number and hidden
    display value, and never closes the cell. *)
Definition cellKept (c c' : Cell) : Prop :=
  isMine (state c') = isMine (state c)
  /\ adjacentMines (state c') = adjacentMines (state c)
  /\ defaultState (state c') = defaultState (state c)
  /\ (isOpened (state c) = true -> isOpened (state c') = true).

(** The operations of a game in progress. *)
Definition isMove (op : Op) : bool :=
  match op with
  | DoOpenCell _ _ _ | DoToggleFlag _ _ => true
  | _ => false
  end.

(** The cells at one coordinate before and after a move. *)
Definition cellsKept (before after : option Cell) : Prop :=
  match before, after with
  | Some c, Some c' => cellKept c c'
  | None, None => True
  | _, _ => False
  end.

(** A property of the states of all cells of the grid. *)
Definition AllStates (P : CellState -> Prop) (b : Board) : Prop :=
  forall r c cell, getCell b r c = Some cell -> P (state cell).

(** The pairs of a mine and a direction that [#calculateAdjacentMines]
    goes through, in its order. *)
Definition minePairs (ml : list (Z * Z)) : list ((Z * Z) * (Z * Z)) :=
  flat_map (fun m => map (Datatypes.pair m) directions) ml.

(** How many of the pairs point at the cell [q]. *)
Definition hitsOn (q : Z * Z) (pairs : list ((Z * Z) * (Z * Z))) : nat :=
  length (filter (fun md => shift md.1 md.2 = q) pairs).

(** The board while [#calculateAdjacentMines] has gone through
    [pairs]: every cell that is not mined has been counted up once for
    each pair that points at it. *)
Definition Counted (pairs : list ((Z * Z) * (Z * Z))) (ml : list (Z * Z))
    (b0 b : Board) : Prop :=
  Settled ml b0 b
  /\ forall p cell,
       inBounds b0 p -> getCell b p.1 p.2 = Some cell ->
       adjacentMines (state cell)
       = if isMine (state cell) then 0 else Z.of_nat (hitsOn p pairs).

(** What every sequence of setter calls keeps true of a cell state. *)
Definition StateOk (s : CellState) : Prop :=
  0 <= adjacentMines s
  /\ (isMine s = true -> adjacentMines s = 0)
  /\ defaultState s
     = (if isMine s then MINE
        else if 0 <? adjacentMines s then formatAdjacent (adjacentMines s)
             else NO_ADJACENT)
  /\ (isOpened s = true -> currentState s = defaultState s)
  /\ (isOpened s = false ->
      currentState s = if isFlagged s then currentState s else UNOPENED)
  /\ (isOpened s = false ->
      currentState s = UNOPENED \/ currentState s = FLAGGED).

(* ================================================================= *)
(** ** The entry points on the numbers a caller passes

    [startGame], [openCell] and [toggleFlag] take the numbers they are
    given.  The driver passes [parseInt(answer) - 1], which is an
    integer or [NaN].  Every comparison with [NaN] is false, [NaN + d]
    is [NaN], the template literal of [NaN] is the text NaN, and an
    array read at the index [NaN] gives [undefined]. *)
Inductive Num := Int (z : Z) | NaN.

#[global] Instance Num_eq_dec : EqDecision Num.
Proof. solve_decision. Defined.


(** [x < n] *)
Definition num_lt (x : Num) (n : Z) : bool :=
  match x with
  | Int z => z <? n
  | NaN => false
  end.

(** [x >= n] *)
Definition num_ge (x : Num) (n : Z) : bool :=
  match x with
  | Int z => n <=? z
  | NaN => false
  end.

(** [row < 0 || row >= this.#_rows || col < 0 || col >= this.#_cols] *)
Definition outOfRangeNum (b : Board) (r c : Num) : bool :=
  num_lt r 0 || num_ge r (rows b) || num_lt c 0 || num_ge c (cols b).









(** [openCell(row, col)]: on integers the method as above; with a NaN
    coordinate the method gets past its two tests when the other
    coordinate allows it, [this.#_cells[row][col]] is [undefined] (or
    the read of [[col]] on [undefined] throws), and reading [.state]
    throws a TypeError before anything is changed. *)
Definition openCellNum (now : Z) (r c : Num) (b : Board) : Res :=
  match r, c with
  | Int r, Int c => openCell now r c b
  | _, _ =>
      if isGameOver b || isGameWon b then Ok b
      else if outOfRangeNum b r c then Throw RangeError b
      else Throw TypeError b
  end.

(** [toggleFlag(row, col)], in the same way; its range test comes
    first. *)
Definition toggleFlagNum (r c : Num) (b : Board) : Res :=
  match r, c with
  | Int r, Int c => toggleFlag r c b
  | _, _ =>
      if outOfRangeNum b r c then Throw RangeError b
      else if isGameOver b || isGameWon b then Ok b
      else Throw TypeError b
  end.

(** The coordinate is a cell of the board. *)
Definition inBoundsNum (b : Board) (r c : Num) : Prop :=
  match r, c with
  | Int r, Int c => inBounds b (r, c)
  | _, _ => False
  end.

(** The number is an integer outside [0, n). *)
Definition outside (x : Num) (n : Z) : Prop :=
  match x with
  | Int z => ~ (0 <= z < n)
  | NaN => False
  end.


(** How a move on the board [b] can end: it returns; or it throws a
    RangeError, the range test being true; or it throws a TypeError,
    with a NaN coordinate that got through the range test while the
    game is on.  Both exceptions leave the board as it was. *)
Definition MoveEnds (b : Board) (r c : Num) (res : Res) : Prop :=
  (exists b', res = Ok b')
  \/ (res = Throw RangeError b /\ outOfRangeNum b r c = true)
  \/ (res = Throw TypeError b
      /\ (r = NaN \/ c = NaN)
      /\ outOfRangeNum b r c = false
      /\ isGameOver b || isGameWon b = false).

(* ================================================================= *)
(** * CellState: the cached display value *)

Section CellStateFacts.

Lemma cached_new : cached newCellState.
Proof. split; reflexivity. Qed.

Lemma cached_set_isMine v s : cached (set_isMine v s).
Proof. destruct v; split; reflexivity. Qed.

Lemma cached_set_isFlagged v s : cached s -> cached (set_isFlagged v s).
Proof.
  intros [Hc Hd]. unfold set_isFlagged.
  destruct (isOpened s) eqn:Ho; [split; assumption |].
  split; [| exact Hd].
  unfold cellTuple, displayOf; simpl. reflexivity.
Qed.

Lemma cached_set_isOpened_true s : cached s -> cached (set_isOpened true s).
Proof.
  intros [Hc Hd]. split; [| exact Hd].
  unfold cellTuple, displayOf; simpl. exact Hd.
Qed.

Lemma cached_set_isOpened_false s :
  cached s -> isFlagged s = false -> cached (set_isOpened false s).
Proof.
  intros [Hc Hd] Hf. split; [| exact Hd].
  unfold cellTuple, displayOf; simpl. rewrite Hf. reflexivity.
Qed.

Lemma cached_set_adjacentMines v s :
  cached s -> cached (set_adjacentMines v s).
Proof.
  intros Hs. unfold set_adjacentMines.
  destruct (isMine s) eqn:Hm; [exact Hs |].
  destruct (v <? 0) eqn:Hv; [exact Hs |].
  destruct Hs as [Hc Hd].
  split; simpl; [| reflexivity].
  unfold cellTuple, displayOf in *; simpl.
  rewrite Hm in Hc.
  destruct (isOpened s); [reflexivity | exact Hc].
Qed.

Lemma cached_run ops : forall s,
  cached s -> neverClosesFlagged ops s = true -> cached (runCellOps ops s).
Proof.
  induction ops as [|op ops IH]; intros s Hs Hn; [exact Hs |].
  simpl in Hn. apply andb_prop in Hn as [Hop Hn].
  change (cached (runCellOps ops (applyCellOp op s))).
  apply IH; [| exact Hn].
  destruct op as [v|v|[|]|v]; simpl.
  - apply cached_set_isMine.
  - apply cached_set_isFlagged, Hs.
  - apply cached_set_isOpened_true, Hs.
  - apply cached_set_isOpened_false; [exact Hs |].
    destruct (isFlagged s); [discriminate | reflexivity].
  - apply cached_set_adjacentMines, Hs.
Qed.

End CellStateFacts.

(** C7 as stated fails: two cells that end with the same tuple
    (not mined, not opened, flagged, 0) show different tokens, one
    flagged directly, the other flagged, opened and closed again. *)
Lemma C7_display_not_function_of_tuple :
  ~ (forall ops1 ops2 : list CellOp,
       cellTuple (runCellOps ops1 newCellState)
         = cellTuple (runCellOps ops2 newCellState) ->
       currentState (runCellOps ops1 newCellState)
         = currentState (runCellOps ops2 newCellState)).
Proof.
  intros H.
  specialize (H [SetFlagged true]
                [SetFlagged true; SetOpened true; SetOpened false]
                eq_refl).
  vm_compute in H. discriminate H.
Qed.

(** C7 (amended): for sequences of CellState operations that never set
    [isOpened] to false on a flagged cell, the display value is a
    function of (isMine, isOpened, isFlagged, adjacentMines): it is
    [displayOf] of the tuple, so two cells that end with equal tuples
    show the same token. *)
Theorem C7_display_function_of_tuple (ops1 ops2 : list CellOp) :
  neverClosesFlagged ops1 newCellState = true ->
  neverClosesFlagged ops2 newCellState = true ->
  cellTuple (runCellOps ops1 newCellState)
    = cellTuple (runCellOps ops2 newCellState) ->
  currentState (runCellOps ops1 newCellState)
    = displayOf (cellTuple (runCellOps ops1 newCellState))
  /\ currentState (runCellOps ops1 newCellState)
       = currentState (runCellOps ops2 newCellState).
Proof.
  intros H1 H2 Ht.
  destruct (cached_run ops1 _ cached_new H1) as [E1 _].
  destruct (cached_run ops2 _ cached_new H2) as [E2 _].
  split; [exact E1 |]. rewrite E1, E2, Ht. reflexivity.
Qed.

Lemma C7_display_function_of_tuple_witness :
  let s1 :=
    runCellOps [SetAdjacentMines 2; SetFlagged true; SetOpened true]
      newCellState in
  let s2 :=
    runCellOps [SetFlagged true; SetOpened true; SetAdjacentMines 2]
      newCellState in
  currentState s1 = displayOf (cellTuple s1)
  /\ currentState s1 = currentState s2.
Proof.
  apply (C7_display_function_of_tuple
           [SetAdjacentMines 2; SetFlagged true; SetOpened true]
           [SetFlagged true; SetOpened true; SetAdjacentMines 2]);
    reflexivity.
Defined.

(* ================================================================= *)
(** * The grid: reading and updating cells *)

Section Grid.

Implicit Types (b : Board) (p q : Z * Z) (f : CellState -> CellState).

Lemma getCell_Some_nonneg b r c cell :
  getCell b r c = Some cell -> 0 <= r /\ 0 <= c.
Proof.
  unfold getCell.
  destruct (0 <=? r) eqn:Hr, (0 <=? c) eqn:Hc; simpl; try discriminate.
  lia.
Qed.

Lemma getCell_inBounds b r c :
  GridOk b -> (is_Some (getCell b r c) <-> inBounds b (r, c)).
Proof.
  intros [Hlen Hall]. unfold getCell, inBounds; simpl. split.
  - intros [cell H].
    destruct (0 <=? r) eqn:Hr, (0 <=? c) eqn:Hc; simpl in H;
      try discriminate.
    destruct (cells b !! Z.to_nat r) as [line|] eqn:Hl; simpl in H;
      [| discriminate].
    pose proof (lookup_lt_Some _ _ _ Hl) as H1.
    pose proof (lookup_lt_Some _ _ _ H) as H2.
    rewrite Forall_lookup in Hall. rewrite (Hall _ _ Hl) in H2. lia.
  - intros [[Hr1 Hr2] [Hc1 Hc2]].
    rewrite (proj2 (Z.leb_le 0 r) Hr1), (proj2 (Z.leb_le 0 c) Hc1); simpl.
    destruct (lookup_lt_is_Some_2 (cells b) (Z.to_nat r)) as [line Hl];
      [lia |].
    rewrite Hl; simpl. apply lookup_lt_is_Some_2.
    rewrite Forall_lookup in Hall. rewrite (Hall _ _ Hl). lia.
Qed.

Lemma getCell_updState f r c b r' c' :
  0 <= r -> 0 <= c ->
  getCell (updState f r c b) r' c'
  = if decide ((r', c') = (r, c)) then onState f <$> getCell b r c
    else getCell b r' c'.
Proof.
  intros Hr Hc. unfold getCell, updState; simpl.
  destruct (decide ((r', c') = (r, c))) as [E|N].
  - inversion E; subst r' c'.
    rewrite (proj2 (Z.leb_le 0 r) Hr), (proj2 (Z.leb_le 0 c) Hc); simpl.
    rewrite list_lookup_alter_eq.
    destruct (cells b !! Z.to_nat r) as [line|]; simpl; [| reflexivity].
    apply list_lookup_alter_eq.
  - destruct (0 <=? r') eqn:Hr', (0 <=? c') eqn:Hc'; simpl; try reflexivity.
    apply Z.leb_le in Hr', Hc'.
    destruct (decide (r' = r)) as [->|Nr].
    + rewrite list_lookup_alter_eq.
      destruct (cells b !! Z.to_nat r) as [line|]; simpl; [| reflexivity].
      apply list_lookup_alter_ne. intros E. apply N. f_equal. lia.
    + rewrite list_lookup_alter_ne by lia. reflexivity.
Qed.

Lemma GridOk_updState f r c b : GridOk b -> GridOk (updState f r c b).
Proof.
  intros [Hlen Hall]. split; simpl.
  - rewrite length_alter. exact Hlen.
  - apply Forall_alter; [exact Hall |].
    intros line _ Hline. rewrite length_alter. exact Hline.
Qed.

Lemma cellIs_updState P f r c b q :
  0 <= r -> 0 <= c ->
  cellIs P (updState f r c b) q
  = if decide (q = (r, c)) then cellIs (fun s => P (f s)) b q
    else cellIs P b q.
Proof.
  intros Hr Hc. unfold cellIs. destruct q as [r' c']; simpl.
  rewrite getCell_updState by assumption.
  destruct (decide ((r', c') = (r, c))) as [E|N]; [| reflexivity].
  inversion E; subst. destruct (getCell b r c); reflexivity.
Qed.

Lemma elem_of_positions b p : p ∈ positions b <-> inBounds b p.
Proof.
  unfold positions, inBounds. rewrite list_elem_of_In, in_flat_map.
  split.
  - intros (r & Hr & Hp). apply list_elem_of_In in Hr, Hp.
    apply elem_of_seqZ in Hr. apply list_elem_of_fmap in Hp as (c & -> & Hc).
    apply elem_of_seqZ in Hc. simpl. lia.
  - intros [Hr Hc]. exists p.1. split; apply list_elem_of_In.
    + apply elem_of_seqZ. lia.
    + apply list_elem_of_fmap. exists p.2. split; [by destruct p |].
      apply elem_of_seqZ. lia.
Qed.

Lemma NoDup_positions b : NoDup (positions b).
Proof.
  unfold positions.
  assert (G : forall l : list Z, NoDup l ->
            NoDup (flat_map (fun r => map (fun c => (r, c))
                                        (seqZ 0 (cols b))) l)).
  { induction l as [|r l IH]; intros Hnd; simpl; [constructor |].
    apply list.NoDup_cons in Hnd as [Hr Hl].
    apply list.NoDup_app. split; [| split; [| exact (IH Hl)]].
    - apply (NoDup_fmap_2 _). apply NoDup_seqZ.
    - intros x Hx Hx'. apply list_elem_of_fmap in Hx as (c & -> & _).
      apply list_elem_of_In, in_flat_map in Hx' as (r' & Hr' & Hx').
      apply list_elem_of_In, list_elem_of_fmap in Hx' as (c' & E & _).
      inversion E; subst. apply Hr, list_elem_of_In, Hr'. }
  apply G, NoDup_seqZ.
Qed.

Lemma length_positions b :
  length (positions b) = (Z.to_nat (rows b) * Z.to_nat (cols b))%nat.
Proof.
  unfold positions. rewrite <- (length_seqZ 0 (rows b)).
  induction (seqZ 0 (rows b)) as [|r l IH]; simpl; [reflexivity |].
  rewrite length_app, length_map, length_seqZ, IH. reflexivity.
Qed.

End Grid.

(* ================================================================= *)
(** * Counting cells *)

Section Counting.

Context {A : Type}.
Implicit Types (f g : A -> bool) (l : list A).

Lemma count_ext f g l :
  (forall x, x ∈ l -> f x = g x) ->
  length (filter (fun x => f x = true) l)
  = length (filter (fun x => g x = true) l).
Proof.
  induction l as [|x l IH]; intros H; [reflexivity |].
  rewrite !filter_cons.
  rewrite (H x) by left.
  destruct (decide (g x = true)); simpl; rewrite IH; auto;
    intros y Hy; apply H; by right.
Qed.

Lemma count_flip f g l x :
  NoDup l -> x ∈ l -> f x = false -> g x = true ->
  (forall y, y ∈ l -> y <> x -> f y = g y) ->
  length (filter (fun x => g x = true) l)
  = S (length (filter (fun x => f x = true) l)).
Proof.
  induction l as [|y l IH]; intros Hnd Hx Hf Hg H; [inversion Hx |].
  apply list.NoDup_cons in Hnd as [Hy Hnd]. rewrite !filter_cons.
  apply elem_of_cons in Hx as [->|Hx].
  - rewrite Hf, Hg. simpl. f_equal. symmetry. apply count_ext.
    intros z Hz. apply H; [by right |]. intros ->. contradiction.
  - rewrite (H y) by (first [left | intros ->; contradiction]).
    destruct (decide (g y = true)); simpl; rewrite IH; auto;
      intros z Hz; apply H; by right.
Qed.

Lemma count_zero f l :
  length (filter (fun x => f x = true) l) = 0%nat ->
  forall x, x ∈ l -> f x = false.
Proof.
  intros H x Hx. destruct (f x) eqn:E; [| reflexivity].
  assert (Hin : x ∈ filter (fun x => f x = true) l)
    by (apply list_elem_of_filter; auto).
  destruct (filter (fun x => f x = true) l); [inversion Hin | discriminate].
Qed.

Lemma count_NoDup `{EqDecision A} f l k :
  NoDup l -> NoDup k ->
  (forall x, x ∈ k <-> x ∈ l /\ f x = true) ->
  length (filter (fun x => f x = true) l) = length k.
Proof.
  intros Hl Hk H. apply Permutation_length, NoDup_Permutation.
  - by apply list.NoDup_filter.
  - exact Hk.
  - intros x. rewrite list_elem_of_filter, H. tauto.
Qed.

End Counting.

(* ================================================================= *)
(** * Loops and results *)

Section Loops.

Context {A : Type}.
Implicit Types (f : A -> Board -> Res) (l : list A) (I J : Board -> Prop).

Lemma resAll_mono I J res :
  (forall b, I b -> J b) -> resAll I res -> resAll J res.
Proof. intros H. destruct res; simpl; auto. Qed.

Lemma resAll_bind I J m k :
  resAll I m ->
  (forall b, I b -> J b) ->
  (forall b, I b -> resAll J (k b)) ->
  resAll J (m >>= k).
Proof. intros Hm HJ Hk. destruct m; simpl in *; auto. Qed.

(** A loop whose body keeps an invariant keeps it, however it ends. *)
Lemma forEach_inv I f l :
  (forall x b, x ∈ l -> I b -> resAll I (f x b)) ->
  forall b, I b -> resAll I (forEach f l b).
Proof.
  induction l as [|x l IH]; intros Hf b Hb; simpl; [exact Hb |].
  apply (resAll_bind I).
  - apply Hf; [left | exact Hb].
  - auto.
  - intros b' Hb'. apply IH; [| exact Hb'].
    intros y b'' Hy. apply Hf. by right.
Qed.

(** A loop whose body always returns, returns; the invariant may
    mention the part of the list already processed. *)
Lemma forEach_ok (I : list A -> Board -> Prop) f l :
  forall pre b,
    I pre b ->
    (forall pre' x post b,
        pre ++ l = pre' ++ x :: post -> I pre' b ->
        exists b', f x b = Ok b' /\ I (pre' ++ [x]) b') ->
    exists b', forEach f l b = Ok b' /\ I (pre ++ l) b'.
Proof.
  induction l as [|x l IH]; intros pre b Hb Hf; simpl.
  - exists b. rewrite app_nil_r. auto.
  - destruct (Hf pre x l b eq_refl Hb) as (b1 & E1 & H1).
    rewrite E1; simpl.
    destruct (IH (pre ++ [x]) b1 H1) as (b2 & E2 & H2).
    + intros pre' y post b'. rewrite <- app_assoc. simpl. apply Hf.
    + exists b2. split; [exact E2 |].
      rewrite <- app_assoc in H2. exact H2.
Qed.

End Loops.

(* ================================================================= *)
(** * openCell as a sequence of elementary steps *)

Section Steps.

Variable now : Z.

Abbreviation steps := (rtc (openStep now)).

Lemma outOfRange_false b r c :
  outOfRange b r c = false <-> inBounds b (r, c).
Proof.
  unfold outOfRange, inBounds; simpl.
  rewrite !orb_false_iff, !Z.ltb_ge, !Z.leb_gt. tauto.
Qed.

Lemma outOfRange_true b r c :
  outOfRange b r c = true <-> ~ inBounds b (r, c).
Proof.
  rewrite <- outOfRange_false. destruct (outOfRange b r c); split;
    congruence.
Qed.

Lemma skip_row_false b r :
  (r <? 0) || (rows b <=? r) = false <-> 0 <= r < rows b.
Proof. rewrite orb_false_iff, Z.ltb_ge, Z.leb_gt. tauto. Qed.

Lemma skip_col_false b c :
  (c <? 0) || (cols b <=? c) = false <-> 0 <= c < cols b.
Proof. rewrite orb_false_iff, Z.ltb_ge, Z.leb_gt. tauto. Qed.

Lemma openAllMines_steps b :
  isGameOver b = true -> resAll (steps b) (openAllMines b).
Proof.
  intros Hover. unfold openAllMines.
  apply (resAll_mono
           (fun b' => steps b b' /\ minesList b' = minesList b
                      /\ isGameOver b' = true));
    [tauto |].
  apply forEach_inv; [| auto using rtc_refl].
  intros m b' Hm (Hs & Hl & Ho). unfold withCell.
  destruct (getCell b' m.1 m.2) as [cell|] eqn:Hc; simpl; [| auto].
  split; [| auto].
  eapply rtc_r; [exact Hs |].
  eapply step_reveal; eauto. rewrite Hl. exact Hm.
Qed.

Lemma openCell_fuel_S fuel r c b :
  openCell_fuel (S fuel) now r c b
  = if isGameOver b || isGameWon b then Ok b
    else if outOfRange b r c then Throw RangeError b
    else
      withCell r c
        (fun cell b =>
           if isOpened (state cell) then Ok b
           else if isMine (state cell) then
             openAllMines (set_endTime (Some now) (set_isGameOver true b))
           else
             let b1 :=
               set_openedCells (openedCells b + 1)
                 (updState (set_isOpened true) r c b) in
             (if adjacentMines (set_isOpened true (state cell)) =? 0
              then openAdjacentCellsWith (openCell_fuel fuel now) r c b1
              else Ok b1)
             >>= fun b2 =>
                   if openedCells b2 =? rows b2 * cols b2 - mines b2
                   then Ok (set_isGameWon true b2)
                   else Ok b2)
        b.
Proof. reflexivity. Qed.

(** Whatever [openCell] does is a sequence of elementary steps, and a
    call on a cell that is not mined does not end the game. *)
Lemma openCell_fuel_steps fuel : forall r c b,
  resAll
    (fun b' =>
       steps b b'
       /\ (isGameOver b = false -> cellIs isMine b (r, c) = false ->
           isGameOver b' = false))
    (openCell_fuel fuel now r c b).
Proof.
  induction fuel as [|fuel IH]; intros r c b; [exact I |].
  rewrite openCell_fuel_S.
  destruct (isGameOver b || isGameWon b) eqn:Hend;
    [split; [apply rtc_refl | auto] |].
  apply orb_false_iff in Hend as [Hover Hwon].
  destruct (outOfRange b r c) eqn:Hrange;
    [split; [apply rtc_refl | auto] |].
  apply outOfRange_false in Hrange.
  unfold withCell, cellIs; simpl fst; simpl snd.
  destruct (getCell b r c) as [cell|] eqn:Hcell;
    [| split; [apply rtc_refl | auto]].
  destruct (isOpened (state cell)) eqn:Hopen;
    [split; [apply rtc_refl | auto] |].
  destruct (isMine (state cell)) eqn:Hmine.
  - eapply resAll_mono; [| apply openAllMines_steps; reflexivity].
    intros b' Hb'. split; [| discriminate].
    eapply rtc_l; [| exact Hb']. eapply step_over; eauto.
  - cbv zeta.
    set (b1 := set_openedCells (openedCells b + 1)
                 (updState (set_isOpened true) r c b)).
    assert (H1 : steps b b1)
      by (apply rtc_once; eapply step_open; eauto).
    apply (resAll_bind (fun b' => steps b b' /\ isGameOver b' = false)).
    + case_match; [| split; auto].
      unfold openAdjacentCellsWith.
      case_match; [split; auto |]. case_match; [split; auto |].
      apply forEach_inv; [| split; auto].
      intros d b' _ [Hs Ho]. unfold openAdjacentCell. cbv zeta.
      case_match; [split; auto |]. case_match; [split; auto |].
      unfold withCell.
      destruct (getCell b' (r + d.1) (c + d.2)) as [cell'|] eqn:Hc';
        [| split; auto].
      case_match; [split; auto |].
      destruct (isMine (state cell')) eqn:Hm'; [split; auto |].
      eapply resAll_mono; [| apply IH].
      intros b'' [Hs' Ho']. split; [by etrans |].
      apply Ho'; [exact Ho |]. unfold cellIs; simpl. by rewrite Hc'.
    + tauto.
    + intros b2 [Hs Ho].
      destruct (openedCells b2 =? rows b2 * cols b2 - mines b2) eqn:Hw;
        [| split; auto].
      split; [| auto].
      eapply rtc_r; [exact Hs |]. apply step_win; [exact Ho | lia].
Qed.

End Steps.

(* ================================================================= *)
(** * What the elementary steps keep *)

Section StepFacts.

Variable now : Z.

Abbreviation steps := (rtc (openStep now)).

Lemma step_frame b b' : openStep now b b' -> sameFrame b b'.
Proof. destruct 1; repeat split. Qed.

Lemma steps_frame b b' : steps b b' -> sameFrame b b'.
Proof.
  induction 1 as [|b b1 b2 H1 _ IH]; [repeat split |].
  destruct (step_frame _ _ H1) as (?&?&?&?&?&?&?).
  destruct IH as (?&?&?&?&?&?&?).
  repeat split; congruence.
Qed.

Lemma steps_inBounds b b' p : steps b b' -> inBounds b' p <-> inBounds b p.
Proof.
  intros H. destruct (steps_frame _ _ H) as (Hr & Hc & _).
  unfold inBounds. rewrite Hr, Hc. tauto.
Qed.

Lemma step_GridOk b b' : openStep now b b' -> GridOk b -> GridOk b'.
Proof.
  destruct 1; intros Hg; try exact Hg.
  - apply (GridOk_updState _ _ _ _ Hg).
  - apply (GridOk_updState _ _ _ _ Hg).
Qed.

Lemma steps_GridOk b b' : steps b b' -> GridOk b -> GridOk b'.
Proof. induction 1; eauto using step_GridOk. Qed.

(** A step leaves a cell as it is or opens it. *)
Lemma step_cell b b' r c :
  openStep now b b' ->
  getCell b' r c = getCell b r c
  \/ getCell b' r c = onState (set_isOpened true) <$> getCell b r c.
Proof.
  destruct 1 as [b r0 c0 cell _ _ _ Hc _ _| | |b m cell _ _ Hc];
    try (left; reflexivity).
  - destruct (getCell_Some_nonneg _ _ _ _ Hc) as [Hr0 Hc0].
    change (getCell (set_openedCells (openedCells b + 1)
                       (updState (set_isOpened true) r0 c0 b)) r c)
      with (getCell (updState (set_isOpened true) r0 c0 b) r c).
    rewrite getCell_updState by assumption.
    destruct (decide ((r, c) = (r0, c0))) as [E|N]; [| by left].
    inversion E; subst. by right.
  - destruct (getCell_Some_nonneg _ _ _ _ Hc) as [Hr0 Hc0].
    rewrite getCell_updState by assumption.
    destruct (decide ((r, c) = (m.1, m.2))) as [E|N]; [| by left].
    inversion E; subst. by right.
Qed.

(** A property of cell states that opening does not change is the
    same before and after. *)
Lemma steps_cellIs_keep (P : CellState -> bool) b b' p :
  (forall s, P (set_isOpened true s) = P s) ->
  steps b b' -> cellIs P b' p = cellIs P b p.
Proof.
  intros HP. induction 1 as [|b b1 b2 H1 _ IH]; [reflexivity |].
  rewrite IH. unfold cellIs.
  destruct (step_cell _ _ p.1 p.2 H1) as [E|E]; rewrite E;
    [reflexivity |].
  destruct (getCell b p.1 p.2); simpl; [apply HP | reflexivity].
Qed.

Lemma steps_isMine b b' p :
  steps b b' -> cellIs isMine b' p = cellIs isMine b p.
Proof. by apply steps_cellIs_keep. Qed.

Lemma steps_isFlagged b b' p :
  steps b b' -> cellIs isFlagged b' p = cellIs isFlagged b p.
Proof. by apply steps_cellIs_keep. Qed.

Lemma steps_adjacent b b' p (n : Z) :
  steps b b' ->
  cellIs (fun s => adjacentMines s =? n) b' p
  = cellIs (fun s => adjacentMines s =? n) b p.
Proof. by apply (steps_cellIs_keep (fun s => adjacentMines s =? n)). Qed.

(** An opened cell stays opened. *)
Lemma steps_isOpened b b' p :
  steps b b' -> cellIs isOpened b p = true -> cellIs isOpened b' p = true.
Proof.
  induction 1 as [|b b1 b2 H1 _ IH]; [auto |].
  intros Ho. apply IH. unfold cellIs in *.
  destruct (step_cell _ _ p.1 p.2 H1) as [E|E]; rewrite E;
    [exact Ho |].
  destruct (getCell b p.1 p.2); simpl; [reflexivity | discriminate].
Qed.

End StepFacts.

(* ================================================================= *)
(** * Counting over the board *)

Section BoardCounting.

Implicit Types (b : Board) (P : CellState -> bool).

Lemma countCells_ext P Q b b' :
  rows b' = rows b -> cols b' = cols b ->
  (forall p, inBounds b p -> cellIs P b' p = cellIs Q b p) ->
  countCells P b' = countCells Q b.
Proof.
  intros Hr Hc H. unfold countCells, positions. rewrite Hr, Hc.
  apply count_ext. intros p Hp. apply H. by apply elem_of_positions.
Qed.

Lemma countCells_flip P b b' p :
  rows b' = rows b -> cols b' = cols b ->
  inBounds b p -> cellIs P b p = false -> cellIs P b' p = true ->
  (forall q, inBounds b q -> q <> p -> cellIs P b' q = cellIs P b q) ->
  countCells P b' = S (countCells P b).
Proof.
  intros Hr Hc Hp Hf Hg H. unfold countCells, positions. rewrite Hr, Hc.
  apply (count_flip _ _ _ p); auto.
  - apply NoDup_positions.
  - by apply elem_of_positions.
  - intros q Hq Hne. symmetry. apply H; [| exact Hne].
    by apply elem_of_positions.
Qed.

Lemma countCells_drop P b b' p :
  rows b' = rows b -> cols b' = cols b ->
  inBounds b p -> cellIs P b p = true -> cellIs P b' p = false ->
  (forall q, inBounds b q -> q <> p -> cellIs P b' q = cellIs P b q) ->
  countCells P b = S (countCells P b').
Proof.
  intros Hr Hc Hp Hf Hg H.
  assert (Hp' : inBounds b' p) by (unfold inBounds; rewrite Hr, Hc; exact Hp).
  apply (countCells_flip P b' b p); auto.
  intros q Hq Hne. symmetry. apply H; [| exact Hne].
  unfold inBounds in *. rewrite <- Hr, <- Hc. exact Hq.
Qed.

Lemma countCells_zero P b p :
  countCells P b = 0%nat -> inBounds b p -> cellIs P b p = false.
Proof.
  intros H Hp. apply (count_zero _ _ H). by apply elem_of_positions.
Qed.

Lemma countCells_le P b :
  (countCells P b <= Z.to_nat (rows b) * Z.to_nat (cols b))%nat.
Proof.
  unfold countCells. rewrite <- length_positions. apply length_filter.
Qed.

End BoardCounting.

(* ================================================================= *)
(** * The invariants along the steps of openCell *)

Section StepInvariants.

Variable now : Z.

Abbreviation steps := (rtc (openStep now)).

Lemma cellIs_open P r c b q cell :
  getCell b r c = Some cell ->
  cellIs P (updState (set_isOpened true) r c b) q
  = if decide (q = (r, c)) then P (set_isOpened true (state cell))
    else cellIs P b q.
Proof.
  intros Hc. destruct (getCell_Some_nonneg _ _ _ _ Hc) as [Hr0 Hc0].
  rewrite cellIs_updState by assumption.
  destruct (decide (q = (r, c))) as [->|]; [| reflexivity].
  unfold cellIs; simpl. by rewrite Hc.
Qed.

Lemma step_Inv b b' : openStep now b b' -> Inv b -> Inv b'.
Proof.
  intros Hstep (Hg & Hml & Hcnt & Hmo & Hw).
  pose proof (step_GridOk _ _ _ Hstep Hg) as Hg'.
  pose proof (steps_isMine now b b') as Hmine.
  specialize (fun p => Hmine p (rtc_once _ _ Hstep)).
  pose proof (steps_inBounds now b b') as Hin.
  specialize (fun p => Hin p (rtc_once _ _ Hstep)).
  destruct (step_frame _ _ _ Hstep) as (Hrows & Hcols & Hmines & Hlist & _).
  split; [exact Hg' |]. split.
  { intros p. rewrite Hlist, Hin, Hmine. apply Hml. }
  destruct Hstep as [b r c cell Hover Hwon Hrc Hc Hop Hmi
                    |b Hover Hcount
                    |b r c cell Hover Hwon Hrc Hc Hop Hmi
                    |b m cell Hover Hm Hc].
  - (* open *)
    split; [| split; [| simpl; congruence]].
    + change (openedCells b + 1
              = Z.of_nat (countCells openedSafe
                            (updState (set_isOpened true) r c b))).
      rewrite (countCells_flip openedSafe b _ (r, c)); auto.
      * lia.
      * unfold cellIs; simpl. rewrite Hc. unfold openedSafe.
        by rewrite Hop.
      * rewrite (cellIs_open _ _ _ _ _ _ Hc), decide_True by done.
        unfold openedSafe; simpl. by rewrite Hmi.
      * intros q _ Hq.
        by rewrite (cellIs_open _ _ _ _ _ _ Hc), decide_False.
    + intros _ p Hp.
      change (cellIs isOpened (updState (set_isOpened true) r c b) p
              = false).
      rewrite (cellIs_open _ _ _ _ _ _ Hc).
      rewrite Hmine in Hp.
      destruct (decide (p = (r, c))) as [->|]; [| by apply Hmo].
      unfold cellIs in Hp; simpl in Hp. rewrite Hc in Hp. congruence.
  - (* win *)
    split; [exact Hcnt |]. split; [exact Hmo |].
    intros _. split; [exact Hover | exact Hcount].
  - (* over *)
    split; [exact Hcnt |]. split; [simpl; discriminate |].
    simpl. intros Hw'. destruct (Hw Hw'). congruence.
  - (* reveal *)
    assert (Hmm : cellIs isMine b m = true) by (by apply Hml).
    split; [| split; [simpl; congruence |]].
    + simpl. rewrite Hcnt. f_equal.
      apply countCells_ext; auto. intros q _.
      rewrite (cellIs_open _ _ _ _ _ _ Hc).
      destruct (decide (q = (m.1, m.2))) as [->|]; [| reflexivity].
      unfold cellIs in *; simpl in *. rewrite Hc in *.
      unfold openedSafe; simpl. rewrite Hmm. by rewrite !andb_false_r.
    + simpl. intros Hw'. destruct (Hw Hw'). congruence.
Qed.

Lemma steps_Inv b b' : steps b b' -> Inv b -> Inv b'.
Proof. induction 1; eauto using step_Inv. Qed.

(** The number of closed cells never grows, and opening a cell
    lowers it. *)
Lemma step_unopened b b' :
  openStep now b b' ->
  (countCells unopened b' <= countCells unopened b)%nat.
Proof.
  intros Hstep.
  assert (G : forall r c cell, getCell b r c = Some cell ->
            (countCells unopened (updState (set_isOpened true) r c b)
             <= countCells unopened b)%nat).
  { intros r c cell Hc. unfold countCells.
    change (positions (updState (set_isOpened true) r c b))
      with (positions b).
    induction (positions b) as [|q l IH]; [reflexivity |].
    rewrite !filter_cons, (cellIs_open _ _ _ _ _ _ Hc).
    destruct (decide (q = (r, c))) as [->|]; simpl.
    - destruct (decide _); simpl; lia.
    - destruct (decide _); simpl; lia. }
  destruct Hstep; try reflexivity; eapply G; eauto.
Qed.

Lemma steps_unopened b b' :
  steps b b' -> (countCells unopened b' <= countCells unopened b)%nat.
Proof.
  induction 1 as [|b b1 b2 H1 _ IH]; [reflexivity |].
  pose proof (step_unopened _ _ H1). lia.
Qed.

Lemma open_unopened b r c cell :
  inBounds b (r, c) -> getCell b r c = Some cell ->
  isOpened (state cell) = false ->
  countCells unopened b
  = S (countCells unopened
         (set_openedCells (openedCells b + 1)
            (updState (set_isOpened true) r c b))).
Proof.
  intros Hrc Hc Hop.
  apply (countCells_drop unopened b _ (r, c)); auto.
  - unfold cellIs; simpl. rewrite Hc. unfold unopened. by rewrite Hop.
  - change (cellIs unopened (updState (set_isOpened true) r c b) (r, c)
            = false).
    by rewrite (cellIs_open _ _ _ _ _ _ Hc), decide_True.
  - intros q _ Hq.
    change (cellIs unopened (updState (set_isOpened true) r c b) q
            = cellIs unopened b q).
    by rewrite (cellIs_open _ _ _ _ _ _ Hc), decide_False.
Qed.

End StepInvariants.

(* ================================================================= *)
(** * The flood fill *)

Section Flood.

Variable now : Z.

Abbreviation steps := (rtc (openStep now)).

Lemma steps_won b b' :
  steps b b' -> isGameWon b = true -> isGameWon b' = true.
Proof.
  induction 1 as [|b b1 b2 H1 _ IH]; [auto |].
  intros Hw. apply IH. destruct H1; simpl; auto.
Qed.

Lemma steps_openable b b' q :
  steps b b' -> openable b' q -> openable b q.
Proof.
  intros Hs (Hin & Ho & Hf & Hm).
  rewrite (steps_inBounds _ _ _ _ Hs) in Hin.
  rewrite (steps_isFlagged _ _ _ _ Hs) in Hf.
  rewrite (steps_isMine _ _ _ _ Hs) in Hm.
  split; [exact Hin |]. split; [| split; assumption].
  destruct (cellIs isOpened b q) eqn:E; [| reflexivity].
  rewrite (steps_isOpened _ _ _ _ Hs E) in Ho. discriminate.
Qed.

Lemma steps_zeroAt b b' p : steps b b' -> zeroAt b' p = zeroAt b p.
Proof. apply steps_adjacent. Qed.

Lemma steps_saturated b b' p :
  steps b b' -> saturated b p -> saturated b' p.
Proof.
  intros Hs Hsat Hz d Hd Hop. rewrite (steps_zeroAt _ _ _ Hs) in Hz.
  apply (Hsat Hz d Hd). by eapply steps_openable.
Qed.

(** The region of a neighbour, on a later board, lies in the region
    of the cell. *)
Lemma Region_later b b' s d p :
  steps b b' -> zeroAt b s = true -> d ∈ directions ->
  openable b' (shift s d) ->
  Region b' (shift s d) p -> Region b s p.
Proof.
  intros Hs Hz Hd Hop. induction 1 as [|p d' _ IH Hz' Hd' Hop'].
  - apply region_next; auto using region_start.
    by eapply steps_openable.
  - apply region_next; auto.
    + by rewrite <- (steps_zeroAt _ _ _ Hs).
    + by eapply steps_openable.
Qed.

Lemma flood fuel : forall r c b,
  GridOk b -> (countCells unopened b < fuel)%nat ->
  inBounds b (r, c) -> cellIs isMine b (r, c) = false ->
  isGameOver b = false ->
  exists b', openCell_fuel fuel now r c b = Ok b' /\ Flooded b b' (r, c).
Proof.
  induction fuel as [|fuel IH]; intros r c b Hg Hfuel Hrc Hmine Hover;
    [lia |].
  rewrite openCell_fuel_S. rewrite Hover. simpl orb.
  destruct (isGameWon b) eqn:Hwon.
  { exists b. split; [reflexivity |]. split; [congruence |].
    intros p H1 H2. congruence. }
  rewrite (proj2 (outOfRange_false b r c) Hrc).
  destruct (proj2 (getCell_inBounds b r c Hg) Hrc) as [cell Hcell].
  unfold withCell. rewrite Hcell.
  destruct (isOpened (state cell)) eqn:Hopen.
  { exists b. split; [reflexivity |]. split.
    - intros _. unfold cellIs; simpl. by rewrite Hcell.
    - intros p H1 H2. congruence. }
  assert (Hm : isMine (state cell) = false)
    by (unfold cellIs in Hmine; simpl in Hmine; by rewrite Hcell in Hmine).
  rewrite Hm. cbv zeta.
  set (b1 := set_openedCells (openedCells b + 1)
               (updState (set_isOpened true) r c b)).
  assert (Hs1 : steps b b1) by (apply rtc_once; eapply step_open; eauto).
  assert (Hfuel1 : (countCells unopened b1 < fuel)%nat).
  { pose proof (open_unopened b r c cell Hrc Hcell Hopen) as E.
    fold b1 in E. lia. }
  assert (Hopen1 : forall p, cellIs isOpened b1 p
                   = if decide (p = (r, c)) then true
                     else cellIs isOpened b p).
  { intros p. exact (cellIs_open isOpened r c b p cell Hcell). }
  (* the loop over the directions *)
  assert (Hloop : exists b2,
    (if adjacentMines (set_isOpened true (state cell)) =? 0
     then openAdjacentCellsWith (openCell_fuel fuel now) r c b1
     else Ok b1) = Ok b2
    /\ steps b1 b2 /\ isGameOver b2 = false
    /\ (saturated b2 (r, c) \/ isGameWon b2 = true)
    /\ (forall p, cellIs isOpened b1 p = false ->
                  cellIs isOpened b2 p = true ->
                  Region b (r, c) p
                  /\ (saturated b2 p \/ isGameWon b2 = true))).
  { destruct (adjacentMines (set_isOpened true (state cell)) =? 0) eqn:Hadj.
    2:{ exists b1. split; [reflexivity |].
        split; [apply rtc_refl |]. split; [exact Hover |]. split.
        - left. intros Hz. exfalso.
          unfold zeroAt in Hz.
          pose proof (cellIs_open (fun s => adjacentMines s =? 0)
                        r c b (r, c) cell Hcell) as E.
          rewrite decide_True in E by done.
          change (cellIs (fun s => adjacentMines s =? 0) b1 (r, c)
                  = (adjacentMines (set_isOpened true (state cell)) =? 0))
            in E.
          congruence.
        - intros p H1 H2. congruence. }
    assert (Hzero : zeroAt b (r, c) = true).
    { unfold zeroAt, cellIs; simpl. rewrite Hcell. exact Hadj. }
    unfold openAdjacentCellsWith.
    destruct Hrc as [Hr Hc]; simpl in Hr, Hc.
    rewrite (proj2 (skip_row_false b1 r) Hr).
    rewrite (proj2 (skip_col_false b1 c) Hc).
    pose (L := fun (pre : list (Z * Z)) (bi : Board) =>
      steps b1 bi /\ isGameOver bi = false
      /\ (isGameWon bi = true
          \/ forall d, d ∈ pre -> ~ openable bi (shift (r, c) d))
      /\ (forall p, cellIs isOpened b1 p = false ->
                    cellIs isOpened bi p = true ->
                    Region b (r, c) p
                    /\ (saturated bi p \/ isGameWon bi = true))).
    destruct (forEach_ok L (openAdjacentCell (openCell_fuel fuel now) r c)
                directions [] b1)
      as (b2 & E2 & H2s & H2o & H2n & H2p); [| | exists b2].
    - split; [apply rtc_refl |]. split; [exact Hover |].
      split; [right; intros d Hd; inversion Hd |].
      intros p H1 H2. congruence.
    - intros pre d post bi Hsplit (Hsi & Hoi & Hni & Hpi).
      assert (Hd : d ∈ directions).
      { simpl in Hsplit. rewrite Hsplit.
        apply elem_of_app. right. left. }
      assert (Hgi : GridOk bi).
      { eapply steps_GridOk; [exact Hsi |].
        eapply steps_GridOk; [exact Hs1 | exact Hg]. }
      (* a neighbour that is skipped: nothing changes *)
      assert (Hskip : ~ openable bi (shift (r, c) d) ->
                      exists b', Ok bi = Ok b' /\ L (pre ++ [d]) b').
      { intros Hno. exists bi. split; [reflexivity |].
        split; [exact Hsi |]. split; [exact Hoi |]. split; [| exact Hpi].
        destruct Hni as [Hw|Hni]; [by left | right].
        intros d' Hd'. apply elem_of_app in Hd' as [Hd'|Hd'].
        - by apply Hni.
        - apply list_elem_of_singleton in Hd' as ->. exact Hno. }
      unfold openAdjacentCell. cbv zeta.
      destruct ((r + d.1 <? 0) || (rows bi <=? r + d.1)) eqn:Hr'.
      { apply Hskip. intros [[Hin _] _]. simpl in Hin.
        apply not_false_iff_true in Hr'. apply Hr'.
        by apply skip_row_false. }
      destruct ((c + d.2 <? 0) || (cols bi <=? c + d.2)) eqn:Hc'.
      { apply Hskip. intros [[_ Hin] _]. simpl in Hin.
        apply not_false_iff_true in Hc'. apply Hc'.
        by apply skip_col_false. }
      apply skip_row_false in Hr'. apply skip_col_false in Hc'.
      assert (Hq : inBounds bi (r + d.1, c + d.2)) by (split; assumption).
      destruct (proj2 (getCell_inBounds bi _ _ Hgi) Hq) as [cell' Hcell'].
      unfold withCell. rewrite Hcell'.
      destruct (isOpened (state cell') || isFlagged (state cell')) eqn:Hof.
      { apply Hskip. intros (_ & Ho & Hf & _).
        unfold cellIs in Ho, Hf. simpl in Ho, Hf.
        rewrite Hcell' in Ho, Hf. rewrite Ho, Hf in Hof. discriminate. }
      destruct (isMine (state cell')) eqn:Hm'.
      { apply Hskip. intros (_ & _ & _ & Hmq).
        unfold cellIs in Hmq. simpl in Hmq.
        rewrite Hcell' in Hmq. congruence. }
      apply orb_false_iff in Hof as [Ho' Hf'].
      assert (Hopq : openable bi (shift (r, c) d)).
      { split; [exact Hq |].
        unfold cellIs; simpl. rewrite Hcell'. auto. }
      destruct (IH (r + d.1) (c + d.2) bi) as (b' & E' & Hfl1 & Hfl2);
        auto.
      { pose proof (steps_unopened _ _ _ Hsi). lia. }
      { unfold cellIs; simpl. by rewrite Hcell'. }
      pose proof (openCell_fuel_steps now fuel (r + d.1) (c + d.2) bi)
        as Hst.
      rewrite E' in Hst. destruct Hst as [Hst Hov].
      exists b'. split; [exact E' |].
      split; [by etrans |]. split.
      { apply Hov; [exact Hoi |]. unfold cellIs; simpl. by rewrite Hcell'. }
      split.
      + destruct (isGameWon bi) eqn:Hwi.
        { left. by apply (steps_won _ _ Hst). }
        destruct Hni as [?|Hni]; [discriminate |].
        right. intros d' Hd'.
        apply elem_of_app in Hd' as [Hd'|Hd'].
        * intros Hop. apply (Hni d' Hd'). by eapply steps_openable.
        * apply list_elem_of_singleton in Hd' as ->.
          intros (_ & Ho & _).
          change (cellIs isOpened b' (r + d.1, c + d.2) = false) in Ho.
          rewrite (Hfl1 eq_refl) in Ho. discriminate.
      + intros p Hp1 Hp'.
        destruct (cellIs isOpened bi p) eqn:Hpi'.
        * destruct (Hpi p Hp1 Hpi') as [HR [Hsat|Hw]].
          -- split; [exact HR |]. left. by eapply steps_saturated.
          -- split; [exact HR |]. right. by apply (steps_won _ _ Hst).
        * destruct (Hfl2 p Hpi' Hp') as [HR Hsw].
          split; [| exact Hsw].
          eapply (Region_later b bi (r, c) d); eauto.
          by etrans.
    - split; [exact E2 |]. split; [exact H2s |]. split; [exact H2o |].
      split; [| exact H2p].
      destruct H2n as [Hw|Hn]; [by right | left].
      intros _ d Hd. by apply Hn. }
  destruct Hloop as (b2 & E2 & Hs2 & Ho2 & Hsat2 & Hp2).
  rewrite E2. simpl bind.
  (* the final test does not touch the cells *)
  assert (Hfin : forall b', (b' = b2 \/ b' = set_isGameWon true b2) ->
                             Flooded b b' (r, c)).
  { intros b' Hb'.
    assert (Hcells : forall P p, cellIs P b' p = cellIs P b2 p)
      by (destruct Hb' as [->| ->]; reflexivity).
    assert (Hw' : isGameWon b2 = true -> isGameWon b' = true)
      by (destruct Hb' as [->| ->]; auto).
    assert (Hsat' : forall p, saturated b2 p -> saturated b' p).
    { intros p Hsat Hz d Hd (Hin & Ho & Hf & Hmi).
      unfold zeroAt in Hz. rewrite Hcells in Hz, Ho, Hf, Hmi.
      apply (Hsat Hz d Hd). split; [| split; [| split]]; auto.
      destruct Hb' as [->| ->]; exact Hin. }
    split.
    - intros _. rewrite Hcells. apply (steps_isOpened _ _ _ _ Hs2).
      rewrite Hopen1. by rewrite decide_True.
    - intros p Hp Hp'. rewrite Hcells in Hp'.
      destruct (decide (p = (r, c))) as [->|Hne].
      + split; [apply region_start |].
        destruct Hsat2 as [Hsat|Hw]; [left; by apply Hsat' | right; auto].
      + assert (Hp1 : cellIs isOpened b1 p = false)
          by (rewrite Hopen1, decide_False by done; exact Hp).
        destruct (Hp2 p Hp1 Hp') as [HR [Hsat|Hw]].
        * split; [exact HR |]. left. by apply Hsat'.
        * split; [exact HR |]. right. auto. }
  destruct (openedCells b2 =? rows b2 * cols b2 - mines b2);
    eexists; (split; [reflexivity |]); apply Hfin; auto.
Qed.

End Flood.

(* ================================================================= *)
(** * openCell as a whole *)

Section OpenCell.

Variable now : Z.

Abbreviation steps := (rtc (openStep now)).

Lemma openCell_unfold r c b :
  openCell now r c b
  = openCell_fuel (S (Z.to_nat (rows b * cols b))) now r c b.
Proof. reflexivity. Qed.

(** After the game has ended [openCell] returns at once. *)
Lemma openCell_ended r c b :
  isGameOver b || isGameWon b = true -> openCell now r c b = Ok b.
Proof.
  intros H. rewrite openCell_unfold, openCell_fuel_S. by rewrite H.
Qed.

(** While the game is on, a coordinate out of range is refused. *)
Lemma openCell_outOfRange r c b :
  isGameOver b || isGameWon b = false -> outOfRange b r c = true ->
  openCell now r c b = Throw RangeError b.
Proof.
  intros H1 H2. rewrite openCell_unfold, openCell_fuel_S.
  by rewrite H1, H2.
Qed.

Lemma openCell_steps r c b : resAll (steps b) (openCell now r c b).
Proof.
  eapply resAll_mono; [| apply openCell_fuel_steps]. by intros b' [H _].
Qed.

(** The fuel [openCell] starts with is more than the closed cells. *)
Lemma openCell_fuel_enough b :
  (countCells unopened b < S (Z.to_nat (rows b * cols b)))%nat.
Proof.
  pose proof (countCells_le unopened b) as H.
  destruct (Z.le_gt_cases 0 (rows b)) as [Hr|Hr];
    destruct (Z.le_gt_cases 0 (cols b)) as [Hc|Hc].
  - rewrite Z2Nat.inj_mul by assumption. lia.
  - replace (Z.to_nat (cols b)) with 0%nat in H by lia. lia.
  - replace (Z.to_nat (rows b)) with 0%nat in H by lia. lia.
  - replace (Z.to_nat (rows b)) with 0%nat in H by lia. lia.
Qed.

(** Revealing the mines of a board whose listed mines lie on the grid
    returns with every listed mine opened. *)
Lemma openAllMines_ok b :
  GridOk b -> (forall m, m ∈ minesList b -> inBounds b m) ->
  exists b',
    openAllMines b = Ok b'
    /\ forall m, m ∈ minesList b -> cellIs isOpened b' m = true.
Proof.
  intros Hg Hin. unfold openAllMines.
  pose (L := fun (pre : list (Z * Z)) (bi : Board) =>
    GridOk bi /\ rows bi = rows b /\ cols bi = cols b
    /\ forall m, m ∈ pre -> cellIs isOpened bi m = true).
  destruct (forEach_ok L
              (fun (m : Z * Z) =>
                 withCell m.1 m.2
                   (fun _ b => Ok (updState (set_isOpened true) m.1 m.2 b)))
              (minesList b) [] b) as (b' & E & _ & _ & _ & H).
  - split; [exact Hg |]. split; [reflexivity |]. split; [reflexivity |].
    intros m Hm. inversion Hm.
  - intros pre m post bi Hsplit (Hgi & Hr & Hc & Hpre).
    assert (Hm : inBounds bi m).
    { unfold inBounds. rewrite Hr, Hc. apply Hin. simpl in Hsplit.
      rewrite Hsplit. apply elem_of_app. right. left. }
    destruct m as [mr mc].
    destruct (proj2 (getCell_inBounds bi _ _ Hgi) Hm) as [cell Hcell].
    unfold withCell. simpl fst. simpl snd. rewrite Hcell.
    eexists. split; [reflexivity |].
    split; [by apply GridOk_updState |].
    split; [exact Hr |]. split; [exact Hc |].
    intros m' Hm'. rewrite (cellIs_open _ _ _ _ _ _ Hcell).
    destruct (decide (m' = (mr, mc))); [reflexivity |].
    apply elem_of_app in Hm' as [Hm'|Hm']; [by apply Hpre |].
    apply list_elem_of_singleton in Hm'. contradiction.
  - exists b'. split; [exact E | exact H].
Qed.

(** On a board with its grid and mine list in order, [openCell]
    returns, unless the game is on and the coordinate is out of
    range. *)
Lemma openCell_total r c b :
  GridOk b -> (forall m, m ∈ minesList b -> inBounds b m) ->
  isGameOver b || isGameWon b = true \/ inBounds b (r, c) ->
  exists b', openCell now r c b = Ok b'.
Proof.
  intros Hg Hin [Hend|Hrc]; [exists b; by apply openCell_ended |].
  destruct (isGameOver b || isGameWon b) eqn:Hend;
    [exists b; by apply openCell_ended |].
  apply orb_false_iff in Hend as [Hover Hwon].
  destruct (cellIs isMine b (r, c)) eqn:Hmine.
  - rewrite openCell_unfold, openCell_fuel_S, Hover, Hwon.
    rewrite (proj2 (outOfRange_false b r c) Hrc). simpl orb.
    unfold cellIs in Hmine; simpl in Hmine. unfold withCell.
    destruct (getCell b r c) as [cell|]; [| discriminate].
    destruct (isOpened (state cell)); [by eexists |].
    rewrite Hmine.
    destruct (openAllMines_ok
                (set_endTime (Some now) (set_isGameOver true b)))
      as (b' & E & _); eauto.
  - destruct (flood now _ r c b Hg (openCell_fuel_enough b) Hrc Hmine Hover)
      as (b' & E & _).
    by exists b'.
Qed.

(** When [openCell] opens a cell itself, it ends with the test for a
    win: the game is won afterwards exactly if the counter stands at
    [rows * cols - mines]. *)
Lemma openCell_won_test r c b b' :
  Inv b -> isGameOver b = false -> isGameWon b = false ->
  inBounds b (r, c) ->
  cellIs isOpened b (r, c) = false -> cellIs isMine b (r, c) = false ->
  openCell now r c b = Ok b' ->
  isGameWon b' = (openedCells b' =? rows b' * cols b' - mines b').
Proof.
  intros HI Hover Hwon Hrc Hop Hmi.
  pose proof HI as (Hg & _).
  destruct (proj2 (getCell_inBounds b r c Hg) Hrc) as [cell Hcell].
  unfold cellIs in Hop, Hmi; simpl in Hop, Hmi. rewrite Hcell in Hop, Hmi.
  rewrite openCell_unfold, openCell_fuel_S, Hover, Hwon.
  rewrite (proj2 (outOfRange_false b r c) Hrc). simpl orb.
  unfold withCell. rewrite Hcell, Hop, Hmi. cbv zeta.
  set (fuel := Z.to_nat (rows b * cols b)).
  set (b1 := set_openedCells (openedCells b + 1)
               (updState (set_isOpened true) r c b)).
  set (loop := if adjacentMines (set_isOpened true (state cell)) =? 0
               then openAdjacentCellsWith (openCell_fuel fuel now) r c b1
               else Ok b1).
  assert (Hloop : resAll (steps b1) loop).
  { subst loop. case_match; [| apply rtc_refl].
    unfold openAdjacentCellsWith.
    case_match; [apply rtc_refl |]. case_match; [apply rtc_refl |].
    apply forEach_inv; [| apply rtc_refl].
    intros d bi _ Hs. unfold openAdjacentCell. cbv zeta.
    case_match; [exact Hs |]. case_match; [exact Hs |].
    unfold withCell. case_match; [| exact Hs].
    case_match; [exact Hs |]. case_match; [exact Hs |].
    eapply resAll_mono; [| apply openCell_fuel_steps].
    intros b'' [Hs' _]. by etrans. }
  destruct loop as [b2| |]; simpl; try discriminate.
  simpl in Hloop.
  assert (HI2 : Inv b2).
  { eapply steps_Inv; [exact Hloop |].
    eapply step_Inv; [| exact HI].
    by apply (step_open now b r c cell). }
  destruct (openedCells b2 =? rows b2 * cols b2 - mines b2) eqn:Hw;
    intros E; inversion E; subst b'; simpl.
  - by rewrite Hw.
  - rewrite Hw. destruct (isGameWon b2) eqn:Hw2; [| reflexivity].
    destruct HI2 as (_ & _ & _ & _ & H5). destruct (H5 Hw2) as [_ H6].
    apply Z.eqb_neq in Hw. contradiction.
Qed.

End OpenCell.

(* ================================================================= *)
(** * The bound on the recursion does not show *)

Section Fuel.

Variable now : Z.

Abbreviation steps := (rtc (openStep now)).

(** Two loop bodies that agree on the boards the loop goes through
    give the same loop. *)
Lemma forEach_agree {A} (I : Board -> Prop) (f g : A -> Board -> Res)
    (l : list A) :
  (forall x b, x ∈ l -> I b -> f x b = g x b /\ resAll I (f x b)) ->
  forall b, I b -> forEach f l b = forEach g l b.
Proof.
  induction l as [|x l IH]; intros H b Hb; [reflexivity |].
  simpl. destruct (H x b) as [E HI]; [left | exact Hb |].
  rewrite <- E. destruct (f x b) as [b1| |]; simpl; try reflexivity.
  apply IH; [| exact HI]. intros y b' Hy. apply H. by right.
Qed.

(** The body gives the same result over two methods that agree
    wherever the first gives a result. *)
Lemma openCellWith_agree (self self' : Z -> Z -> Board -> Res) r c b res :
  (forall r c b res,
      self r c b = res -> res <> OutOfFuel -> self' r c b = res) ->
  openCellWith self now r c b = res -> res <> OutOfFuel ->
  openCellWith self' now r c b = res.
Proof.
  intros Hself. unfold openCellWith.
  destruct (isGameOver b || isGameWon b); [auto |].
  destruct (outOfRange b r c); [auto |].
  unfold withCell. destruct (getCell b r c) as [cell|]; [| auto].
  destruct (isOpened (state cell)); [auto |].
  destruct (isMine (state cell)); [auto |]. cbv zeta.
  destruct (adjacentMines (set_isOpened true (state cell)) =? 0);
    [| auto].
  unfold openAdjacentCellsWith.
  destruct ((r <? 0) || (rows _ <=? r)); [auto |].
  destruct ((c <? 0) || (cols _ <=? c)); [auto |].
  generalize (set_openedCells (openedCells b + 1)
                (updState (set_isOpened true) r c b)).
  induction directions as [|d l IH]; intros b1; simpl; [auto |].
  unfold openAdjacentCell at 1 3. cbv zeta.
  destruct ((r + d.1 <? 0) || (rows b1 <=? r + d.1)); [apply IH |].
  destruct ((c + d.2 <? 0) || (cols b1 <=? c + d.2)); [apply IH |].
  unfold withCell. destruct (getCell b1 (r + d.1) (c + d.2)) as [cell'|];
    [| auto].
  destruct (isOpened (state cell') || isFlagged (state cell'));
    [apply IH |].
  destruct (isMine (state cell')); [apply IH |].
  destruct (self (r + d.1) (c + d.2) b1) as [b2|e b2|] eqn:E.
  - rewrite (Hself _ _ _ _ E) by discriminate. apply IH.
  - rewrite (Hself _ _ _ _ E) by discriminate. auto.
  - simpl. intros <- H. contradiction.
Qed.

(** A result obtained with some fuel is obtained with more. *)
Lemma openCell_fuel_more n : forall m r c b res,
  (n <= m)%nat ->
  openCell_fuel n now r c b = res -> res <> OutOfFuel ->
  openCell_fuel m now r c b = res.
Proof.
  induction n as [|n IH]; intros m r c b res Hle E Hres.
  - simpl in E. congruence.
  - destruct m as [|m]; [lia |]. simpl in *.
    apply (openCellWith_agree (openCell_fuel n now)); auto.
    intros r' c' b' res'. apply IH. lia.
Qed.

(** [openCell] is the method that calls itself: on a board with its
    grid in order it is a fixed point of its body. *)
Theorem openCell_fixpoint r c b :
  GridOk b ->
  openCell now r c b = openCellWith (openCell now) now r c b.
Proof.
  intros Hg. rewrite openCell_unfold.
  set (N := Z.to_nat (rows b * cols b)).
  change (openCell_fuel (S N) now r c b)
    with (openCellWith (openCell_fuel N now) now r c b).
  unfold openCellWith.
  destruct (isGameOver b || isGameWon b) eqn:Hend; [reflexivity |].
  apply orb_false_iff in Hend as [Hover Hwon].
  destruct (outOfRange b r c) eqn:Hrange; [reflexivity |].
  apply outOfRange_false in Hrange.
  unfold withCell. destruct (getCell b r c) as [cell|] eqn:Hcell;
    [| reflexivity].
  destruct (isOpened (state cell)) eqn:Hop; [reflexivity |].
  destruct (isMine (state cell)) eqn:Hmi; [reflexivity |]. cbv zeta.
  destruct (adjacentMines (set_isOpened true (state cell)) =? 0);
    [| reflexivity].
  f_equal. unfold openAdjacentCellsWith.
  destruct ((r <? 0) || (rows _ <=? r)); [reflexivity |].
  destruct ((c <? 0) || (cols _ <=? c)); [reflexivity |].
  set (b1 := set_openedCells (openedCells b + 1)
               (updState (set_isOpened true) r c b)).
  assert (Hs1 : steps b b1) by (apply rtc_once; eapply step_open; eauto).
  assert (Hfuel1 : (countCells unopened b1 < N)%nat).
  { pose proof (open_unopened b r c cell Hrange Hcell Hop) as E.
    fold b1 in E. pose proof (openCell_fuel_enough b). fold N in H. lia. }
  apply (forEach_agree
           (fun bi => steps b1 bi /\ isGameOver bi = false));
    [| split; [apply rtc_refl | exact Hover]].
  intros d bi _ [Hsi Hoi].
  assert (Hgi : GridOk bi).
  { eapply steps_GridOk; [exact Hsi |].
    eapply steps_GridOk; [exact Hs1 | exact Hg]. }
  unfold openAdjacentCell. cbv zeta.
  destruct ((r + d.1 <? 0) || (rows bi <=? r + d.1)) eqn:Hr';
    [by repeat split |].
  destruct ((c + d.2 <? 0) || (cols bi <=? c + d.2)) eqn:Hc';
    [by repeat split |].
  apply skip_row_false in Hr'. apply skip_col_false in Hc'.
  unfold withCell.
  destruct (getCell bi (r + d.1) (c + d.2)) as [cell'|] eqn:Hcell';
    [| by repeat split].
  destruct (isOpened (state cell') || isFlagged (state cell'));
    [by repeat split |].
  destruct (isMine (state cell')) eqn:Hmi'; [by repeat split |].
  assert (Hmq : cellIs isMine bi (r + d.1, c + d.2) = false)
    by (unfold cellIs; simpl; by rewrite Hcell').
  destruct (flood now N (r + d.1) (c + d.2) bi) as (b' & E & _); auto.
  { pose proof (steps_unopened _ _ _ Hsi). lia. }
  { by split. }
  pose proof (openCell_fuel_steps now N (r + d.1) (c + d.2) bi) as Hst.
  rewrite E in *. destruct Hst as [Hst Hov]. split.
  - rewrite openCell_unfold. symmetry.
    destruct (steps_frame _ _ _ Hs1) as (Hrows1 & Hcols1 & _).
    destruct (steps_frame _ _ _ Hsi) as (Hrows & Hcols & _).
    rewrite Hrows, Hcols, Hrows1, Hcols1. fold N.
    apply (openCell_fuel_more N); [lia | exact E | discriminate].
  - split; [by etrans | by apply Hov].
Qed.

End Fuel.

(* ================================================================= *)
(** * Shuffling *)

Section Shuffle.

Context {A : Type}.
Implicit Types (a : list A) (rs : Rand).

Lemma swap_perm i j a : swap i j a ≡ₚ a.
Proof.
  unfold swap.
  destruct (a !! i) as [x|] eqn:Hi; [| reflexivity].
  destruct (a !! j) as [y|] eqn:Hj; [| reflexivity].
  by apply Permutation_insert_swap.
Qed.

Lemma shuffleFrom_perm i : forall a rs, (shuffleFrom i a rs).1 ≡ₚ a.
Proof.
  induction i as [|i IH]; intros a rs; [reflexivity |].
  simpl. destruct (randomInt _ rs) as [j rs'].
  rewrite IH. apply swap_perm.
Qed.

Lemma shuffleArray_perm a rs : (shuffleArray a rs).1 ≡ₚ a.
Proof. apply shuffleFrom_perm. Qed.

End Shuffle.

(* ================================================================= *)
(** * The candidate cells of the placement *)

Section Candidates.

Implicit Types (b : Board) (p q : Z * Z) (rs : Rand).

Lemma NoDup_directions : NoDup directions.
Proof. apply (bool_decide_unpack _). vm_compute. exact I. Qed.

Lemma length_directions : length directions = 8%nat.
Proof. reflexivity. Qed.

Lemma shift_inj p d d' : shift p d = shift p d' -> d = d'.
Proof.
  destruct p, d, d'. unfold shift; simpl. intros E. inversion E.
  f_equal; lia.
Qed.

Lemma shift_ne p d : d ∈ directions -> shift p d <> p.
Proof.
  intros Hd E. destruct p as [r c], d as [dr dc].
  unfold shift in E; simpl in E. inversion E.
  assert (dr = 0 /\ dc = 0) as [-> ->] by lia.
  revert Hd. apply (bool_decide_unpack _). vm_compute. exact I.
Qed.

Lemma NoDup_take_of {A} (n : nat) (l : list A) :
  NoDup l -> NoDup (take n l).
Proof.
  intros H. rewrite <- (take_drop n l) in H.
  apply list.NoDup_app in H. tauto.
Qed.

Lemma adjacent_one b r c d p :
  In p (if (r + d.1 <? 0) || (rows b <=? r + d.1) then []
        else if (c + d.2 <? 0) || (cols b <=? c + d.2) then []
             else [(r + d.1, c + d.2)]) ->
  p = shift (r, c) d.
Proof.
  destruct (_ || _); [intros [] |].
  destruct (_ || _); [intros [] |].
  intros [<-|[]]. reflexivity.
Qed.

Lemma getAdjacentCells_spec b r c p :
  p ∈ getAdjacentCells b r c
  <-> exists d, d ∈ directions /\ p = shift (r, c) d /\ inBounds b p.
Proof.
  unfold getAdjacentCells. rewrite list_elem_of_In, in_flat_map. split.
  - intros (d & Hd & Hp). apply list_elem_of_In in Hd.
    exists d. split; [exact Hd |].
    destruct ((r + d.1 <? 0) || (rows b <=? r + d.1)) eqn:Hr;
      [inversion Hp |].
    destruct ((c + d.2 <? 0) || (cols b <=? c + d.2)) eqn:Hc;
      [inversion Hp |].
    destruct Hp as [<-|[]]. split; [reflexivity |].
    apply skip_row_false in Hr. apply skip_col_false in Hc. by split.
  - intros (d & Hd & -> & [Hr Hc]). exists d.
    split; [by apply list_elem_of_In |]. simpl in Hr, Hc.
    rewrite (proj2 (skip_row_false b _) Hr).
    rewrite (proj2 (skip_col_false b _) Hc). by left.
Qed.

Lemma NoDup_getAdjacentCells b r c : NoDup (getAdjacentCells b r c).
Proof.
  unfold getAdjacentCells.
  pose proof NoDup_directions as Hnd.
  induction directions as [|d l IH]; [constructor |].
  apply list.NoDup_cons in Hnd as [Hd Hl]. simpl.
  apply list.NoDup_app. split; [| split; [| by apply IH]].
  - repeat case_match; auto using NoDup_nil_2, NoDup_singleton.
  - intros p Hp Hp'.
    apply list_elem_of_In, in_flat_map in Hp' as (d' & Hd' & Hp').
    apply list_elem_of_In in Hd'.
    apply list_elem_of_In, adjacent_one in Hp.
    apply adjacent_one in Hp'. subst p.
    apply Hd. by rewrite (shift_inj (r, c) d d').
Qed.

Lemma length_getAdjacentCells b r c :
  (length (getAdjacentCells b r c) <= 8)%nat.
Proof.
  unfold getAdjacentCells. rewrite <- length_directions.
  induction directions as [|d l IH]; [reflexivity |].
  simpl. rewrite length_app. repeat case_match; simpl; lia.
Qed.

(** The excluded cells are the start cell and between one and all of
    its neighbours (none when it has none), all different. *)
Lemma excludedCells_spec rs r c b :
  inBounds b (r, c) ->
  let excl := (excludedCells rs r c b).1 in
  NoDup excl
  /\ (forall p, p ∈ excl -> inBounds b p)
  /\ (r, c) ∈ excl
  /\ (excludedNeighbours rs r c b <= length (getAdjacentCells b r c))%nat
  /\ (getAdjacentCells b r c <> [] ->
      (1 <= excludedNeighbours rs r c b)%nat).
Proof.
  intros Hrc. unfold excludedNeighbours, excludedCells.
  pose proof (shuffleArray_perm (getAdjacentCells b r c) rs) as Hperm.
  destruct (shuffleArray (getAdjacentCells b r c) rs) as [adj rs1].
  simpl in Hperm.
  destruct (randomInt (length adj) rs1) as [n rs2] eqn:Hn. simpl.
  assert (Hadj : forall p, p ∈ adj ->
                   inBounds b p /\ p <> (r, c)).
  { intros p Hp. rewrite Hperm in Hp.
    apply getAdjacentCells_spec in Hp as (d & Hd & -> & Hin).
    split; [exact Hin | by apply shift_ne]. }
  assert (Hsub : forall p, p ∈ take (n + 1) adj -> p ∈ adj).
  { intros p Hp. by apply (subseteq_take (n + 1) adj). }
  split; [| split; [| split; [| split]]].
  - apply list.NoDup_cons. split.
    + intros Hin. by destruct (Hadj _ (Hsub _ Hin)).
    + apply NoDup_take_of. rewrite Hperm. apply NoDup_getAdjacentCells.
  - intros p Hp. apply elem_of_cons in Hp as [->|Hp]; [exact Hrc |].
    by destruct (Hadj _ (Hsub _ Hp)).
  - left.
  - rewrite Nat.sub_0_r, length_take, <- Hperm. lia.
  - intros Hne. rewrite Nat.sub_0_r, length_take.
    assert (length adj <> 0%nat).
    { rewrite Hperm. by destruct (getAdjacentCells b r c). }
    lia.
Qed.

Lemma buildLine_filter (excl : list (Z * Z)) (r : Z) (cs : list Z) :
  flat_map (fun c => if has excl (r, c) then [] else [(r, c)]) cs
  = filter (fun p => p ∉ excl) (map (fun c => (r, c)) cs).
Proof.
  induction cs as [|c cs IH]; [reflexivity |].
  simpl. rewrite filter_cons, IH. unfold has.
  destruct (decide ((r, c) ∉ excl)) as [H|H].
  - by rewrite bool_decide_eq_false_2.
  - rewrite bool_decide_eq_true_2; [reflexivity |].
    by apply dec_stable.
Qed.

Lemma buildCells_filter b (excl : list (Z * Z)) :
  buildCellsListWithoutMines b excl
  = filter (fun p => p ∉ excl) (positions b).
Proof.
  unfold buildCellsListWithoutMines, positions.
  induction (seqZ 0 (rows b)) as [|r l IH]; [reflexivity |].
  simpl. by rewrite filter_app, IH, buildLine_filter.
Qed.

Lemma length_buildCells b (excl : list (Z * Z)) :
  NoDup excl -> (forall p, p ∈ excl -> inBounds b p) ->
  (length (buildCellsListWithoutMines b excl) + length excl)%nat
  = (Z.to_nat (rows b) * Z.to_nat (cols b))%nat.
Proof.
  intros Hnd Hin. rewrite buildCells_filter, <- length_positions.
  pose proof (Permutation_length
                (filter_app_complement (fun p => p ∉ excl) (positions b)))
    as E.
  rewrite length_app in E. rewrite <- E. f_equal.
  apply Permutation_length, NoDup_Permutation; auto.
  - apply list.NoDup_filter, NoDup_positions.
  - intros p. rewrite list_elem_of_filter, elem_of_positions. split.
    + intros Hp. split; [| by apply Hin]. by intros H.
    + intros [H _]. by apply dec_stable.
Qed.

(** The candidate list has the cells of the board but the excluded
    ones, each once. *)
Lemma candidateCells_spec rs r c b :
  inBounds b (r, c) ->
  let cellList := candidateCells rs r c b in
  NoDup cellList
  /\ (forall p, p ∈ cellList -> inBounds b p /\ p <> (r, c))
  /\ (length cellList + excludedNeighbours rs r c b + 1)%nat
     = (Z.to_nat (rows b) * Z.to_nat (cols b))%nat.
Proof.
  intros Hrc.
  destruct (excludedCells_spec rs r c b Hrc) as (Hnd & Hin & Hstart & Hk & _).
  unfold candidateCells, excludedNeighbours in *.
  destruct (excludedCells rs r c b) as [excl rs2]. simpl in *.
  pose proof (shuffleArray_perm (buildCellsListWithoutMines b excl) rs2)
    as Hperm.
  split; [| split].
  - rewrite Hperm, buildCells_filter.
    apply list.NoDup_filter, NoDup_positions.
  - intros p Hp. rewrite Hperm, buildCells_filter in Hp.
    apply list_elem_of_filter in Hp as [Hp1 Hp2].
    split; [by apply elem_of_positions |]. by intros ->.
  - rewrite Hperm. rewrite <- (length_buildCells b excl Hnd Hin).
    destruct excl; [inversion Hstart |]. simpl. lia.
Qed.

End Candidates.

(* ================================================================= *)
(** * startGame: laying the mines *)

Section Placement.

Implicit Types (b : Board) (p q : Z * Z) (rs : Rand).

Lemma GridOk_reset b : GridOk (reset b).
Proof.
  split; simpl; unfold init.
  - by rewrite length_map, length_seqZ.
  - apply Forall_forall. intros line Hline.
    apply list_elem_of_fmap in Hline as (r & -> & _).
    by rewrite length_map, length_seqZ.
Qed.

Lemma getCell_reset b r c :
  inBounds b (r, c) -> getCell (reset b) r c = Some (newCell r c).
Proof.
  intros [[Hr1 Hr2] [Hc1 Hc2]]; simpl in *. unfold getCell.
  rewrite (proj2 (Z.leb_le 0 r) Hr1), (proj2 (Z.leb_le 0 c) Hc1).
  simpl. unfold init.
  rewrite list_lookup_fmap, lookup_seqZ_lt by lia. simpl.
  rewrite list_lookup_fmap, lookup_seqZ_lt by lia. simpl.
  f_equal. unfold newCell. f_equal; lia.
Qed.

Lemma Settled_reset b : Settled [] b (reset b).
Proof.
  split; [apply GridOk_reset |]. split; [reflexivity |].
  split; [reflexivity |].
  intros [r c] Hp. exists (newCell r c).
  split; [by apply getCell_reset |]. by repeat split.
Qed.

Lemma Settled_frame ml b0 b :
  Settled ml b0 b ->
  rows b = rows b0 /\ cols b = cols b0 /\ mines b = mines b0
  /\ difficulty b = difficulty b0 /\ flags b = 0 /\ openedCells b = 0
  /\ isGameOver b = false /\ isGameWon b = false
  /\ startTime b = None /\ endTime b = None.
Proof. intros (_ & _ & Hf & _). repeat split; congruence. Qed.

Lemma Settled_inBounds ml b0 b p :
  Settled ml b0 b -> inBounds b p <-> inBounds b0 p.
Proof.
  intros (_ & _ & Hf & _). inversion Hf as [[Hr Hc]].
  unfold inBounds. by rewrite Hr, Hc.
Qed.

(** One iteration of the placement loop on an existing cell. *)
Lemma Settled_place ml b0 b r c :
  Settled ml b0 b -> inBounds b0 (r, c) ->
  exists cell,
    getCell b r c = Some cell
    /\ Settled (ml ++ [(r, c)]) b0
         (set_minesList (minesList b ++ [(r, c)])
            (updState (set_isMine true) r c b)).
Proof.
  intros HS Hrc. pose proof HS as (Hg & Hml & Hf & Hcells).
  destruct (Hcells (r, c) Hrc) as (cell & Hcell & _). simpl in Hcell.
  exists cell. split; [exact Hcell |].
  destruct (getCell_Some_nonneg _ _ _ _ Hcell) as [Hr0 Hc0].
  split; [by apply GridOk_updState |].
  split; [simpl; by rewrite Hml |]. split; [exact Hf |].
  intros p Hp.
  change (getCell (set_minesList (minesList b ++ [(r, c)])
                     (updState (set_isMine true) r c b)) p.1 p.2)
    with (getCell (updState (set_isMine true) r c b) p.1 p.2).
  rewrite getCell_updState by assumption.
  destruct (decide ((p.1, p.2) = (r, c))) as [E|N].
  - rewrite Hcell. eexists. split; [reflexivity |]. simpl.
    split; [| by repeat split].
    symmetry. apply bool_decide_eq_true_2, elem_of_app. right.
    destruct p; simpl in E. rewrite E. left.
  - destruct (Hcells p Hp) as (cell' & Hc' & Hm' & Hrest).
    exists cell'. split; [exact Hc' |]. split; [| exact Hrest].
    rewrite Hm'. apply bool_decide_ext. rewrite elem_of_app.
    split; [by left |]. intros [H|H]; [exact H |].
    apply list_elem_of_singleton in H. destruct p. contradiction.
Qed.

(** The placement loop from index [i]: it returns when the list has
    enough cells and throws a TypeError at the end of the list
    otherwise, with the cells before that mined. *)
Lemma placeLoop (cellList : list (Z * Z)) b0 :
  (forall p, p ∈ cellList -> inBounds b0 p) ->
  forall n i b,
    Settled (take i cellList) b0 b -> (i <= length cellList)%nat ->
    match forEach (placeMine cellList) (seq i n) b with
    | Ok b' =>
        (i + n <= length cellList)%nat
        /\ Settled (take (i + n) cellList) b0 b'
    | Throw e b' =>
        e = TypeError /\ (length cellList < i + n)%nat
        /\ Settled cellList b0 b'
    | OutOfFuel => False
    end.
Proof.
  intros Hin. induction n as [|n IH]; intros i b HS Hi; simpl.
  - rewrite Nat.add_0_r. auto.
  - unfold placeMine at 1.
    destruct (cellList !! i) as [[r c]|] eqn:Hi'.
    + assert (Hrc : inBounds b0 (r, c)).
      { apply Hin. by eapply list_elem_of_lookup_2. }
      destruct (Settled_place _ _ _ r c HS Hrc) as (cell & Hcell & HS').
      unfold withCell. rewrite Hcell. simpl bind.
      rewrite <- (take_S_r _ _ _ Hi') in HS'.
      pose proof (lookup_lt_Some _ _ _ Hi') as Hlt.
      specialize (IH (S i) _ HS' Hlt).
      rewrite <- Nat.add_succ_comm. exact IH.
    + simpl. apply lookup_ge_None in Hi'.
      split; [reflexivity |]. split; [lia |].
      by rewrite take_ge in HS by lia.
Qed.

(** Counting adjacent mines changes neither what is mined nor what
    is shown of a closed cell. *)
Lemma Settled_adjacent ml b0 b r c (v : CellState -> Z) :
  Settled ml b0 b -> inBounds b0 (r, c) ->
  Settled ml b0 (updState (fun s => set_adjacentMines (v s) s) r c b).
Proof.
  intros (Hg & Hml & Hf & Hcells) Hrc.
  split; [by apply GridOk_updState |]. split; [exact Hml |].
  split; [exact Hf |]. intros p Hp.
  destruct Hrc as [[Hr0 _] [Hc0 _]]; simpl in Hr0, Hc0.
  rewrite getCell_updState by assumption.
  destruct (Hcells p Hp) as (cell & Hc & Hm & Ho & Hfl & Hcur).
  destruct (decide ((p.1, p.2) = (r, c))) as [E|N]; [| by exists cell].
  inversion E; subst r c. rewrite Hc. eexists. split; [reflexivity |].
  simpl. unfold set_adjacentMines.
  destruct (isMine (state cell)) eqn:Hmi; [by rewrite Hmi |].
  destruct (v (state cell) <? 0); [by rewrite Hmi |]. simpl. by rewrite Ho.
Qed.

Lemma calculateAdjacentMines_ok ml b0 b :
  Settled ml b0 b ->
  exists b', calculateAdjacentMines b = Ok b' /\ Settled ml b0 b'.
Proof.
  intros HS. unfold calculateAdjacentMines.
  apply (forEach_ok (fun _ bi => Settled ml b0 bi) _ (minesList b) []);
    [exact HS |].
  intros _ m _ bi _ HSi.
  apply (forEach_ok (fun _ bj => Settled ml b0 bj) _ directions []);
    [exact HSi |].
  intros _ d _ bj _ HSj. cbv zeta.
  destruct ((m.1 + d.1 <? 0) || (rows bj <=? m.1 + d.1)) eqn:Hr;
    [by exists bj |].
  destruct ((m.2 + d.2 <? 0) || (cols bj <=? m.2 + d.2)) eqn:Hc;
    [by exists bj |].
  apply skip_row_false in Hr. apply skip_col_false in Hc.
  assert (Hq : inBounds b0 (m.1 + d.1, m.2 + d.2)).
  { apply (Settled_inBounds _ _ _ _ HSj). by split. }
  pose proof HSj as (_ & _ & _ & Hcells).
  destruct (Hcells _ Hq) as (cell & Hcell & _). simpl in Hcell.
  unfold withCell. rewrite Hcell.
  destruct (isMine (state cell)); [by exists bj |].
  eexists. split; [reflexivity |].
  by apply (Settled_adjacent ml b0 bj _ _ (fun s => adjacentMines s + 1)).
Qed.

(** [startGame] on an in-range cell: it returns with the first
    [mines] candidate cells mined and the clock started when there
    are that many candidates, and throws a TypeError otherwise, after
    mining all candidates. *)
Lemma startGame_spec now rs r c b :
  inBounds b (r, c) ->
  let cellList := candidateCells rs r c b in
  let n := Z.to_nat (mines b) in
  match startGame now rs r c b with
  | Ok b' =>
      (n <= length cellList)%nat
      /\ exists b2, b' = set_startTime (Some now) b2
                    /\ Settled (take n cellList) b b2
  | Throw e b' =>
      e = TypeError /\ (length cellList < n)%nat /\ Settled cellList b b'
  | OutOfFuel => False
  end.
Proof.
  intros Hrc cellList n. unfold startGame.
  rewrite (proj2 (outOfRange_false b r c) Hrc). unfold placeMines.
  change (candidateCells rs r c (reset b)) with cellList.
  change (Z.to_nat (mines (reset b))) with n.
  destruct (candidateCells_spec rs r c b Hrc) as (_ & Hin & _).
  fold cellList in Hin.
  pose proof (placeLoop cellList b (fun p Hp => proj1 (Hin p Hp))
                n 0%nat (reset b) (Settled_reset b) (Nat.le_0_l _)) as H.
  destruct (forEach (placeMine cellList) (seq 0 n) (reset b))
    as [b1|e b1|]; simpl in *; [| exact H | contradiction].
  destruct H as [Hn HS].
  destruct (calculateAdjacentMines_ok _ _ _ HS) as (b2 & E2 & HS2).
  rewrite E2. simpl. split; [exact Hn |]. by exists b2.
Qed.

End Placement.

(* ================================================================= *)
(** * The operations, case by case *)

Section Operations.

Implicit Types (b : Board) (p q : Z * Z) (rs : Rand).

Lemma openAllMines_frame b :
  resAll
    (fun b' => openedCells b' = openedCells b
               /\ isGameWon b' = isGameWon b
               /\ isGameOver b' = isGameOver b)
    (openAllMines b).
Proof.
  unfold openAllMines. apply forEach_inv; [| auto].
  intros m bi _ H. unfold withCell. by case_match.
Qed.

Lemma openCell_cases now r c b :
  Inv b -> OpenCase now r c b (openCell now r c b).
Proof.
  intros HI. pose proof HI as (Hg & Hml & _).
  destruct (isGameOver b || isGameWon b) eqn:Hend.
  { rewrite openCell_ended by done. by apply open_ended. }
  pose proof Hend as Hend'.
  apply orb_false_iff in Hend' as [Hover Hwon].
  destruct (outOfRange b r c) eqn:Hrange.
  { rewrite openCell_outOfRange by done.
    apply open_refused; auto. by apply outOfRange_true. }
  apply outOfRange_false in Hrange.
  destruct (proj2 (getCell_inBounds b r c Hg) Hrange) as [cell Hcell].
  destruct (cellIs isOpened b (r, c)) eqn:Hop.
  { replace (openCell now r c b) with (Ok b); [by apply open_already |].
    rewrite openCell_unfold, openCell_fuel_S, Hend.
    rewrite (proj2 (outOfRange_false b r c) Hrange).
    unfold withCell. rewrite Hcell.
    unfold cellIs in Hop; simpl in Hop. rewrite Hcell in Hop.
    by rewrite Hop. }
  destruct (cellIs isMine b (r, c)) eqn:Hmi.
  - pose proof (openCell_steps now r c b) as Hsteps.
    assert (E : openCell now r c b
                = openAllMines
                    (set_endTime (Some now) (set_isGameOver true b))).
    { rewrite openCell_unfold, openCell_fuel_S, Hend.
      rewrite (proj2 (outOfRange_false b r c) Hrange).
      unfold withCell. rewrite Hcell.
      unfold cellIs in Hop, Hmi; simpl in Hop, Hmi.
      rewrite Hcell in Hop, Hmi. by rewrite Hop, Hmi. }
    rewrite E in *.
    pose proof (openAllMines_frame
                  (set_endTime (Some now) (set_isGameOver true b))) as Hfr.
    destruct (openAllMines_ok
                (set_endTime (Some now) (set_isGameOver true b)))
      as (b' & E' & Hopened); [exact Hg | |].
    { intros m Hm. apply Hml in Hm. tauto. }
    rewrite E' in *. simpl in Hsteps, Hfr.
    destruct Hfr as (H1 & H2 & H3).
    apply open_mine; auto; congruence.
  - destruct (flood now _ r c b Hg (openCell_fuel_enough b)
                Hrange Hmi Hover) as (b' & E & Hfl).
    pose proof (openCell_fuel_steps now
                  (S (Z.to_nat (rows b * cols b))) r c b) as Hsteps.
    rewrite E in Hsteps. destruct Hsteps as [Hs Ho].
    rewrite openCell_unfold, E.
    apply open_safe; auto.
    by apply (openCell_won_test now r c b).
Qed.

Lemma toggleFlag_cases r c b :
  GridOk b -> ToggleCase r c b (toggleFlag r c b).
Proof.
  intros Hg. unfold toggleFlag.
  destruct (outOfRange b r c) eqn:Hrange.
  { apply toggle_refused. by apply outOfRange_true. }
  apply outOfRange_false in Hrange.
  destruct (isGameOver b || isGameWon b) eqn:Hend.
  { apply toggle_ignored; auto. }
  apply orb_false_iff in Hend as [Hover Hwon].
  destruct (proj2 (getCell_inBounds b r c Hg) Hrange) as [cell Hcell].
  unfold withCell at 1. rewrite Hcell.
  destruct (isOpened (state cell)) eqn:Hop.
  { apply toggle_ignored; auto. right.
    unfold cellIs; simpl. by rewrite Hcell. }
  cbv zeta. unfold withCell.
  destruct (getCell_Some_nonneg _ _ _ _ Hcell) as [Hr0 Hc0].
  rewrite getCell_updState, decide_True, Hcell by done. simpl.
  unfold set_isFlagged at 1. rewrite Hop. simpl.
  replace (if negb (isFlagged (state cell)) then 1 else -1)
    with (if isFlagged (state cell) then -1 else 1)
    by (by destruct (isFlagged (state cell))).
  by apply toggle_done.
Qed.

(** Toggling a flag changes no other field of the cell. *)
Lemma cellIs_toggle P r c b q cell :
  getCell b r c = Some cell -> isOpened (state cell) = false ->
  (forall s v, isOpened s = false -> P (set_isFlagged v s) = P s) ->
  cellIs P
    (updState (fun s => set_isFlagged (negb (isFlagged s)) s) r c b) q
  = cellIs P b q.
Proof.
  intros Hc Hop HP.
  destruct (getCell_Some_nonneg _ _ _ _ Hc) as [Hr0 Hc0].
  rewrite cellIs_updState by assumption.
  destruct (decide (q = (r, c))) as [->|]; [| reflexivity].
  unfold cellIs; simpl. rewrite Hc. by apply HP.
Qed.

Ltac flag_keeps :=
  let s := fresh "s" in
  let v := fresh "v" in
  let Ho := fresh "Ho" in
  intros s v Ho; unfold set_isFlagged, openedSafe, unopenedSafe;
  rewrite Ho; simpl; rewrite ?Ho; reflexivity.

Lemma Inv_toggle r c b cell v :
  getCell b r c = Some cell -> isOpened (state cell) = false ->
  Inv b ->
  Inv (set_flags v
         (updState (fun s => set_isFlagged (negb (isFlagged s)) s) r c b)).
Proof.
  intros Hc Hop (Hg & Hml & Hcnt & Hmo & Hw).
  assert (Hmine : forall q, cellIs isMine
            (updState (fun s => set_isFlagged (negb (isFlagged s)) s) r c b)
            q = cellIs isMine b q).
  { intros q. apply (cellIs_toggle _ _ _ _ _ _ Hc Hop).
    flag_keeps. }
  assert (Hopen : forall q, cellIs isOpened
            (updState (fun s => set_isFlagged (negb (isFlagged s)) s) r c b)
            q = cellIs isOpened b q).
  { intros q. apply (cellIs_toggle _ _ _ _ _ _ Hc Hop).
    flag_keeps. }
  split; [by apply GridOk_updState |]. split; [| split; [| split]].
  - intros p.
    change (p ∈ minesList b <->
            inBounds b p /\ cellIs isMine
              (updState (fun s => set_isFlagged (negb (isFlagged s)) s)
                 r c b) p = true).
    rewrite Hmine. apply Hml.
  - simpl. rewrite Hcnt. f_equal. symmetry.
    apply countCells_ext; auto. intros q _.
    apply (cellIs_toggle _ _ _ _ _ _ Hc Hop).
    flag_keeps.
  - intros Hover p Hp.
    change (cellIs isOpened
              (updState (fun s => set_isFlagged (negb (isFlagged s)) s)
                 r c b) p = false).
    rewrite Hopen. apply (Hmo Hover).
    by rewrite <- Hmine.
  - exact Hw.
Qed.

Lemma countCells_none P b :
  (forall p, inBounds b p -> cellIs P b p = false) -> countCells P b = 0%nat.
Proof.
  intros H. unfold countCells.
  rewrite (count_ext _ (fun _ => false)).
  - induction (positions b) as [|p l IH]; [reflexivity |].
    by rewrite filter_cons.
  - intros p Hp. apply H. by apply elem_of_positions.
Qed.

End Operations.

(* ================================================================= *)
(** * The invariants of the boards the engine can be in *)

Section ReachableBoards.

Implicit Types (b : Board) (p q : Z * Z) (rs : Rand).

Lemma Settled_cellIs ml b0 b p :
  Settled ml b0 b -> inBounds b0 p ->
  cellIs isMine b p = bool_decide (p ∈ ml)
  /\ cellIs isOpened b p = false
  /\ cellIs isFlagged b p = false
  /\ cellIs (fun s => String.eqb (currentState s) UNOPENED) b p = true.
Proof.
  intros (_ & _ & _ & Hcells) Hp.
  destruct (Hcells p Hp) as (cell & Hc & Hm & Ho & Hf & Hcur).
  unfold cellIs. rewrite Hc, Hcur. auto.
Qed.

(** Right after the placement the bookkeeping is in order and the
    mined cells are counted by the list of mines. *)
Lemma Settled_Inv ml b0 b :
  Settled ml b0 b -> NoDup ml -> (forall p, p ∈ ml -> inBounds b0 p) ->
  Inv b /\ countCells isMine b = length ml.
Proof.
  intros HS Hnd Hin. pose proof HS as (Hg & Hml & Hf & Hcells).
  pose proof (fun p => Settled_inBounds _ _ _ p HS) as Hb.
  destruct (Settled_frame _ _ _ HS)
    as (Hrows & Hcols & Hmines & Hdiff & Hflags & Hcnt & Hover & Hwon & _).
  assert (Hout : forall P p, ~ inBounds b p -> cellIs P b p = false).
  { intros P p Hp. unfold cellIs.
    destruct (getCell b p.1 p.2) as [cell|] eqn:Hc; [| reflexivity].
    exfalso. apply Hp. destruct p.
    apply (getCell_inBounds b _ _ Hg). by exists cell. }
  split; [split; [exact Hg |]; split; [| split; [| split]] |].
  - intros p. rewrite Hml. split.
    + intros Hp. split; [by apply Hb, Hin |].
      destruct (Settled_cellIs _ _ _ p HS (Hin p Hp)) as (-> & _).
      by apply bool_decide_eq_true_2.
    + intros [Hp Hm]. apply Hb in Hp.
      destruct (Settled_cellIs _ _ _ p HS Hp) as (E & _).
      rewrite E in Hm. by apply bool_decide_eq_true_1 in Hm.
  - rewrite Hcnt, countCells_none; [reflexivity |].
    intros p Hp. apply Hb in Hp.
    destruct (Hcells p Hp) as (cell & Hc & _ & Ho & _).
    unfold cellIs, openedSafe. by rewrite Hc, Ho.
  - intros _ p _.
    destruct (decide (inBounds b p)) as [Hp|Hp]; [| by apply Hout].
    apply Hb in Hp. by destruct (Settled_cellIs _ _ _ p HS Hp) as (_ & ? & _).
  - rewrite Hwon. discriminate.
  - unfold countCells. apply count_NoDup; auto.
    + apply NoDup_positions.
    + intros p. rewrite elem_of_positions. split.
      * intros Hp. pose proof (Hin p Hp) as Hp'.
        split; [by apply Hb |].
        destruct (Settled_cellIs _ _ _ p HS Hp') as (-> & _).
        by apply bool_decide_eq_true_2.
      * intros [Hp Hm]. apply Hb in Hp.
        destruct (Settled_cellIs _ _ _ p HS Hp) as (E & _).
        rewrite E in Hm. by apply bool_decide_eq_true_1 in Hm.
Qed.

Lemma RInv_reset b : RInv (reset b).
Proof.
  split.
  - apply (Settled_Inv [] b); [apply Settled_reset | constructor |].
    intros p Hp. inversion Hp.
  - simpl. lia.
Qed.

(** [startGame] leaves the bookkeeping in order, whether it returns
    or throws. *)
Lemma RInv_startGame now rs r c b :
  RInv b -> RInv (boardAfter (startGame now rs r c b) b).
Proof.
  intros HR.
  destruct (decide (inBounds b (r, c))) as [Hrc|Hrc].
  2:{ unfold startGame.
      by rewrite (proj2 (outOfRange_true b r c) Hrc). }
  pose proof (startGame_spec now rs r c b Hrc) as H.
  destruct (candidateCells_spec rs r c b Hrc) as (Hnd & Hin & _).
  destruct (startGame now rs r c b) as [b'|e b'|]; simpl in *;
    [| | contradiction].
  - destruct H as (_ & b2 & -> & HS).
    destruct (Settled_Inv _ _ _ HS) as [HI _].
    + by apply NoDup_take_of.
    + intros p Hp. apply Hin. by apply (subseteq_take _ _ _ Hp).
    + destruct (Settled_frame _ _ _ HS) as (_ & _ & _ & _ & _ & Hcnt & _).
      split; [exact HI |]. simpl. rewrite Hcnt. lia.
  - destruct H as (_ & _ & HS).
    destruct (Settled_Inv _ _ _ HS Hnd) as [HI _].
    + intros p Hp. by apply Hin.
    + destruct (Settled_frame _ _ _ HS) as (_ & _ & _ & _ & _ & Hcnt & _).
      split; [exact HI |]. rewrite Hcnt. lia.
Qed.

Lemma RInv_openCell now r c b :
  RInv b -> RInv (boardAfter (openCell now r c b) b).
Proof.
  intros [HI HQ].
  destruct (openCell_cases now r c b HI)
    as [ | | |b' Hover Hwon ? ? ? Hs Hover' Hwon' Hcnt ?
           |b' ? ? ? ? ? Hs Hover' Hwon' ?]; simpl; try by split.
  - destruct (steps_frame _ _ _ Hs) as (Hr & Hc & Hm & _).
    split; [by eapply steps_Inv |].
    rewrite Hcnt, Hr, Hc, Hm. intros Ha Hb.
    rewrite (HQ Ha Hb) in Hwon. discriminate.
  - split; [by eapply steps_Inv |].
    intros Ha _. rewrite Hwon'. by apply Z.eqb_eq.
Qed.

Lemma RInv_toggleFlag r c b :
  RInv b -> RInv (boardAfter (toggleFlag r c b) b).
Proof.
  intros [HI HQ]. pose proof HI as (Hg & _).
  destruct (toggleFlag_cases r c b Hg)
    as [ | |cell ? ? ? Hcell Hop]; simpl; try by split.
  split; [by apply (Inv_toggle r c b cell) |]. exact HQ.
Qed.

Lemma RInv_perform op b : RInv b -> RInv (boardAfter (perform op b) b).
Proof.
  destruct op; simpl.
  - intros _. apply RInv_reset.
  - apply RInv_startGame.
  - apply RInv_openCell.
  - apply RInv_toggleFlag.
Qed.

Lemma run_snoc ops op b :
  run (ops ++ [op]) b = boardAfter (perform op (run ops b)) (run ops b).
Proof. unfold run. by rewrite fold_left_app. Qed.

Lemma Reachable_RInv b : Reachable b -> RInv b.
Proof.
  intros (d & ops & ->).
  induction ops as [|op ops IH] using rev_ind.
  - apply (RInv_reset _).
  - rewrite run_snoc. by apply RInv_perform.
Qed.

Lemma Reachable_perform op b :
  Reachable b -> Reachable (boardAfter (perform op b) b).
Proof.
  intros (d & ops & ->). exists d, (ops ++ [op]). by rewrite run_snoc.
Qed.

End ReachableBoards.

(* ================================================================= *)
(** * Boards that carry their configured number of mines *)

Section MinesPlaced.

Implicit Types (b : Board) (p q : Z * Z).

Lemma count_three {A} (f g h : A -> bool) (l : list A) :
  (forall x, x ∈ l ->
     (f x, g x, h x) = (true, false, false)
     \/ (f x, g x, h x) = (false, true, false)
     \/ (f x, g x, h x) = (false, false, true)) ->
  (length (filter (fun x => f x = true) l)
   + length (filter (fun x => g x = true) l)
   + length (filter (fun x => h x = true) l))%nat = length l.
Proof.
  induction l as [|x l IH]; intros H; [reflexivity |].
  rewrite !filter_cons.
  assert (IH' := IH (fun y Hy => H y (list_elem_of_further _ _ _ Hy))).
  assert (Hx : x ∈ x :: l) by left.
  destruct (H x Hx) as [E|[E|E]]; injection E as E1 E2 E3;
    rewrite E1, E2, E3; simpl; lia.
Qed.

(** Every cell is mined, or safe and opened, or safe and closed. *)
Lemma countCells_partition b :
  GridOk b ->
  (countCells isMine b + countCells openedSafe b
   + countCells unopenedSafe b)%nat
  = (Z.to_nat (rows b) * Z.to_nat (cols b))%nat.
Proof.
  intros Hg. rewrite <- length_positions. unfold countCells.
  apply count_three. intros p Hp. apply elem_of_positions in Hp.
  destruct p as [r c].
  destruct (proj2 (getCell_inBounds b r c Hg) Hp) as [cell Hcell].
  unfold cellIs, openedSafe, unopenedSafe; simpl. rewrite Hcell.
  destruct (isMine (state cell)), (isOpened (state cell)); simpl; auto.
Qed.

(** With the configured number of mines on the board, the counter
    measures how many safe cells are still closed. *)
Lemma Consistent_of_mines b :
  Inv b -> Z.of_nat (countCells isMine b) = mines b ->
  0 <= rows b -> 0 <= cols b -> Consistent b.
Proof.
  intros HI Hm Hr Hc. split; [exact HI |].
  destruct HI as (Hg & _ & Hcnt & _).
  pose proof (countCells_partition b Hg) as H.
  rewrite Hcnt.
  assert (E : rows b * cols b
              = Z.of_nat (Z.to_nat (rows b) * Z.to_nat (cols b)))
    by (rewrite Nat2Z.inj_mul, !Z2Nat.id by assumption; reflexivity).
  rewrite E, <- H. lia.
Qed.

(** While the game is on, the opened cells are the opened safe
    cells. *)
Lemma countCells_opened_safe b :
  Inv b -> isGameOver b = false ->
  countCells isOpened b = countCells openedSafe b.
Proof.
  intros (_ & _ & _ & Hmo & _) Hover. apply countCells_ext; auto.
  intros p _. specialize (Hmo Hover p). unfold cellIs, openedSafe in *.
  destruct (getCell b p.1 p.2) as [cell|]; [| reflexivity].
  destruct (isMine (state cell)); [| by rewrite andb_true_r].
  rewrite andb_false_r. by apply Hmo.
Qed.

Lemma Inv_cellIs_inBounds P b p :
  Inv b -> cellIs P b p = true -> inBounds b p.
Proof.
  intros (Hg & _) H. unfold cellIs in H. destruct p as [r c].
  simpl in H. apply (getCell_inBounds b r c Hg).
  destruct (getCell b r c) as [cell|]; [by exists cell | discriminate].
Qed.

End MinesPlaced.

(* ================================================================= *)
(** * The claims *)



(** Before [startGame] the board has no mines while [mines] counts
    the configured ones, and the win test can stop the flood fill
    early: on the constructed board of 1 x 4 cells with two mines
    configured, [openCell(0, 1)] opens two cells and declares the game
    won, and the cell (0, 2) of the region stays closed.  This is why
    the theorem on the flood fill asks for the mines to be placed. *)
Example openCell_before_startGame_cut_short :
  let b := newBoard (Difficulty.make "Line" 1 4 2) in
  exists b',
    openCell 0 0 1 b = Ok b'
    /\ isGameWon b' = true
    /\ cellIs isOpened b' (0, 2) = false
    /\ Region b (0, 1) (0, 2).
Proof.
  eexists. split; [vm_compute; reflexivity |].
  split; [reflexivity |]. split; [reflexivity |].
  change (0, 2) with (shift (0, 1) (0, 1)).
  apply region_next.
  - apply region_start.
  - reflexivity.
  - unfold directions. do 4 right. left.
  - split; [unfold inBounds; simpl; lia |]. by repeat split.
Qed.


(* ================================================================= *)
(** * startGame: where the mines go, and when there is room *)

Section StartGame.

Implicit Types (b : Board) (rs : Rand).

(** The candidate list has all cells but the start cell and the
    excluded neighbours. *)
Lemma candidate_count rs r c b :
  inBounds b (r, c) ->
  Z.of_nat (length (candidateCells rs r c b))
  = rows b * cols b - 1 - Z.of_nat (excludedNeighbours rs r c b).
Proof.
  intros Hrc.
  destruct (candidateCells_spec rs r c b Hrc) as (_ & _ & Hlen).
  destruct Hrc as [Hr Hc]; simpl in Hr, Hc.
  assert (E : rows b * cols b
              = Z.of_nat (Z.to_nat (rows b) * Z.to_nat (cols b)))
    by (rewrite Nat2Z.inj_mul, !Z2Nat.id by lia; reflexivity).
  rewrite E, <- Hlen. lia.
Qed.

Lemma startGame_ok now rs r c b :
  inBounds b (r, c) ->
  mines b <= rows b * cols b - 1 - Z.of_nat (excludedNeighbours rs r c b) ->
  exists b2,
    startGame now rs r c b = Ok (set_startTime (Some now) b2)
    /\ Settled (take (Z.to_nat (mines b)) (candidateCells rs r c b)) b b2.
Proof.
  intros Hrc Hm. pose proof (startGame_spec now rs r c b Hrc) as H.
  pose proof (candidate_count rs r c b Hrc) as Hlen.
  cbv zeta in H.
  destruct (startGame now rs r c b) as [b'|e b'|]; [| | contradiction].
  - destruct H as (_ & b2 & -> & HS). by exists b2.
  - destruct H as (_ & Hlt & _). lia.
Qed.

Lemma startGame_fails now rs r c b :
  inBounds b (r, c) ->
  rows b * cols b - 1 - Z.of_nat (excludedNeighbours rs r c b) < mines b ->
  exists b', startGame now rs r c b = Throw TypeError b'.
Proof.
  intros Hrc Hm. pose proof (startGame_spec now rs r c b Hrc) as H.
  pose proof (candidate_count rs r c b Hrc) as Hlen.
  cbv zeta in H.
  destruct (startGame now rs r c b) as [b'|e b'|]; [| | contradiction].
  - destruct H as (Hle & _). lia.
  - destruct H as (-> & _). by exists b'.
Qed.

(** The board [startGame] returns: what was laid, and where. *)
Lemma startGame_result rs r c b b2 :
  inBounds b (r, c) -> 0 <= mines b ->
  mines b <= rows b * cols b - 1 - Z.of_nat (excludedNeighbours rs r c b) ->
  Settled (take (Z.to_nat (mines b)) (candidateCells rs r c b)) b b2 ->
  cellIs isMine b2 (r, c) = false
  /\ Z.of_nat (countCells isMine b2) = mines b.
Proof.
  intros Hrc H0 Hm HS.
  destruct (candidateCells_spec rs r c b Hrc) as (Hnd & Hin & _).
  pose proof (candidate_count rs r c b Hrc) as Hlen.
  split.
  - destruct (Settled_cellIs _ _ _ (r, c) HS Hrc) as (-> & _).
    apply bool_decide_eq_false_2. intros Hp.
    apply (subseteq_take _ _ _) in Hp. by destruct (Hin _ Hp).
  - assert (Hcount : countCells isMine b2
                     = length (take (Z.to_nat (mines b))
                                 (candidateCells rs r c b))).
    { apply (Settled_Inv _ b); [exact HS | by apply NoDup_take_of |].
      intros p Hp. apply Hin. by apply (subseteq_take _ _ _ Hp). }
    rewrite Hcount, length_take. lia.
Qed.

(** Whenever [startGame] returns, the start cell is not mined and
    the configured number of mines is on the board. *)
Lemma startGame_returns_placed now rs r c b b' :
  startGame now rs r c b = Ok b' -> 0 <= mines b ->
  inBounds b (r, c)
  /\ cellIs isMine b' (r, c) = false
  /\ Z.of_nat (countCells isMine b') = mines b.
Proof.
  intros E H0.
  assert (Hrc : inBounds b (r, c)).
  { apply outOfRange_false. unfold startGame in E.
    by destruct (outOfRange b r c). }
  split; [exact Hrc |].
  destruct (Z.le_gt_cases (mines b)
              (rows b * cols b - 1
               - Z.of_nat (excludedNeighbours rs r c b))) as [Hm|Hm].
  - destruct (startGame_ok now rs r c b Hrc Hm) as (b2 & E2 & HS).
    rewrite E in E2. injection E2 as ->.
    exact (startGame_result rs r c b b2 Hrc H0 Hm HS).
  - destruct (startGame_fails now rs r c b Hrc Hm) as [b'' E2].
    congruence.
Qed.

End StartGame.

(** C1 as stated fails: on the valid board of 1 x 2 cells with one
    mine, [startGame(0, 0)] excludes both cells, throws a TypeError and
    leaves no mined cell, where the configured count is 1. *)
Lemma C1_counterexample :
  ~ (forall (d : Difficulty.t) (now : Z) (rs : Rand) (r c : Z),
       1 <= Difficulty.rows d -> 1 <= Difficulty.cols d ->
       0 <= Difficulty.mines d < Difficulty.rows d * Difficulty.cols d ->
       inBounds (newBoard d) (r, c) ->
       let b' := boardAfter (startGame now rs r c (newBoard d)) (newBoard d) in
       cellIs isMine b' (r, c) = false
       /\ Z.of_nat (countCells isMine b') = Difficulty.mines d).
Proof.
  intros H.
  destruct (H pair 0 [] 0 0) as [_ E].
  - simpl. lia.
  - simpl. lia.
  - simpl. lia.
  - unfold inBounds. simpl. lia.
  - vm_compute in E. discriminate E.
Qed.

(** C1 (amended): when the configured number of mines is at most
    [rows * cols - 1 - k], with [k] the number of neighbours of the
    start cell that the placement excludes (at most 8), [startGame] on
    an in-bounds cell returns, the start cell is not mined and exactly
    [mines] cells are mined. *)
Theorem C1_start_cell_safe_and_mine_count (b : Board) (now : Z) (rs : Rand)
    (r c : Z) :
  inBounds b (r, c) ->
  0 <= mines b ->
  mines b <= rows b * cols b - 1 - Z.of_nat (excludedNeighbours rs r c b) ->
  exists b',
    startGame now rs r c b = Ok b'
    /\ cellIs isMine b' (r, c) = false
    /\ Z.of_nat (countCells isMine b') = mines b'
    /\ mines b' = mines b.
Proof.
  intros Hrc H0 Hm.
  destruct (startGame_ok now rs r c b Hrc Hm) as (b2 & E & HS).
  destruct (startGame_result rs r c b b2 Hrc H0 Hm HS) as [H1 H2].
  destruct (Settled_frame _ _ _ HS) as (_ & _ & Hmines & _).
  exists (set_startTime (Some now) b2). split; [exact E |].
  split; [exact H1 |]. split; [| exact Hmines].
  change (Z.of_nat (countCells isMine b2) = mines b2). congruence.
Qed.

Lemma C1_start_cell_safe_and_mine_count_witness :
  exists b',
    startGame 0 [] 0 0 (newBoard tiny) = Ok b'
    /\ cellIs isMine b' (0, 0) = false
    /\ Z.of_nat (countCells isMine b') = mines b'
    /\ mines b' = mines (newBoard tiny).
Proof.
  apply (C1_start_cell_safe_and_mine_count (newBoard tiny) 0 [] 0 0).
  - unfold inBounds. simpl. lia.
  - simpl. lia.
  - vm_compute. discriminate.
Defined.

(** C6 as stated fails: on the board of 2 x 2 cells with three mines
    (3 < 4), the start cell and at least one neighbour are excluded,
    two cells at most are left for three mines, and the placement
    throws a TypeError. *)
Lemma C6_counterexample :
  ~ (forall (d : Difficulty.t) (now : Z) (rs : Rand) (r c : Z),
       1 <= Difficulty.rows d -> 1 <= Difficulty.cols d ->
       0 <= Difficulty.mines d < Difficulty.rows d * Difficulty.cols d ->
       inBounds (newBoard d) (r, c) ->
       exists b', startGame now rs r c (newBoard d) = Ok b').
Proof.
  intros H.
  destruct (H (Difficulty.make "Square" 2 2 3) 0 [] 0 0) as [b' E].
  - simpl. lia.
  - simpl. lia.
  - simpl. lia.
  - unfold inBounds. simpl. lia.
  - vm_compute in E. discriminate E.
Qed.

(** C6 (amended): the placement of [startGame] on an in-bounds cell
    excludes the start cell and [k] of its neighbours, with [k] at most
    the number of neighbours, hence at most 8 and 0 when the cell has
    none, and at least 1 when the cell has a neighbour; it succeeds
    exactly when [mines <= rows * cols - 1 - k], hence always when
    [mines + 9 <= rows * cols], and throws a TypeError otherwise. *)
Theorem C6_placement_succeeds_iff (b : Board) (now : Z) (rs : Rand)
    (r c : Z) :
  inBounds b (r, c) ->
  let k := excludedNeighbours rs r c b in
  (k <= length (getAdjacentCells b r c))%nat
  /\ (k <= 8)%nat
  /\ (getAdjacentCells b r c = [] -> k = 0%nat)
  /\ (getAdjacentCells b r c <> [] -> (1 <= k)%nat)
  /\ ((exists b', startGame now rs r c b = Ok b')
      <-> mines b <= rows b * cols b - 1 - Z.of_nat k)
  /\ (mines b + 9 <= rows b * cols b ->
      exists b', startGame now rs r c b = Ok b')
  /\ (rows b * cols b - 1 - Z.of_nat k < mines b ->
      exists b', startGame now rs r c b = Throw TypeError b').
Proof.
  intros Hrc k.
  destruct (excludedCells_spec rs r c b Hrc) as (_ & _ & _ & Hk & Hk1).
  pose proof (length_getAdjacentCells b r c) as H8.
  fold k in Hk, Hk1.
  assert (Hok : mines b <= rows b * cols b - 1 - Z.of_nat k ->
                exists b', startGame now rs r c b = Ok b').
  { intros Hm. destruct (startGame_ok now rs r c b Hrc Hm) as (b2 & E & _).
    eauto. }
  split; [exact Hk |]. split; [lia |].
  split; [intros Hnil; rewrite Hnil in Hk; simpl in Hk; lia |].
  split; [exact Hk1 |]. split; [split |]; [| exact Hok |].
  - intros [b' E].
    destruct (Z.le_gt_cases (mines b) (rows b * cols b - 1 - Z.of_nat k))
      as [Hle|Hgt]; [exact Hle |].
    destruct (startGame_fails now rs r c b Hrc Hgt) as [b'' E'].
    congruence.
  - split; [intros Hm; apply Hok; lia |].
    apply (startGame_fails now rs r c b Hrc).
Qed.

Lemma C6_placement_succeeds_iff_witness :
  let b := newBoard Difficulty.BEGINNER in
  let k := excludedNeighbours [3; 1; 4; 1; 5]%nat 3 3 b in
  (k <= length (getAdjacentCells b 3 3))%nat
  /\ (k <= 8)%nat
  /\ (getAdjacentCells b 3 3 = [] -> k = 0%nat)
  /\ (getAdjacentCells b 3 3 <> [] -> (1 <= k)%nat)
  /\ ((exists b', startGame 0 [3; 1; 4; 1; 5]%nat 3 3 b = Ok b')
      <-> mines b <= rows b * cols b - 1 - Z.of_nat k)
  /\ (mines b + 9 <= rows b * cols b ->
      exists b', startGame 0 [3; 1; 4; 1; 5]%nat 3 3 b = Ok b')
  /\ (rows b * cols b - 1 - Z.of_nat k < mines b ->
      exists b', startGame 0 [3; 1; 4; 1; 5]%nat 3 3 b = Throw TypeError b').
Proof.
  apply (C6_placement_succeeds_iff (newBoard Difficulty.BEGINNER) 0
           [3; 1; 4; 1; 5]%nat 3 3).
  unfold inBounds. simpl. lia.
Defined.

(* ================================================================= *)
(** * The entry points on integers and on NaN *)

Section Numbers.

Implicit Types (b : Board) (rs : Rand) (r c : Num).

(** ** On integers the entry points are the methods on integers *)

Lemma outOfRangeNum_Int b (r c : Z) :
  outOfRangeNum b (Int r) (Int c) = outOfRange b r c.
Proof. reflexivity. Qed.











(** ** What the range test lets through *)

Lemma outOfRangeNum_true b r c :
  outOfRangeNum b r c = true <-> outside r (rows b) \/ outside c (cols b).
Proof.
  unfold outOfRangeNum, outside, num_lt, num_ge.
  rewrite !orb_true_iff.
  destruct r as [r|], c as [c|]; rewrite ?Z.ltb_lt, ?Z.leb_le; split;
    intros H; repeat destruct H as [H|H]; try discriminate; try tauto;
    try lia.
Qed.

Lemma outOfRangeNum_false b r c :
  outOfRangeNum b r c = false -> ~ inBoundsNum b r c -> r = NaN \/ c = NaN.
Proof.
  destruct r as [r|], c as [c|]; auto. simpl. intros H Hn. exfalso.
  apply Hn. by apply outOfRange_false.
Qed.

(** ** The placement when a coordinate is NaN *)






(** ** The moves when a coordinate is NaN *)

Lemma openCellNum_NaN now b r c :
  r = NaN \/ c = NaN ->
  openCellNum now r c b
  = if isGameOver b || isGameWon b then Ok b
    else if outOfRangeNum b r c then Throw RangeError b
    else Throw TypeError b.
Proof. intros [->| ->]; [reflexivity | by destruct r]. Qed.

Lemma toggleFlagNum_NaN b r c :
  r = NaN \/ c = NaN ->
  toggleFlagNum r c b
  = if outOfRangeNum b r c then Throw RangeError b
    else if isGameOver b || isGameWon b then Ok b
    else Throw TypeError b.
Proof. intros [->| ->]; [reflexivity | by destruct r]. Qed.

End Numbers.

Section Transitions.

Implicit Types (b : Board) (op : Op).

(** No operation changes the configuration of the board. *)
Lemma perform_config op b :
  Reachable b ->
  let b' := boardAfter (perform op b) b in
  rows b' = rows b /\ cols b' = cols b /\ mines b' = mines b.
Proof.
  intros Hreach. destruct (Reachable_RInv b Hreach) as [HI _].
  pose proof HI as (Hg & _).
  destruct op as [|now rs r c|now r c|r c]; simpl.
  - auto.
  - destruct (decide (inBounds b (r, c))) as [Hrc|Hrc].
    + pose proof (startGame_spec now rs r c b Hrc) as H. cbv zeta in H.
      destruct (startGame now rs r c b) as [b'|e b'|]; simpl;
        [| | contradiction].
      * destruct H as (_ & b2 & -> & HS).
        destruct (Settled_frame _ _ _ HS) as (? & ? & ? & _). auto.
      * destruct H as (_ & _ & HS).
        destruct (Settled_frame _ _ _ HS) as (? & ? & ? & _). auto.
    + unfold startGame. rewrite (proj2 (outOfRange_true b r c) Hrc). auto.
  - pose proof (openCell_steps now r c b) as H.
    destruct (openCell now r c b) as [b'|e b'|]; simpl in *; auto;
      destruct (steps_frame _ _ _ H) as (? & ? & ? & _); auto.
  - destruct (toggleFlag_cases r c b Hg); simpl; auto.
Qed.

(** Once the game is lost no operation declares it won. *)
Lemma perform_lost op b :
  Reachable b -> isGameOver b = true ->
  isGameWon (boardAfter (perform op b) b) = false.
Proof.
  intros Hreach Hover. destruct (Reachable_RInv b Hreach) as [HI _].
  pose proof HI as (Hg & _ & _ & _ & H5).
  assert (Hwon : isGameWon b = false).
  { destruct (isGameWon b); [| reflexivity].
    destruct (H5 eq_refl). congruence. }
  destruct op as [|now rs r c|now r c|r c]; simpl.
  - reflexivity.
  - destruct (decide (inBounds b (r, c))) as [Hrc|Hrc].
    + pose proof (startGame_spec now rs r c b Hrc) as H. cbv zeta in H.
      destruct (startGame now rs r c b) as [b'|e b'|]; simpl;
        [| | contradiction].
      * destruct H as (_ & b2 & -> & HS).
        by destruct (Settled_frame _ _ _ HS) as (_&_&_&_&_&_&_&?&_).
      * destruct H as (_ & _ & HS).
        by destruct (Settled_frame _ _ _ HS) as (_&_&_&_&_&_&_&?&_).
    + unfold startGame. by rewrite (proj2 (outOfRange_true b r c) Hrc).
  - rewrite openCell_ended; [exact Hwon | by rewrite Hover].
  - destruct (toggleFlag_cases r c b Hg); simpl; auto.
Qed.

(** Opening cells and toggling flags leave the mines where they
    are: a board that carries its configured number of mines keeps
    it through the game. *)
Lemma perform_mines_kept op b :
  Reachable b ->
  match op with DoOpenCell _ _ _ | DoToggleFlag _ _ => True | _ => False end ->
  countCells isMine (boardAfter (perform op b) b) = countCells isMine b.
Proof.
  intros Hreach Hop. destruct (Reachable_RInv b Hreach) as [HI _].
  pose proof HI as (Hg & _).
  destruct op as [|now rs r c|now r c|r c]; simpl; try contradiction.
  - pose proof (openCell_steps now r c b) as H.
    destruct (openCell now r c b) as [b'|e b'|]; simpl in *; auto;
      destruct (steps_frame _ _ _ H) as (? & ? & _);
      apply countCells_ext; auto; intros p _; by apply (steps_isMine now).
  - destruct (toggleFlag_cases r c b Hg) as [| |cell ? ? ? Hcell Hopc];
      simpl; auto.
    apply countCells_ext; auto. intros p _.
    apply (cellIs_toggle isMine r c b p cell Hcell Hopc).
    intros s v Ho. unfold set_isFlagged. by rewrite Ho.
Qed.

End Transitions.

(** C2: on a board with fewer mines than cells, after every operation
    [isGameWon] is true exactly when [openedCells] equals
    [rows * cols - mines]; a won game is never a lost one, and no
    operation on a lost board sets [isGameWon]. *)
Theorem C2_won_exactly_at_count (b : Board) (op : Op) :
  Reachable b ->
  mines b < rows b * cols b ->
  let b' := boardAfter (perform op b) b in
  (isGameWon b' = true <-> openedCells b' = rows b' * cols b' - mines b')
  /\ (isGameWon b' = true -> isGameOver b' = false)
  /\ (isGameOver b = true -> isGameWon b' = false).
Proof.
  intros Hreach Hvalid b'.
  destruct (perform_config op b Hreach) as (Hr & Hc & Hm).
  fold b' in Hr, Hc, Hm.
  destruct (Reachable_RInv b' (Reachable_perform op b Hreach))
    as [(_ & _ & _ & _ & H5) HQ].
  split; [split |]; [| | split].
  - intros Hw. by destruct (H5 Hw).
  - intros E. apply HQ; [exact E |]. rewrite E, Hr, Hc, Hm. lia.
  - intros Hw. by destruct (H5 Hw).
  - by apply perform_lost.
Qed.

Lemma C2_won_exactly_at_count_witness :
  let b' := boardAfter (perform (DoOpenCell 1 0 0) tinyStarted) tinyStarted in
  (isGameWon b' = true <-> openedCells b' = rows b' * cols b' - mines b')
  /\ (isGameWon b' = true -> isGameOver b' = false)
  /\ (isGameOver tinyStarted = true -> isGameWon b' = false).
Proof.
  apply (C2_won_exactly_at_count tinyStarted (DoOpenCell 1 0 0)).
  - exists tiny, [DoStartGame 0 [] 0 0]. reflexivity.
  - vm_compute. reflexivity.
Defined.

(** C4 as stated fails: after the mine of the 1 x 3 board is opened
    the mine is shown opened, the counter is still 0 and one cell has
    [isOpened] true. *)
Lemma C4_counterexample :
  ~ (forall b : Board,
       Reachable b -> openedCells b = Z.of_nat (countCells isOpened b)).
Proof.
  intros H.
  assert (E : openedCells tinyLost = Z.of_nat (countCells isOpened tinyLost)).
  { apply H. exists tiny, [DoStartGame 0 [] 0 0; DoOpenCell 1 0 2].
    reflexivity. }
  vm_compute in E. discriminate E.
Qed.

(** C4 (amended): after every sequence of engine operations
    [openedCells] equals the number of cells that are opened and not
    mined; it equals the number of opened cells as long as no mine has
    been opened ([isGameOver] false). *)
Theorem C4_opened_count (b : Board) :
  Reachable b ->
  openedCells b = Z.of_nat (countCells openedSafe b)
  /\ (isGameOver b = false ->
      openedCells b = Z.of_nat (countCells isOpened b)).
Proof.
  intros Hreach. destruct (Reachable_RInv b Hreach) as [HI _].
  pose proof HI as (_ & _ & Hcnt & _).
  split; [exact Hcnt |]. intros Hover.
  by rewrite (countCells_opened_safe b HI Hover).
Qed.

Lemma C4_opened_count_witness :
  openedCells tinyLost = Z.of_nat (countCells openedSafe tinyLost)
  /\ (isGameOver tinyLost = false ->
      openedCells tinyLost = Z.of_nat (countCells isOpened tinyLost)).
Proof.
  apply (C4_opened_count tinyLost).
  exists tiny, [DoStartGame 0 [] 0 0; DoOpenCell 1 0 2]. reflexivity.
Defined.




(** C8: while the game is on, [openCell] on a mined cell returns with
    [isGameOver] true and every mined cell opened, and afterwards every
    call of [openCell], on any coordinate, returns the board
    unchanged. *)
Theorem C8_open_mine (b : Board) (now r c : Z) :
  Reachable b ->
  isGameOver b = false -> isGameWon b = false ->
  inBounds b (r, c) ->
  cellIs isMine b (r, c) = true ->
  exists b',
    openCell now r c b = Ok b'
    /\ isGameOver b' = true
    /\ (forall p, cellIs isMine b' p = true -> cellIs isOpened b' p = true)
    /\ (forall now' r' c', openCell now' r' c' b' = Ok b').
Proof.
  intros Hreach Hover Hwon Hrc Hmi.
  destruct (Reachable_RInv b Hreach) as [HI _].
  pose proof HI as (_ & Hml & _ & Hmo & _).
  destruct (openCell_cases now r c b HI)
    as [Hend|? ? Hno|? ? ? Hop'|b' _ _ _ _ _ Hs Hover' _ _ Hopened
       |b' ? ? ? ? Hmi' _ _ _ _].
  - rewrite Hover, Hwon in Hend. discriminate.
  - contradiction.
  - rewrite (Hmo Hover _ Hmi) in Hop'. discriminate.
  - exists b'. split; [reflexivity |]. split; [exact Hover' |]. split.
    + intros p Hp. apply Hopened, Hml.
      rewrite (steps_isMine now b b' p Hs) in Hp.
      split; [| exact Hp]. by apply (Inv_cellIs_inBounds isMine).
    + intros now' r' c'. apply openCell_ended. by rewrite Hover'.
  - congruence.
Qed.

Lemma C8_open_mine_witness :
  exists b',
    openCell 1 0 2 tinyStarted = Ok b'
    /\ isGameOver b' = true
    /\ (forall p, cellIs isMine b' p = true -> cellIs isOpened b' p = true)
    /\ (forall now' r' c', openCell now' r' c' b' = Ok b').
Proof.
  apply (C8_open_mine tinyStarted 1 0 2).
  - exists tiny, [DoStartGame 0 [] 0 0]. reflexivity.
  - reflexivity.
  - reflexivity.
  - unfold inBounds. simpl. lia.
  - reflexivity.
Defined.

(** C9: while the game is on, [openCell] on a flagged, closed cell that
    is not mined opens the cell and leaves [flags] as it was, the cell
    still flagged; no call of [openCell] on any board changes [flags],
    whereas [toggleFlag] on the same cell takes the flag away and
    lowers [flags] by one. *)
Theorem C9_open_flagged (b : Board) (now r c : Z) :
  Reachable b ->
  isGameOver b = false -> isGameWon b = false ->
  inBounds b (r, c) ->
  cellIs isFlagged b (r, c) = true ->
  cellIs isOpened b (r, c) = false ->
  cellIs isMine b (r, c) = false ->
  (exists b',
      openCell now r c b = Ok b'
      /\ cellIs isOpened b' (r, c) = true
      /\ cellIs isFlagged b' (r, c) = true
      /\ flags b' = flags b)
  /\ (forall b0 now' r' c',
         flags (boardAfter (openCell now' r' c' b0) b0) = flags b0)
  /\ (exists b'',
         toggleFlag r c b = Ok b''
         /\ cellIs isFlagged b'' (r, c) = false
         /\ flags b'' = flags b - 1).
Proof.
  intros Hreach Hover Hwon Hrc Hfl Hop Hmi.
  destruct (Reachable_RInv b Hreach) as [HI _].
  pose proof HI as (Hg & _).
  split; [| split].
  - destruct (openCell_cases now r c b HI)
      as [Hend|? ? Hno|? ? ? Hop'|b' ? ? ? ? Hmi' _ _ _ _ _
         |b' _ _ _ _ _ Hs _ _ [Hfl1 _]].
    + rewrite Hover, Hwon in Hend. discriminate.
    + contradiction.
    + congruence.
    + congruence.
    + exists b'. split; [reflexivity |]. split; [by apply Hfl1 |].
      split; [by rewrite (steps_isFlagged now b b' _ Hs) |].
      by destruct (steps_frame _ _ _ Hs) as (_ & _ & _ & _ & ? & _).
  - intros b0 now' r' c'.
    pose proof (openCell_steps now' r' c' b0) as H.
    destruct (openCell now' r' c' b0) as [b1|e b1|]; simpl in *; auto;
      by destruct (steps_frame _ _ _ H) as (_ & _ & _ & _ & ? & _).
  - destruct (toggleFlag_cases r c b Hg)
      as [Hno|_ [Hend|Hop']|cell _ _ _ Hcell Hopc].
    + contradiction.
    + rewrite Hover, Hwon in Hend. discriminate.
    + congruence.
    + eexists. split; [reflexivity |].
      destruct (getCell_Some_nonneg _ _ _ _ Hcell) as [Hr0 Hc0].
      unfold cellIs in Hfl; simpl in Hfl. rewrite Hcell in Hfl.
      rewrite Hfl. split; [| simpl; lia].
      change (cellIs isFlagged
                (updState (fun s => set_isFlagged (negb (isFlagged s)) s)
                   r c b) (r, c) = false).
      rewrite cellIs_updState, decide_True by done.
      unfold cellIs; simpl. rewrite Hcell.
      unfold set_isFlagged. rewrite Hopc. simpl. by rewrite Hfl.
Qed.

Lemma C9_open_flagged_witness :
  (exists b',
      openCell 1 0 1 tinyFlagged = Ok b'
      /\ cellIs isOpened b' (0, 1) = true
      /\ cellIs isFlagged b' (0, 1) = true
      /\ flags b' = flags tinyFlagged)
  /\ (forall b0 now' r' c',
         flags (boardAfter (openCell now' r' c' b0) b0) = flags b0)
  /\ (exists b'',
         toggleFlag 0 1 tinyFlagged = Ok b''
         /\ cellIs isFlagged b'' (0, 1) = false
         /\ flags b'' = flags tinyFlagged - 1).
Proof.
  apply (C9_open_flagged tinyFlagged 1 0 1).
  - exists tiny, [DoStartGame 0 [] 0 0; DoToggleFlag 0 1]. reflexivity.
  - reflexivity.
  - reflexivity.
  - unfold inBounds. simpl. lia.
  - reflexivity.
  - reflexivity.
  - reflexivity.
Defined.

(** C10 as stated fails: on the lost 1 x 3 board with one mine,
    [startGame(0, 1)] with both neighbours excluded leaves no cell for
    the mine and throws a TypeError. *)
Lemma C10_counterexample :
  ~ (forall (b : Board) (now : Z) (rs : Rand) (r c : Z),
       Reachable b -> isGameOver b || isGameWon b = true ->
       inBounds b (r, c) ->
       exists b',
         startGame now rs r c b = Ok b'
         /\ isGameOver b' = false /\ isGameWon b' = false
         /\ flags b' = 0 /\ openedCells b' = 0
         /\ Z.of_nat (countCells isMine b') = mines b').
Proof.
  intros H.
  destruct (H tinyLost 2 [0; 1]%nat 0 1) as (b' & E & _).
  - exists tiny, [DoStartGame 0 [] 0 0; DoOpenCell 1 0 2]. reflexivity.
  - reflexivity.
  - unfold inBounds. simpl. lia.
  - vm_compute in E. discriminate E.
Qed.

(** C10 (amended): on a board whose game has ended, [startGame] on an
    in-bounds cell returns when the configured number of mines is at
    most [rows * cols - 1 - k], with [k] the number of excluded
    neighbours of the start cell; the board is then that of a new
    game: not over and not won, both counters 0, the clock started and
    not stopped, every cell closed, unflagged and shown unopened, the
    start cell not mined and exactly [mines] cells mined; it is the
    board [startGame] gives on a newly constructed board of the same
    difficulty. *)
Theorem C10_restart_after_end (b : Board) (now : Z) (rs : Rand) (r c : Z) :
  isGameOver b || isGameWon b = true ->
  inBounds b (r, c) ->
  0 <= mines b ->
  mines b <= rows b * cols b - 1 - Z.of_nat (excludedNeighbours rs r c b) ->
  exists b',
    startGame now rs r c b = Ok b'
    /\ isGameOver b' = false /\ isGameWon b' = false
    /\ flags b' = 0 /\ openedCells b' = 0
    /\ startTime b' = Some now /\ endTime b' = None
    /\ (forall p, inBounds b p ->
          cellIs isOpened b' p = false
          /\ cellIs isFlagged b' p = false
          /\ cellIs (fun s => String.eqb (currentState s) UNOPENED) b' p
             = true)
    /\ cellIs isMine b' (r, c) = false
    /\ Z.of_nat (countCells isMine b') = mines b
    /\ startGame now rs r c b
       = startGame now rs r c
           (newBoard
              (Difficulty.make (difficulty b) (rows b) (cols b) (mines b))).
Proof.
  intros _ Hrc H0 Hm.
  destruct (startGame_ok now rs r c b Hrc Hm) as (b2 & E & HS).
  destruct (startGame_result rs r c b b2 Hrc H0 Hm HS) as [H1 H2].
  destruct (Settled_frame _ _ _ HS)
    as (_ & _ & _ & _ & Hflags & Hcnt & Hover & Hwon & _ & Hend).
  exists (set_startTime (Some now) b2).
  split; [exact E |]. repeat (split; [assumption || reflexivity |]).
  split; [| split; [exact H1 |]; split; [exact H2 |]].
  - intros p Hp.
    destruct (Settled_cellIs _ _ _ p HS Hp) as (_ & Ho & Hf & Hcur). auto.
  - unfold startGame.
    change (outOfRange (newBoard _) r c) with (outOfRange b r c).
    by rewrite (proj2 (outOfRange_false b r c) Hrc).
Qed.

Lemma C10_restart_after_end_witness :
  exists b',
    startGame 2 [] 0 0 tinyLost = Ok b'
    /\ isGameOver b' = false /\ isGameWon b' = false
    /\ flags b' = 0 /\ openedCells b' = 0
    /\ startTime b' = Some 2 /\ endTime b' = None
    /\ (forall p, inBounds tinyLost p ->
          cellIs isOpened b' p = false
          /\ cellIs isFlagged b' p = false
          /\ cellIs (fun s => String.eqb (currentState s) UNOPENED) b' p
             = true)
    /\ cellIs isMine b' (0, 0) = false
    /\ Z.of_nat (countCells isMine b') = mines tinyLost
    /\ startGame 2 [] 0 0 tinyLost
       = startGame 2 [] 0 0
           (newBoard
              (Difficulty.make (difficulty tinyLost) (rows tinyLost)
                 (cols tinyLost) (mines tinyLost))).
Proof.
  apply (C10_restart_after_end tinyLost 2 [] 0 0).
  - reflexivity.
  - unfold inBounds. simpl. lia.
  - vm_compute. discriminate.
  - vm_compute. discriminate.
Defined.

(* ================================================================= *)
(** * Further invariants: flags, cached display, clock, mine list *)

Section MoreInvariants.

Implicit Types (b : Board) (p q : Z * Z) (rs : Rand).

Lemma AllCellsOk_updState f r c b :
  (forall s, cached s -> cached (f s)) ->
  AllCellsOk b -> AllCellsOk (updState f r c b).
Proof.
  intros Hf Hall r' c' cell' Hc'.
  destruct (decide (0 <= r /\ 0 <= c)) as [[Hr Hc]|Hneg].
  - rewrite getCell_updState in Hc' by assumption.
    destruct (decide ((r', c') = (r, c))) as [E|N]; [| by apply Hall].
    inversion E; subst r' c'.
    destruct (getCell b r c) as [cell|] eqn:Hcell; [| discriminate].
    simpl in Hc'. injection Hc' as <-.
    destruct (Hall r c cell Hcell) as (H1 & H2 & H3).
    split; [by apply Hf | by split].
  - (* a negative index: the update lands on line or column 0 *)
    unfold getCell, updState in Hc'; simpl in Hc'.
    destruct ((0 <=? r') && (0 <=? c')) eqn:Hs; [| discriminate].
    apply andb_true_iff in Hs as [Hr' Hc'0].
    destruct (decide (Z.to_nat r = Z.to_nat r')) as [Er|Nr].
    + rewrite Er, list_lookup_alter_eq in Hc'.
      destruct (cells b !! Z.to_nat r') as [line|] eqn:Hline;
        [| discriminate].
      simpl in Hc'.
      destruct (decide (Z.to_nat c = Z.to_nat c')) as [Ec|Nc].
      * rewrite Ec, list_lookup_alter_eq in Hc'.
        destruct (line !! Z.to_nat c') as [cell|] eqn:Hcell;
          [| discriminate].
        simpl in Hc'. injection Hc' as <-.
        destruct (Hall r' c' cell) as (H1 & H2 & H3).
        { unfold getCell. rewrite Hr', Hc'0. simpl. by rewrite Hline. }
        split; [by apply Hf | by split].
      * rewrite list_lookup_alter_ne in Hc' by done.
        apply Hall. unfold getCell. rewrite Hr', Hc'0. simpl.
        by rewrite Hline.
    + rewrite list_lookup_alter_ne in Hc' by done.
      apply Hall. unfold getCell. by rewrite Hr', Hc'0.
Qed.

Lemma AllCellsOk_reset b : AllCellsOk (reset b).
Proof.
  intros r c cell Hc.
  assert (Hin : inBounds (reset b) (r, c)).
  { apply (getCell_inBounds _ _ _ (GridOk_reset b)). by exists cell. }
  rewrite (getCell_reset b r c Hin) in Hc. injection Hc as <-.
  split; [apply cached_new | by split].
Qed.

Lemma step_Inv2 now b b' : openStep now b b' -> Inv2 b -> Inv2 b'.
Proof.
  intros Hstep (Hfl & Hcells & Hend & Hnd).
  pose proof (rtc_once _ _ Hstep) as Hs.
  destruct (steps_frame _ _ _ Hs) as (Hr & Hc & _ & Hml & Hflags & _).
  split; [| split; [| split]].
  - rewrite Hflags, Hfl. f_equal. symmetry.
    apply countCells_ext; auto. intros p _.
    by apply (steps_isFlagged now).
  - intros r c cell Hcell.
    destruct (step_cell now b b' r c Hstep) as [E|E]; rewrite E in Hcell;
      [by apply Hcells |].
    destruct (getCell b r c) as [cell0|] eqn:Hc0; [| discriminate].
    simpl in Hcell. injection Hcell as <-.
    destruct (Hcells r c cell0 Hc0) as (H1 & H2 & H3).
    split; [by apply cached_set_isOpened_true | by split].
  - destruct Hstep as [b ? ? ? Ho|b Ho|b ? ? ? Ho|b ? ? Ho]; simpl;
      try exact Hend.
    split; discriminate.
  - by rewrite Hml.
Qed.

Lemma steps_Inv2 now b b' : rtc (openStep now) b b' -> Inv2 b -> Inv2 b'.
Proof. induction 1; eauto using step_Inv2. Qed.

Lemma Inv2_toggle r c b cell :
  GridOk b -> inBounds b (r, c) ->
  getCell b r c = Some cell -> isOpened (state cell) = false ->
  Inv2 b ->
  Inv2 (set_flags (flags b + if isFlagged (state cell) then -1 else 1)
          (updState (fun s => set_isFlagged (negb (isFlagged s)) s) r c b)).
Proof.
  intros Hg Hrc Hcell Hop (Hfl & Hcells & Hend & Hnd).
  destruct (getCell_Some_nonneg _ _ _ _ Hcell) as [Hr0 Hc0].
  set (b1 := updState (fun s => set_isFlagged (negb (isFlagged s)) s) r c b).
  assert (Hat : cellIs isFlagged b1 (r, c) = negb (isFlagged (state cell))).
  { unfold b1. rewrite cellIs_updState, decide_True by done.
    unfold cellIs; simpl. rewrite Hcell. unfold set_isFlagged.
    by rewrite Hop. }
  assert (Hother : forall q, inBounds b q -> q <> (r, c) ->
                     cellIs isFlagged b1 q = cellIs isFlagged b q).
  { intros q _ Hq. unfold b1.
    by rewrite cellIs_updState, decide_False by done. }
  assert (Hwas : cellIs isFlagged b (r, c) = isFlagged (state cell))
    by (unfold cellIs; simpl; by rewrite Hcell).
  split; [| split; [| split]]; [| | exact Hend | exact Hnd].
  - simpl. change (countCells isFlagged (set_flags _ b1))
      with (countCells isFlagged b1).
    destruct (isFlagged (state cell)) eqn:Hf; simpl in Hat.
    + rewrite (countCells_drop isFlagged b b1 (r, c)) in Hfl; auto. lia.
    + rewrite (countCells_flip isFlagged b b1 (r, c)); auto. lia.
  - apply (AllCellsOk_updState _ r c b); [| exact Hcells].
    intros s Hs. by apply cached_set_isFlagged.
Qed.

(** The placement keeps the cells in order, however it ends. *)
Lemma placeMines_cells rs r c b :
  AllCellsOk b -> resAll AllCellsOk (placeMines rs r c b).
Proof.
  intros Hall. unfold placeMines.
  apply (resAll_bind AllCellsOk); [| auto |].
  - apply forEach_inv; [| exact Hall].
    intros i bi _ Hi. unfold placeMine.
    destruct (_ !! i) as [[mr mc]|]; [| exact Hi].
    unfold withCell. destruct (getCell bi mr mc); [| exact Hi].
    apply (AllCellsOk_updState _ mr mc bi); [| exact Hi].
    intros s _. apply cached_set_isMine.
  - intros b1 H1. unfold calculateAdjacentMines.
    apply forEach_inv; [| exact H1].
    intros m bi _ Hi. apply forEach_inv; [| exact Hi].
    intros d bj _ Hj. cbv zeta.
    destruct (_ || _); [exact Hj |]. destruct (_ || _); [exact Hj |].
    unfold withCell. destruct (getCell bj _ _) as [cell|]; [| exact Hj].
    destruct (isMine (state cell)); [exact Hj |].
    apply (AllCellsOk_updState _ _ _ bj); [| exact Hj].
    intros s Hs. by apply cached_set_adjacentMines.
Qed.

Lemma Inv2_reset b : Inv2 (reset b).
Proof.
  split; [| split; [apply AllCellsOk_reset | split; [done | constructor]]].
  simpl. rewrite countCells_none; [reflexivity |].
  intros p Hp. destruct p as [r c]. unfold cellIs; simpl.
  by rewrite (getCell_reset b r c Hp).
Qed.

Lemma Inv2_startGame now rs r c b :
  Inv2 b -> Inv2 (boardAfter (startGame now rs r c b) b).
Proof.
  intros HI.
  destruct (decide (inBounds b (r, c))) as [Hrc|Hrc].
  2:{ unfold startGame. by rewrite (proj2 (outOfRange_true b r c) Hrc). }
  pose proof (startGame_spec now rs r c b Hrc) as H. cbv zeta in H.
  destruct (candidateCells_spec rs r c b Hrc) as (Hnd & Hin & _).
  assert (Hcells : resAll AllCellsOk (startGame now rs r c b)).
  { unfold startGame. rewrite (proj2 (outOfRange_false b r c) Hrc).
    apply (resAll_bind AllCellsOk); auto.
    apply placeMines_cells, AllCellsOk_reset. }
  assert (G : forall ml b2, Settled ml b b2 -> NoDup ml -> AllCellsOk b2 ->
                            Inv2 b2).
  { intros ml b2 HS Hml Hall.
    destruct (Settled_frame _ _ _ HS)
      as (_ & _ & _ & _ & Hflags & _ & Hover & _ & _ & Hend).
    split; [| split; [exact Hall | split]].
    - rewrite Hflags, countCells_none; [reflexivity |].
      intros p Hp. apply (Settled_inBounds _ _ _ p HS) in Hp.
      by destruct (Settled_cellIs _ _ _ p HS Hp) as (_ & _ & ? & _).
    - by rewrite Hend, Hover.
    - destruct HS as (_ & -> & _). exact Hml. }
  destruct (startGame now rs r c b) as [b'|e b'|]; simpl in *;
    [| | contradiction].
  - destruct H as (_ & b2 & -> & HS).
    apply (G _ b2 HS); [by apply NoDup_take_of | exact Hcells].
  - destruct H as (_ & _ & HS). by apply (G _ b' HS).
Qed.

Lemma Inv2_perform op b :
  RInv b -> Inv2 b -> Inv2 (boardAfter (perform op b) b).
Proof.
  intros [HI _] H2. pose proof HI as (Hg & _).
  destruct op as [|now rs r c|now r c|r c]; simpl.
  - apply Inv2_reset.
  - by apply Inv2_startGame.
  - pose proof (openCell_steps now r c b) as H.
    destruct (openCell now r c b) as [b'|e b'|]; simpl in *; auto;
      by apply (steps_Inv2 now b b').
  - destruct (toggleFlag_cases r c b Hg) as [| |cell]; simpl; auto.
    by apply Inv2_toggle.
Qed.

Lemma MinesShown_perform op b :
  RInv b -> MinesShown b -> MinesShown (boardAfter (perform op b) b).
Proof.
  intros [HI _] HM. pose proof HI as (Hg & Hml & _).
  destruct op as [|now rs r c|now r c|r c]; simpl.
  - intros Ho. discriminate.
  - destruct (decide (inBounds b (r, c))) as [Hrc|Hrc].
    + pose proof (startGame_spec now rs r c b Hrc) as H. cbv zeta in H.
      destruct (startGame now rs r c b) as [b'|e b'|]; simpl;
        [| | contradiction].
      * destruct H as (_ & b2 & -> & HS). intros Ho. simpl in Ho.
        destruct (Settled_frame _ _ _ HS) as (_&_&_&_&_&_&?&_). congruence.
      * destruct H as (_ & _ & HS). intros Ho.
        destruct (Settled_frame _ _ _ HS) as (_&_&_&_&_&_&?&_). congruence.
    + unfold startGame. by rewrite (proj2 (outOfRange_true b r c) Hrc).
  - destruct (openCell_cases now r c b HI)
      as [ | | |b' _ _ _ _ _ Hs _ _ _ Hopened|b' _ _ _ _ _ _ Ho' _ _];
      simpl; auto.
    + intros _ p Hp. apply Hopened, Hml.
      rewrite (steps_isMine now b b' p Hs) in Hp.
      split; [| exact Hp]. by apply (Inv_cellIs_inBounds isMine).
    + intros Ho. congruence.
  - destruct (toggleFlag_cases r c b Hg) as [| |cell ? Ho]; simpl; auto.
    intros Ho'. simpl in Ho'. congruence.
Qed.

Lemma Reachable_Inv2 b : Reachable b -> Inv2 b /\ MinesShown b.
Proof.
  intros (d & ops & ->).
  induction ops as [|op ops IH] using rev_ind.
  - split; [apply (Inv2_reset _) | intros Ho; discriminate].
  - rewrite run_snoc.
    assert (HR : RInv (run ops (newBoard d))).
    { apply Reachable_RInv. by exists d, ops. }
    destruct IH. split; [by apply Inv2_perform | by apply MinesShown_perform].
Qed.

End MoreInvariants.

(* ================================================================= *)
(** * Further properties of the engine *)

(** X3: on every board the engine can be in, [flags] is the number of
    cells whose [isFlagged] is true, opened cells included, so it is
    never negative and [#getRemainingMines] is [mines] less that
    number. *)
Theorem flags_count_flagged_cells (b : Board) :
  Reachable b ->
  flags b = Z.of_nat (countCells isFlagged b)
  /\ 0 <= flags b
  /\ getRemainingMines b = mines b - Z.of_nat (countCells isFlagged b).
Proof.
  intros Hreach. destruct (Reachable_Inv2 b Hreach) as [(Hfl & _) _].
  unfold getRemainingMines. rewrite Hfl. repeat split; lia.
Qed.

Lemma flags_count_flagged_cells_witness :
  flags tinyFlagged = Z.of_nat (countCells isFlagged tinyFlagged)
  /\ 0 <= flags tinyFlagged
  /\ getRemainingMines tinyFlagged
     = mines tinyFlagged - Z.of_nat (countCells isFlagged tinyFlagged).
Proof.
  apply (flags_count_flagged_cells tinyFlagged).
  exists tiny, [DoStartGame 0 [] 0 0; DoToggleFlag 0 1]. reflexivity.
Defined.

(** X4: on every board the engine can be in, every cell of the grid
    exists, carries its own coordinate, and shows the display value
    that belongs to its fields: the hidden value when opened, else the
    flag marker when flagged, else the unopened marker. *)
Theorem board_cells_display (b : Board) (p : Z * Z) :
  Reachable b -> inBounds b p ->
  exists cell,
    getCell b p.1 p.2 = Some cell
    /\ row cell = p.1 /\ col cell = p.2
    /\ currentState (state cell) = displayOf (cellTuple (state cell)).
Proof.
  intros Hreach Hp.
  destruct (Reachable_RInv b Hreach) as [(Hg & _) _].
  destruct (Reachable_Inv2 b Hreach) as [(_ & Hcells & _) _].
  destruct p as [r c].
  destruct (proj2 (getCell_inBounds b r c Hg) Hp) as [cell Hcell].
  destruct (Hcells r c cell Hcell) as ([Hcur _] & Hr & Hc).
  exists cell. auto.
Qed.

Lemma board_cells_display_witness :
  exists cell,
    getCell tinyFlagged 0 1 = Some cell
    /\ row cell = 0 /\ col cell = 1
    /\ currentState (state cell) = displayOf (cellTuple (state cell)).
Proof.
  apply (board_cells_display tinyFlagged (0, 1)).
  - exists tiny, [DoStartGame 0 [] 0 0; DoToggleFlag 0 1]. reflexivity.
  - unfold inBounds. simpl. lia.
Defined.

(** X9: the game time is 0 until [startGame] has returned; the clock
    is stopped exactly when the game is lost, the time shown then no
    longer depends on the current time; in every other state, a won
    game included, it is the whole seconds from the start to now. *)
Theorem game_time_stops_on_loss_only (b : Board) :
  Reachable b ->
  (startTime b = None -> forall now, gameTimeInSecond now b = 0)
  /\ (isGameOver b = true ->
      exists e, endTime b = Some e
                /\ forall now start, startTime b = Some start ->
                     gameTimeInSecond now b = (e - start) / 1000)
  /\ (isGameOver b = false ->
      forall now start, startTime b = Some start ->
        gameTimeInSecond now b = (now - start) / 1000).
Proof.
  intros Hreach. destruct (Reachable_Inv2 b Hreach) as [(_ & _ & Hend & _) _].
  unfold gameTimeInSecond. split; [| split].
  - intros ->. reflexivity.
  - intros Hover. destruct (endTime b) as [e|].
    + exists e. split; [reflexivity |]. by intros now start ->.
    + destruct Hend as [Hend _]. rewrite Hend in Hover; congruence.
  - intros Hover now start ->. apply Hend in Hover. by rewrite Hover.
Qed.

Lemma game_time_stops_on_loss_only_witness :
  (startTime tinyLost = None -> forall now, gameTimeInSecond now tinyLost = 0)
  /\ (isGameOver tinyLost = true ->
      exists e, endTime tinyLost = Some e
                /\ forall now start, startTime tinyLost = Some start ->
                     gameTimeInSecond now tinyLost = (e - start) / 1000)
  /\ (isGameOver tinyLost = false ->
      forall now start, startTime tinyLost = Some start ->
        gameTimeInSecond now tinyLost = (now - start) / 1000).
Proof.
  apply (game_time_stops_on_loss_only tinyLost).
  exists tiny, [DoStartGame 0 [] 0 0; DoOpenCell 1 0 2]. reflexivity.
Defined.

(** X10: on every board the engine can be in, the list of mines has no
    duplicates and lists exactly the mined cells of the grid. *)
Theorem mines_list_is_the_mined_cells (b : Board) :
  Reachable b ->
  NoDup (minesList b)
  /\ (forall p, p ∈ minesList b
                <-> inBounds b p /\ cellIs isMine b p = true)
  /\ length (minesList b) = countCells isMine b.
Proof.
  intros Hreach.
  destruct (Reachable_RInv b Hreach) as [(_ & Hml & _) _].
  destruct (Reachable_Inv2 b Hreach) as [(_ & _ & _ & Hnd) _].
  split; [exact Hnd |]. split; [exact Hml |].
  symmetry. unfold countCells. apply count_NoDup; auto.
  - apply NoDup_positions.
  - intros p. rewrite elem_of_positions. apply Hml.
Qed.

Lemma mines_list_is_the_mined_cells_witness :
  NoDup (minesList tinyStarted)
  /\ (forall p, p ∈ minesList tinyStarted
                <-> inBounds tinyStarted p
                    /\ cellIs isMine tinyStarted p = true)
  /\ length (minesList tinyStarted) = countCells isMine tinyStarted.
Proof.
  apply (mines_list_is_the_mined_cells tinyStarted).
  exists tiny, [DoStartGame 0 [] 0 0]. reflexivity.
Defined.

(** X8: on every board the engine can be in, a lost game is not won
    and shows all its mines: every mined cell is opened. *)
Theorem lost_game_shows_all_mines (b : Board) :
  Reachable b -> isGameOver b = true ->
  isGameWon b = false
  /\ forall p, cellIs isMine b p = true -> cellIs isOpened b p = true.
Proof.
  intros Hreach Hover.
  destruct (Reachable_RInv b Hreach) as [(_ & _ & _ & _ & H5) _].
  destruct (Reachable_Inv2 b Hreach) as [_ HM].
  split; [| by apply HM].
  destruct (isGameWon b); [| reflexivity].
  destruct (H5 eq_refl). congruence.
Qed.

Lemma lost_game_shows_all_mines_witness :
  isGameWon tinyLost = false
  /\ forall p, cellIs isMine tinyLost p = true ->
               cellIs isOpened tinyLost p = true.
Proof.
  apply (lost_game_shows_all_mines tinyLost).
  - exists tiny, [DoStartGame 0 [] 0 0; DoOpenCell 1 0 2]. reflexivity.
  - reflexivity.
Defined.

(** X7: on a board that carries its configured number of mines, fewer
    than it has cells, the game is won exactly when every cell that is
    not mined is opened. *)
Theorem won_iff_all_safe_cells_opened (b : Board) :
  Reachable b ->
  Z.of_nat (countCells isMine b) = mines b ->
  0 <= rows b -> 0 <= cols b ->
  mines b < rows b * cols b ->
  (isGameWon b = true
   <-> forall p, inBounds b p -> cellIs isMine b p = false ->
                 cellIs isOpened b p = true).
Proof.
  intros Hreach Hm Hr Hc Hlt.
  destruct (Reachable_RInv b Hreach) as [HI HQ].
  destruct (Consistent_of_mines b HI Hm Hr Hc) as [_ HC].
  pose proof HI as (Hg & _ & _ & _ & H5).
  split.
  - intros Hw p Hp Hmi. destruct (H5 Hw) as [_ H6].
    assert (Hz : countCells unopenedSafe b = 0%nat) by lia.
    pose proof (countCells_zero _ _ _ Hz Hp) as Hu.
    destruct p as [pr pc].
    destruct (proj2 (getCell_inBounds b pr pc Hg) Hp) as [cell Hcell].
    unfold cellIs, unopenedSafe in *. simpl in *. rewrite Hcell in *.
    rewrite Hmi, andb_true_r in Hu. by destruct (isOpened (state cell)).
  - intros Hall.
    assert (Hz : countCells unopenedSafe b = 0%nat).
    { apply countCells_none. intros p Hp. specialize (Hall p Hp).
      unfold cellIs, unopenedSafe in *.
      destruct (getCell b p.1 p.2) as [cell|]; [| reflexivity].
      destruct (isMine (state cell)); [by rewrite andb_false_r |].
      by rewrite Hall. }
    apply HQ; lia.
Qed.

Lemma won_iff_all_safe_cells_opened_witness :
  isGameWon singleWon = true
  <-> forall p, inBounds singleWon p -> cellIs isMine singleWon p = false ->
                cellIs isOpened singleWon p = true.
Proof.
  apply (won_iff_all_safe_cells_opened singleWon).
  - exists single, [DoStartGame 0 [] 0 0; DoOpenCell 1 0 0]. reflexivity.
  - reflexivity.
  - vm_compute. discriminate.
  - vm_compute. discriminate.
  - vm_compute. reflexivity.
Defined.

(** X6: a call of [openCell] that returned need not be repeated: on
    every board the engine can be in, the same call on the board it
    left returns that board unchanged, whatever the time. *)
Theorem openCell_twice (b b' : Board) (now now' r c : Z) :
  Reachable b ->
  openCell now r c b = Ok b' ->
  openCell now' r c b' = Ok b'.
Proof.
  intros Hreach E.
  destruct (Reachable_RInv b Hreach) as [HI _].
  assert (Hs : rtc (openStep now) b b').
  { pose proof (openCell_steps now r c b) as H. by rewrite E in H. }
  pose proof (steps_Inv _ _ _ Hs HI) as HI'.
  assert (Hdone : isGameOver b' || isGameWon b' = true
                  \/ (inBounds b' (r, c)
                      /\ cellIs isOpened b' (r, c) = true)).
  { destruct (openCell_cases now r c b HI)
      as [Hend| |? ? Hrc Hop|b1 _ _ _ _ _ _ Ho _ _ _
         |b1 _ Hw Hrc _ _ _ _ _ [Hfl _]];
      try discriminate; injection E as <-.
    - by left.
    - right. by split.
    - left. by rewrite Ho.
    - right. split; [by apply (steps_inBounds now b b1) | by apply Hfl]. }
  destruct Hdone as [Hend|[Hrc Hop]]; [by apply openCell_ended |].
  destruct (openCell_cases now' r c b' HI'); auto; congruence.
Qed.

Lemma openCell_twice_witness :
  openCell 7 0 0 (boardAfter (openCell 1 0 0 tinyStarted) tinyStarted)
  = Ok (boardAfter (openCell 1 0 0 tinyStarted) tinyStarted).
Proof.
  apply (openCell_twice tinyStarted _ 1 7 0 0).
  - exists tiny, [DoStartGame 0 [] 0 0]. reflexivity.
  - vm_compute. reflexivity.
Defined.

Section Moves.

Implicit Types (b : Board) (p q : Z * Z).

Lemma cellKept_refl c : cellKept c c.
Proof. by repeat split. Qed.

Lemma cellsKept_refl o : cellsKept o o.
Proof. destruct o; simpl; auto using cellKept_refl. Qed.

Lemma cellsKept_trans o1 o2 o3 :
  cellsKept o1 o2 -> cellsKept o2 o3 -> cellsKept o1 o3.
Proof.
  destruct o1, o2, o3; simpl; try tauto.
  intros (H1 & H2 & H3 & H4) (H1' & H2' & H3' & H4').
  repeat split; try congruence. auto.
Qed.

Lemma steps_cellsKept now b b' r c :
  rtc (openStep now) b b' -> cellsKept (getCell b r c) (getCell b' r c).
Proof.
  induction 1 as [|b b1 b2 H1 _ IH]; [apply cellsKept_refl |].
  eapply cellsKept_trans; [| exact IH].
  destruct (step_cell now b b1 r c H1) as [E|E]; rewrite E;
    [apply cellsKept_refl |].
  destruct (getCell b r c); simpl; [| exact I]. by repeat split.
Qed.

Lemma move_cellsKept op b r c :
  Reachable b -> isMove op = true ->
  cellsKept (getCell b r c) (getCell (boardAfter (perform op b) b) r c).
Proof.
  intros Hreach Hop. destruct (Reachable_RInv b Hreach) as [(Hg & _) _].
  destruct op as [|now rs r0 c0|now r0 c0|r0 c0]; try discriminate; simpl.
  - pose proof (openCell_steps now r0 c0 b) as H.
    destruct (openCell now r0 c0 b) as [b'|e b'|]; simpl in *;
      auto using cellsKept_refl; by apply (steps_cellsKept now).
  - destruct (toggleFlag_cases r0 c0 b Hg) as [| |cell ? ? ? Hcell Hopc];
      simpl; auto using cellsKept_refl.
    destruct (getCell_Some_nonneg _ _ _ _ Hcell) as [Hr0 Hc0].
    change (cellsKept (getCell b r c)
              (getCell (updState
                          (fun s => set_isFlagged (negb (isFlagged s)) s)
                          r0 c0 b) r c)).
    rewrite getCell_updState by assumption.
    destruct (decide ((r, c) = (r0, c0))) as [E|N];
      [| apply cellsKept_refl].
    inversion E; subst. rewrite Hcell. simpl.
    unfold cellKept, onState. simpl. unfold set_isFlagged.
    rewrite Hopc. simpl. repeat split; auto.
Qed.

Lemma cellsKept_isMine b b' p :
  (forall r c, cellsKept (getCell b r c) (getCell b' r c)) ->
  cellIs isMine b' p = cellIs isMine b p.
Proof.
  intros H. specialize (H p.1 p.2). unfold cellIs.
  destruct (getCell b p.1 p.2), (getCell b' p.1 p.2); simpl in H;
    try tauto. by destruct H.
Qed.

End Moves.

(** X2: opening cells and toggling flags never move a mine, change a
    number or close a cell: on every board the engine can be in, a move
    leaves the configuration and the list of mines as they are, every
    cell keeps [isMine], [adjacentMines] and its hidden display value
    and stays opened if it was, and the numbers stay the numbers of
    mines around the cells. *)
Theorem moves_keep_mines_and_numbers (b : Board) (op : Op) :
  Reachable b -> isMove op = true ->
  let b' := boardAfter (perform op b) b in
  (rows b' = rows b /\ cols b' = cols b /\ mines b' = mines b
   /\ minesList b' = minesList b)
  /\ (forall r c, cellsKept (getCell b r c) (getCell b' r c))
  /\ (AdjacentOk b -> AdjacentOk b').
Proof.
  intros Hreach Hop b'.
  pose proof (fun r c => move_cellsKept op b r c Hreach Hop) as Hkept.
  fold b' in Hkept.
  destruct (perform_config op b Hreach) as (Hr & Hc & Hm). fold b' in Hr, Hc, Hm.
  assert (Hml : minesList b' = minesList b).
  { destruct (Reachable_RInv b Hreach) as [(Hg & _) _]. subst b'.
    destruct op as [|now rs r0 c0|now r0 c0|r0 c0]; try discriminate; simpl.
    - pose proof (openCell_steps now r0 c0 b) as H.
      destruct (openCell now r0 c0 b) as [b1|e b1|]; simpl in *; auto;
        by destruct (steps_frame _ _ _ H) as (_ & _ & _ & ? & _).
    - by destruct (toggleFlag_cases r0 c0 b Hg). }
  split; [auto |]. split; [exact Hkept |].
  intros Hadj p cell' Hp Hcell'.
  assert (Hp0 : inBounds b p)
    by (unfold inBounds in *; by rewrite <- Hr, <- Hc).
  pose proof (Hkept p.1 p.2) as Hk. rewrite Hcell' in Hk.
  destruct (getCell b p.1 p.2) as [cell|] eqn:Hcell; [| contradiction].
  destruct Hk as (H1 & H2 & _). rewrite H1, H2, (Hadj p cell Hp0 Hcell).
  destruct (isMine (state cell)); [reflexivity |]. f_equal.
  unfold minedAround. f_equal.
  induction directions as [|d l IH]; [reflexivity |].
  rewrite !filter_cons, IH, (cellsKept_isMine b b' _ Hkept). reflexivity.
Qed.

Lemma moves_keep_mines_and_numbers_witness :
  let b' := boardAfter (perform (DoOpenCell 1 0 0) tinyStarted) tinyStarted in
  (rows b' = rows tinyStarted /\ cols b' = cols tinyStarted
   /\ mines b' = mines tinyStarted
   /\ minesList b' = minesList tinyStarted)
  /\ (forall r c, cellsKept (getCell tinyStarted r c) (getCell b' r c))
  /\ (AdjacentOk tinyStarted -> AdjacentOk b').
Proof.
  apply (moves_keep_mines_and_numbers tinyStarted (DoOpenCell 1 0 0)).
  - exists tiny, [DoStartGame 0 [] 0 0]. reflexivity.
  - reflexivity.
Defined.

(** X5: while the game is on, toggling the flag of a closed cell twice
    gives back the board as it was: the first call flips the flag, the
    second restores the cell, its display value and the flag count. *)
Theorem toggleFlag_twice (b : Board) (r c : Z) :
  Reachable b ->
  isGameOver b = false -> isGameWon b = false ->
  inBounds b (r, c) ->
  cellIs isOpened b (r, c) = false ->
  exists b1,
    toggleFlag r c b = Ok b1
    /\ cellIs isFlagged b1 (r, c) = negb (cellIs isFlagged b (r, c))
    /\ toggleFlag r c b1 = Ok b.
Proof.
  intros Hreach Hover Hwon Hrc Hop.
  destruct (Reachable_RInv b Hreach) as [(Hg & _) _].
  destruct (Reachable_Inv2 b Hreach) as [(_ & Hcells & _) _].
  destruct (proj2 (getCell_inBounds b r c Hg) Hrc) as [cell Hcell].
  destruct (getCell_Some_nonneg _ _ _ _ Hcell) as [Hr0 Hc0].
  destruct (Hcells r c cell Hcell) as ([Hcur _] & _).
  unfold cellIs in Hop; simpl in Hop. rewrite Hcell in Hop.
  set (f := fun s => set_isFlagged (negb (isFlagged s)) s).
  assert (Hff : f (f (state cell)) = state cell).
  { unfold cellTuple, displayOf in Hcur. rewrite Hop in Hcur.
    unfold f, set_isFlagged. rewrite Hop. simpl.
    destruct (state cell) as [m fl o a cur def]. simpl in *. subst.
    by destruct fl. }
  assert (Hfo : isOpened (f (state cell)) = false)
    by (unfold f, set_isFlagged; by rewrite Hop).
  assert (Hf1 : isFlagged (f (state cell)) = negb (isFlagged (state cell)))
    by (unfold f, set_isFlagged; by rewrite Hop).
  assert (E1 : toggleFlag r c b
               = Ok (set_flags
                       (flags b + if isFlagged (state cell) then -1 else 1)
                       (updState f r c b))).
  { destruct (toggleFlag_cases r c b Hg)
      as [Hno|_ [Hend|Hop']|cell0 _ _ _ Hcell0 _].
    - contradiction.
    - rewrite Hover, Hwon in Hend. discriminate.
    - unfold cellIs in Hop'; simpl in Hop'. rewrite Hcell in Hop'.
      congruence.
    - rewrite Hcell in Hcell0. by injection Hcell0 as <-. }
  eexists. split; [exact E1 |]. split.
  { change (cellIs isFlagged (updState f r c b) (r, c)
            = negb (cellIs isFlagged b (r, c))).
    rewrite cellIs_updState, decide_True by done.
    unfold cellIs; simpl. by rewrite Hcell. }
  set (b1 := set_flags (flags b + if isFlagged (state cell) then -1 else 1)
               (updState f r c b)).
  assert (Hcell1 : getCell b1 r c = Some (onState f cell)).
  { change (getCell (updState f r c b) r c = Some (onState f cell)).
    by rewrite getCell_updState, decide_True, Hcell by done. }
  assert (Hg1 : GridOk b1) by (by apply GridOk_updState).
  destruct (toggleFlag_cases r c b1 Hg1)
    as [Hno|_ [Hend|Hop']|cell1 _ _ _ Hcell1' _].
  - contradiction.
  - simpl in Hend. rewrite Hover, Hwon in Hend. discriminate.
  - unfold cellIs in Hop'; simpl in Hop'. rewrite Hcell1 in Hop'.
    simpl in Hop'. congruence.
  - rewrite Hcell1 in Hcell1'. injection Hcell1' as <-. f_equal.
    fold f. simpl state. rewrite Hf1.
    assert (Hcells_eq :
              alter (alter (onState f) (Z.to_nat c)) (Z.to_nat r)
                (alter (alter (onState f) (Z.to_nat c)) (Z.to_nat r)
                   (cells b))
              = cells b).
    { rewrite list_alter_alter_eq.
      rewrite (list_alter_ext _ id _ (cells b)); auto.
      - by apply list_alter_id.
      - intros line Hline. simpl. rewrite list_alter_alter_eq.
        rewrite (list_alter_ext _ id _ line); auto.
        + by apply list_alter_id.
        + intros cell0 Hc0'. simpl.
          assert (cell0 = cell) as ->.
          { unfold getCell in Hcell.
            rewrite (proj2 (Z.leb_le 0 r) Hr0), (proj2 (Z.leb_le 0 c) Hc0)
              in Hcell.
            simpl in Hcell. rewrite Hline in Hcell. simpl in Hcell.
            congruence. }
          unfold onState. simpl. rewrite Hff. by destruct cell. }
    destruct b as [df rw cl mn cs ml fl oc go gw st et].
    unfold b1, set_flags, updState, set_cells in *. simpl in *.
    rewrite Hcells_eq. f_equal.
    destruct (isFlagged (state cell)); simpl; lia.
Qed.

Lemma toggleFlag_twice_witness :
  exists b1,
    toggleFlag 0 1 tinyStarted = Ok b1
    /\ cellIs isFlagged b1 (0, 1) = negb (cellIs isFlagged tinyStarted (0, 1))
    /\ toggleFlag 0 1 b1 = Ok tinyStarted.
Proof.
  apply (toggleFlag_twice tinyStarted 0 1).
  - exists tiny, [DoStartGame 0 [] 0 0]. reflexivity.
  - reflexivity.
  - reflexivity.
  - unfold inBounds. simpl. lia.
  - reflexivity.
Defined.

(* ================================================================= *)
(** * The numbers on the cells *)

Section Numbers.

Implicit Types (b : Board) (p q m d : Z * Z).

(** The cell read after an update is the old cell or its update. *)
Lemma getCell_updState_cases f r c b r' c' cell' :
  getCell (updState f r c b) r' c' = Some cell' ->
  getCell b r' c' = Some cell'
  \/ exists cell, getCell b r' c' = Some cell /\ cell' = onState f cell.
Proof.
  unfold getCell, updState; simpl.
  destruct ((0 <=? r') && (0 <=? c')); [| discriminate].
  destruct (decide (Z.to_nat r = Z.to_nat r')) as [Er|Nr].
  - rewrite Er, list_lookup_alter_eq.
    destruct (cells b !! Z.to_nat r') as [line|]; [| discriminate]. simpl.
    destruct (decide (Z.to_nat c = Z.to_nat c')) as [Ec|Nc].
    + rewrite Ec, list_lookup_alter_eq.
      destruct (line !! Z.to_nat c') as [cell|]; [| discriminate]. simpl.
      intros [= <-]. right. by exists cell.
    + rewrite list_lookup_alter_ne by done. by left.
  - rewrite list_lookup_alter_ne by done. by left.
Qed.

Lemma AllStates_updState (P : CellState -> Prop) f r c b :
  (forall s, P s -> P (f s)) ->
  AllStates P b -> AllStates P (updState f r c b).
Proof.
  intros Hf Hall r' c' cell' Hc'.
  destruct (getCell_updState_cases _ _ _ _ _ _ _ Hc')
    as [H|(cell & H & ->)]; [by apply (Hall r' c') |].
  simpl. apply Hf. by apply (Hall r' c').
Qed.

(** The placement loop leaves every number at 0. *)
Lemma placeLoop_zero (cellList : list (Z * Z)) (l : list nat) b :
  AllStates (fun s => adjacentMines s = 0) b ->
  resAll (AllStates (fun s => adjacentMines s = 0))
    (forEach (placeMine cellList) l b).
Proof.
  intros Hall. apply forEach_inv; [| exact Hall].
  intros i bi _ Hi. unfold placeMine.
  destruct (_ !! i) as [[mr mc]|]; [| exact Hi].
  unfold withCell. destruct (getCell bi mr mc); [| exact Hi].
  by apply (AllStates_updState _ _ mr mc bi).
Qed.

Lemma AllStates_reset_zero b :
  AllStates (fun s => adjacentMines s = 0) (reset b).
Proof.
  intros r c cell Hc.
  assert (Hin : inBounds (reset b) (r, c)).
  { apply (getCell_inBounds _ _ _ (GridOk_reset b)). by exists cell. }
  rewrite (getCell_reset b r c Hin) in Hc. by injection Hc as <-.
Qed.

Lemma hitsOn_snoc q pairs md :
  hitsOn q (pairs ++ [md])
  = (hitsOn q pairs + if decide (shift md.1 md.2 = q) then 1 else 0)%nat.
Proof.
  unfold hitsOn. rewrite filter_app, length_app, filter_cons, filter_nil.
  by destruct (decide _).
Qed.

(** One step of the inner loop of [#calculateAdjacentMines]. *)
Lemma Counted_step pairs ml b0 b m d :
  Counted pairs ml b0 b ->
  exists b',
    (let newRow := m.1 + d.1 in
     let newCol := m.2 + d.2 in
     if (newRow <? 0) || (rows b <=? newRow) then Ok b
     else if (newCol <? 0) || (cols b <=? newCol) then Ok b
     else
       withCell newRow newCol
         (fun cell b =>
            if isMine (state cell) then Ok b
            else
              Ok (updState
                    (fun s => set_adjacentMines (adjacentMines s + 1) s)
                    newRow newCol b))
         b) = Ok b'
    /\ Counted (pairs ++ [(m, d)]) ml b0 b'.
Proof.
  intros [HS Hcnt]. cbv zeta.
  pose proof (fun p => Settled_inBounds _ _ _ p HS) as Hb.
  assert (Hskip : (~ inBounds b0 (shift m d)
                   \/ cellIs isMine b (shift m d) = true) ->
                  Counted (pairs ++ [(m, d)]) ml b0 b).
  { intros Hno. split; [exact HS |]. intros p cell Hp Hcell.
    rewrite (Hcnt p cell Hp Hcell), hitsOn_snoc. simpl.
    destruct (isMine (state cell)) eqn:Hmi; [reflexivity |].
    destruct (decide (shift m d = p)) as [E|N]; [| by rewrite Nat.add_0_r].
    exfalso. subst p. destruct Hno as [Hno|Hno]; [contradiction |].
    unfold cellIs in Hno. rewrite Hcell in Hno. congruence. }
  destruct ((m.1 + d.1 <? 0) || (rows b <=? m.1 + d.1)) eqn:Hr.
  { exists b. split; [reflexivity |]. apply Hskip. left.
    intros Hin. apply Hb in Hin. destruct Hin as [Hin _]. simpl in Hin.
    apply not_false_iff_true in Hr. apply Hr. by apply skip_row_false. }
  destruct ((m.2 + d.2 <? 0) || (cols b <=? m.2 + d.2)) eqn:Hc.
  { exists b. split; [reflexivity |]. apply Hskip. left.
    intros Hin. apply Hb in Hin. destruct Hin as [_ Hin]. simpl in Hin.
    apply not_false_iff_true in Hc. apply Hc. by apply skip_col_false. }
  apply skip_row_false in Hr. apply skip_col_false in Hc.
  assert (Hq : inBounds b0 (shift m d)) by (apply Hb; by split).
  pose proof HS as (_ & _ & _ & Hcells).
  destruct (Hcells _ Hq) as (cell & Hcell & _). simpl in Hcell.
  unfold withCell. rewrite Hcell.
  destruct (isMine (state cell)) eqn:Hmi.
  { exists b. split; [reflexivity |]. apply Hskip. right.
    unfold cellIs. simpl. by rewrite Hcell. }
  eexists. split; [reflexivity |].
  split.
  { by apply (Settled_adjacent ml b0 b _ _ (fun s => adjacentMines s + 1)). }
  intros p cell' Hp Hcell'.
  rewrite getCell_updState in Hcell' by lia.
  rewrite hitsOn_snoc. simpl.
  destruct (decide ((p.1, p.2) = (m.1 + d.1, m.2 + d.2))) as [E|N].
  - rewrite Hcell in Hcell'. simpl in Hcell'. injection Hcell' as <-.
    assert (Hpe : shift m d = p) by (destruct p; simpl in E; exact (eq_sym E)).
    rewrite decide_True by exact Hpe.
    pose proof (Hcnt _ cell Hq Hcell) as Hold. rewrite Hmi in Hold.
    rewrite Hpe in Hold.
    simpl. unfold set_adjacentMines. rewrite Hmi.
    destruct (adjacentMines (state cell) + 1 <? 0) eqn:Hneg;
      [apply Z.ltb_lt in Hneg; lia |].
    simpl. rewrite Hold. lia.
  - rewrite decide_False.
    + rewrite Nat.add_0_r. by apply Hcnt.
    + intros Hpe. apply N. by rewrite <- Hpe.
Qed.

Lemma minePairs_snoc (pre : list (Z * Z)) m :
  minePairs (pre ++ [m]) = minePairs pre ++ map (Datatypes.pair m) directions.
Proof.
  unfold minePairs. rewrite flat_map_app. f_equal.
Qed.

Lemma calculateAdjacentMines_counted ml b0 b :
  Counted [] ml b0 b ->
  exists b', calculateAdjacentMines b = Ok b'
             /\ Counted (minePairs ml) ml b0 b'.
Proof.
  intros HC. unfold calculateAdjacentMines.
  assert (Hml : minesList b = ml) by (by destruct HC as [(_ & ? & _) _]).
  rewrite Hml.
  apply (forEach_ok (fun pre bi => Counted (minePairs pre) ml b0 bi)
           _ ml []); [exact HC |].
  intros pre m _ bi _ Hi. rewrite minePairs_snoc.
  pose proof (forEach_ok
                (fun pre_d bj =>
                   Counted (minePairs pre ++ map (Datatypes.pair m) pre_d) ml b0 bj)
                (fun (d : Z * Z) b =>
                   let newRow := m.1 + d.1 in
                   let newCol := m.2 + d.2 in
                   if (newRow <? 0) || (rows b <=? newRow) then Ok b
                   else if (newCol <? 0) || (cols b <=? newCol) then Ok b
                   else
                     withCell newRow newCol
                       (fun cell b =>
                          if isMine (state cell) then Ok b
                          else
                            Ok (updState
                                  (fun s =>
                                     set_adjacentMines
                                       (adjacentMines s + 1) s)
                                  newRow newCol b))
                       b)
                directions [] bi) as H.
  simpl app in H. apply H.
  - by rewrite app_nil_r.
  - intros pre_d d _ bj _ Hj.
    rewrite map_app, app_assoc. simpl map. by apply Counted_step.
Qed.

Lemma elem_of_directions d :
  d ∈ directions
  <-> (-1 <= d.1 <= 1 /\ -1 <= d.2 <= 1 /\ d <> (0, 0)).
Proof.
  split.
  - unfold directions. intros H.
    repeat (apply elem_of_cons in H as [->|H]; [simpl; repeat split; try lia; discriminate |]).
    inversion H.
  - destruct d as [x y]. simpl. intros (Hx & Hy & Hne).
    assert (Hx' : x = -1 \/ x = 0 \/ x = 1) by lia.
    assert (Hy' : y = -1 \/ y = 0 \/ y = 1) by lia.
    unfold directions.
    destruct Hx' as [->|[->| ->]], Hy' as [->|[->| ->]];
      try contradiction; repeat (first [left | right]).
Qed.

Lemma count_eq_NoDup {A} `{EqDecision A} (x : A) (l : list A) :
  NoDup l ->
  length (filter (fun y => y = x) l) = if decide (x ∈ l) then 1%nat else 0%nat.
Proof.
  induction l as [|y l IH]; intros Hnd; [reflexivity |].
  apply list.NoDup_cons in Hnd as [Hy Hnd]. specialize (IH Hnd).
  rewrite filter_cons.
  destruct (decide (y = x)) as [->|N]; simpl.
  - rewrite IH, decide_False by done. by rewrite decide_True by left.
  - rewrite IH. destruct (decide (x ∈ l)) as [Hx|Hx].
    + by rewrite decide_True by (by right).
    + rewrite decide_False; [reflexivity |].
      intros H. apply elem_of_cons in H as [->|H]; contradiction.
Qed.

(** As many directions lead from [m] to [p] as from [p] to [m]. *)
Lemma directions_back m p :
  length (filter (fun d => shift m d = p) directions)
  = length (filter (fun d => shift p d = m) directions).
Proof.
  rewrite (list_filter_iff _ (fun d => d = (p.1 - m.1, p.2 - m.2))).
  2:{ intros [x y]. destruct m, p. unfold shift; simpl. split.
      - intros [= <- <-]. f_equal; lia.
      - intros [= -> ->]. f_equal; lia. }
  rewrite (list_filter_iff (fun d => shift p d = m)
             (fun d => d = (m.1 - p.1, m.2 - p.2))).
  2:{ intros [x y]. destruct m, p. unfold shift; simpl. split.
      - intros [= <- <-]. f_equal; lia.
      - intros [= -> ->]. f_equal; lia. }
  rewrite !count_eq_NoDup by apply NoDup_directions.
  destruct (decide ((p.1 - m.1, p.2 - m.2) ∈ directions)) as [H|H];
    destruct (decide ((m.1 - p.1, m.2 - p.2) ∈ directions)) as [H'|H'];
    try reflexivity; exfalso;
    rewrite elem_of_directions in H, H'; simpl in *; apply H + apply H';
    destruct H as (? & ? & Hne) || destruct H' as (? & ? & Hne);
    (split; [lia |]; split; [lia |]);
    intros [= ? ?]; apply Hne; f_equal; lia.
Qed.

Lemma filter_or_length {A} (P Q : A -> Prop)
    `{forall x, Decision (P x)} `{forall x, Decision (Q x)} (l : list A) :
  (forall x, P x -> Q x -> False) ->
  length (filter (fun x => P x \/ Q x) l)
  = (length (filter P l) + length (filter Q l))%nat.
Proof.
  intros Hex. induction l as [|x l IH]; [reflexivity |].
  rewrite !filter_cons.
  destruct (decide (P x)) as [HP|HP], (decide (Q x)) as [HQ|HQ].
  - destruct (Hex x HP HQ).
  - rewrite decide_True by (by left). simpl. by rewrite IH.
  - rewrite decide_True by (by right). simpl. rewrite IH. lia.
  - rewrite decide_False by tauto. exact IH.
Qed.

Lemma hits_of_one_mine m p (l : list (Z * Z)) :
  length (filter (fun md : (Z * Z) * (Z * Z) => shift md.1 md.2 = p)
            (map (Datatypes.pair m) l))
  = length (filter (fun d => shift m d = p) l).
Proof.
  induction l as [|d l IHl]; [reflexivity |].
  simpl map. rewrite !filter_cons. simpl.
  destruct (decide (shift m d = p)); simpl; by rewrite IHl.
Qed.

(** The pairs that point at [p] are as many as the directions that
    lead from [p] to a mine. *)
Lemma hitsOn_minePairs p (ml : list (Z * Z)) :
  NoDup ml ->
  hitsOn p (minePairs ml)
  = length (filter (fun d => shift p d ∈ ml) directions).
Proof.
  induction ml as [|m ml IH]; intros Hnd.
  - assert (G : forall l : list (Z * Z),
              filter (fun d => shift p d ∈ @nil (Z * Z)) l = []).
    { induction l as [|d l IHl]; [reflexivity |].
      rewrite filter_cons, decide_False; [exact IHl |].
      intros H. inversion H. }
    by rewrite G.
  - apply list.NoDup_cons in Hnd as [Hm Hnd].
    change (minePairs (m :: ml))
      with (map (Datatypes.pair m) directions ++ minePairs ml).
    unfold hitsOn in *. rewrite filter_app, length_app, IH by done.
    rewrite (list_filter_iff (fun d => shift p d ∈ m :: ml)
               (fun d => shift p d = m \/ shift p d ∈ ml)).
    2:{ intros d. apply elem_of_cons. }
    rewrite filter_or_length.
    2:{ intros d -> H. contradiction. }
    f_equal. rewrite <- directions_back. apply hits_of_one_mine.
Qed.

End Numbers.

(** X1: when [startGame] returns, every cell carries the number of
    mined cells among its neighbours, between 0 and 8, and a mined
    cell carries 0. *)
Theorem startGame_numbers_count_mines (b b' : Board) (now : Z) (rs : Rand)
    (r c : Z) :
  startGame now rs r c b = Ok b' ->
  AdjacentOk b'
  /\ forall p cell, getCell b' p.1 p.2 = Some cell ->
                    0 <= adjacentMines (state cell) <= 8.
Proof.
  intros E.
  assert (Hrc : inBounds b (r, c)).
  { apply outOfRange_false. unfold startGame in E.
    by destruct (outOfRange b r c). }
  destruct (candidateCells_spec rs r c b Hrc) as (Hnd & Hin & _).
  pose proof (placeLoop (candidateCells rs r c b) b
                (fun p Hp => proj1 (Hin p Hp))
                (Z.to_nat (mines b)) 0%nat (reset b) (Settled_reset b)
                (Nat.le_0_l _)) as Hloop.
  pose proof (placeLoop_zero (candidateCells rs r c b)
                (seq 0 (Z.to_nat (mines b))) (reset b)
                (AllStates_reset_zero b)) as Hzero.
  unfold startGame in E. rewrite (proj2 (outOfRange_false b r c) Hrc) in E.
  unfold placeMines in E.
  change (candidateCells rs r c (reset b)) with (candidateCells rs r c b) in E.
  change (mines (reset b)) with (mines b) in E.
  destruct (forEach _ _ (reset b)) as [b1|e b1|]; simpl in E;
    try discriminate.
  simpl in Hloop, Hzero. destruct Hloop as [_ HS].
  set (ml := take (Z.to_nat (mines b)) (candidateCells rs r c b)) in *.
  assert (Hndml : NoDup ml) by (by apply NoDup_take_of).
  assert (Hinml : forall p, p ∈ ml -> inBounds b p).
  { intros p Hp. apply Hin. by apply (subseteq_take _ _ _ Hp). }
  assert (HC : Counted [] ml b b1).
  { split; [exact HS |]. intros p cell _ Hcell.
    rewrite (Hzero _ _ _ Hcell). by destruct (isMine (state cell)). }
  destruct (calculateAdjacentMines_counted ml b b1 HC) as (b2 & E2 & HS2 & Hcnt).
  rewrite E2 in E. simpl in E. injection E as <-.
  pose proof (fun p => Settled_inBounds _ _ _ p HS2) as Hb.
  assert (Hadj : AdjacentOk (set_startTime (Some now) b2)).
  { intros p cell Hp Hcell.
    change (getCell b2 p.1 p.2 = Some cell) in Hcell.
    change (inBounds b2 p) in Hp. apply Hb in Hp.
    rewrite (Hcnt p cell Hp Hcell).
    destruct (isMine (state cell)); [reflexivity |]. f_equal.
    rewrite (hitsOn_minePairs p ml Hndml). unfold minedAround. f_equal.
    apply list_filter_iff. intros d.
    change (shift p d ∈ ml <-> cellIs isMine b2 (shift p d) = true).
    destruct (decide (inBounds b (shift p d))) as [Hq|Hq].
    - destruct (Settled_cellIs _ _ _ _ HS2 Hq) as (-> & _).
      symmetry. apply bool_decide_eq_true.
    - split; [intros Hm; destruct (Hq (Hinml _ Hm)) |].
      intros Hm. exfalso. apply Hq, Hb.
      destruct HS2 as (Hg & _). unfold cellIs in Hm.
      destruct (getCell b2 (shift p d).1 (shift p d).2) as [cell'|] eqn:Hc';
        [| discriminate].
      destruct (shift p d) as [qr qc]. simpl in Hc'.
      apply (getCell_inBounds b2 qr qc Hg). by exists cell'. }
  split; [exact Hadj |].
  intros p cell Hcell.
  assert (Hp : inBounds (set_startTime (Some now) b2) p).
  { destruct HS2 as (Hg & _). destruct p as [pr pc].
    apply (getCell_inBounds b2 pr pc Hg). by exists cell. }
  rewrite (Hadj p cell Hp Hcell).
  destruct (isMine (state cell)); [lia |].
  unfold minedAround.
  pose proof (length_filter
                (fun d => cellIs isMine (set_startTime (Some now) b2)
                            (shift p d) = true) directions) as Hle.
  rewrite length_directions in Hle. lia.
Qed.

Lemma startGame_numbers_count_mines_witness :
  AdjacentOk tinyStarted
  /\ forall p cell, getCell tinyStarted p.1 p.2 = Some cell ->
                    0 <= adjacentMines (state cell) <= 8.
Proof.
  apply (startGame_numbers_count_mines (newBoard tiny) tinyStarted 0 [] 0 0).
  vm_compute. reflexivity.
Defined.

(* ================================================================= *)
(** * The helpers of the placement *)

(** X13: [#getAdjacentCells(row, col)] lists, each once, exactly the
    cells of the board that touch [(row, col)]: in bounds, at most one
    line and one column away, and not the cell itself; there are at
    most 8. *)
Theorem getAdjacentCells_are_the_neighbours (b : Board) (r c : Z) :
  NoDup (getAdjacentCells b r c)
  /\ (length (getAdjacentCells b r c) <= 8)%nat
  /\ forall p,
       p ∈ getAdjacentCells b r c
       <-> (inBounds b p /\ p <> (r, c)
            /\ -1 <= p.1 - r <= 1 /\ -1 <= p.2 - c <= 1).
Proof.
  split; [apply NoDup_getAdjacentCells |].
  split; [apply length_getAdjacentCells |].
  intros p. rewrite getAdjacentCells_spec. split.
  - intros (d & Hd & -> & Hin). split; [exact Hin |].
    split; [by apply shift_ne |].
    apply elem_of_directions in Hd as (Hx & Hy & _).
    unfold shift; simpl. lia.
  - intros (Hin & Hne & Hx & Hy).
    exists (p.1 - r, p.2 - c). split; [| split; [| exact Hin]].
    + apply elem_of_directions. simpl. split; [lia |]. split; [lia |].
      intros [= H1 H2]. apply Hne. destruct p as [pr pc]. simpl in *.
      f_equal; lia.
    + destruct p as [pr pc]. unfold shift; simpl. f_equal; lia.
Qed.

Section ShuffleDraws.

Context {A : Type}.

Lemma swap_length i j (a : list A) : length (swap i j a) = length a.
Proof.
  unfold swap. destruct (a !! i); [| reflexivity].
  destruct (a !! j); [| reflexivity]. by rewrite !length_insert.
Qed.

Lemma randomInt_rest n (rs : Rand) : (randomInt n rs).2 = drop 1 rs.
Proof. by destruct rs. Qed.

Lemma shuffleFrom_rest i : forall (a : list A) rs,
  (shuffleFrom i a rs).2 = drop i rs.
Proof.
  induction i as [|i IH]; intros a rs; [by rewrite drop_0 |].
  simpl. pose proof (randomInt_rest (S (i + 1)) rs) as H.
  destruct (randomInt _ rs) as [j rs']. simpl in H. rewrite IH, H.
  by rewrite drop_drop.
Qed.

End ShuffleDraws.

(** X14: [#shuffleArray(array)] rearranges the array: the result is a
    permutation of the input, of the same length, and the shuffle uses
    one random draw for each element but the first. *)
Theorem shuffleArray_permutes {A : Type} (a : list A) (rs : Rand) :
  (shuffleArray a rs).1 ≡ₚ a
  /\ length (shuffleArray a rs).1 = length a
  /\ (shuffleArray a rs).2 = drop (length a - 1) rs.
Proof.
  split; [apply shuffleArray_perm |].
  split; [by rewrite shuffleArray_perm |].
  apply shuffleFrom_rest.
Qed.

(** X15: [#buildCellsListWithoutMines(excludeCells)] lists the cells of
    the board line by line, leaving out the excluded ones: each cell
    in bounds that is not excluded, once. *)
Theorem buildCellsList_are_the_free_cells (b : Board)
    (excludeCells : list (Z * Z)) :
  buildCellsListWithoutMines b excludeCells
  = filter (fun p => p ∉ excludeCells) (positions b)
  /\ NoDup (buildCellsListWithoutMines b excludeCells)
  /\ forall p,
       p ∈ buildCellsListWithoutMines b excludeCells
       <-> inBounds b p /\ p ∉ excludeCells.
Proof.
  split; [apply buildCells_filter |]. rewrite buildCells_filter.
  split; [apply list.NoDup_filter, NoDup_positions |].
  intros p. rewrite list_elem_of_filter, elem_of_positions. tauto.
Qed.

Section Pocket.

Implicit Types (b : Board) (rs : Rand).

(** No candidate cell is an excluded one, and the excluded cells are
    the start cell and neighbours of it. *)
Lemma excluded_not_candidate rs r c b p :
  p ∈ candidateCells rs r c b -> p ∉ (excludedCells rs r c b).1.
Proof.
  unfold candidateCells. destruct (excludedCells rs r c b) as [excl rs2].
  simpl. rewrite shuffleArray_perm, buildCells_filter.
  intros Hp. by apply list_elem_of_filter in Hp as [Hp _].
Qed.

Lemma excluded_are_near rs r c b p :
  p ∈ (excludedCells rs r c b).1 ->
  p = (r, c) \/ p ∈ getAdjacentCells b r c.
Proof.
  unfold excludedCells.
  pose proof (shuffleArray_perm (getAdjacentCells b r c) rs) as Hperm.
  destruct (shuffleArray (getAdjacentCells b r c) rs) as [adj rs1].
  destruct (randomInt (length adj) rs1) as [n rs2]. simpl in *.
  intros Hp. apply elem_of_cons in Hp as [->|Hp]; [by left | right].
  rewrite <- Hperm. by apply (subseteq_take (n + 1) adj).
Qed.

Lemma excluded_neighbour rs r c b :
  getAdjacentCells b r c <> [] ->
  exists q, q ∈ getAdjacentCells b r c /\ q ∈ (excludedCells rs r c b).1.
Proof.
  unfold excludedCells.
  pose proof (shuffleArray_perm (getAdjacentCells b r c) rs) as Hperm.
  destruct (shuffleArray (getAdjacentCells b r c) rs) as [adj rs1].
  destruct (randomInt (length adj) rs1) as [n rs2]. simpl in *.
  intros Hne. destruct adj as [|q adj].
  - apply Permutation_nil_l in Hperm. congruence.
  - exists q. split; [rewrite <- Hperm; left |].
    rewrite Nat.add_1_r. simpl. right. left.
Qed.

End Pocket.

(** X11: when [startGame] returns, none of the cells its placement
    excluded is mined: the start cell, and at least one of its
    neighbours when it has any; the excluded cells are the start cell
    and neighbours of it. *)
Theorem startGame_excluded_cells_safe (b b' : Board) (now : Z) (rs : Rand)
    (r c : Z) :
  startGame now rs r c b = Ok b' ->
  (forall p, p ∈ (excludedCells rs r c b).1 -> cellIs isMine b' p = false)
  /\ (r, c) ∈ (excludedCells rs r c b).1
  /\ (forall p, p ∈ (excludedCells rs r c b).1 ->
                p = (r, c) \/ p ∈ getAdjacentCells b r c)
  /\ (getAdjacentCells b r c <> [] ->
      exists q, q ∈ getAdjacentCells b r c /\ cellIs isMine b' q = false).
Proof.
  intros E.
  assert (Hrc : inBounds b (r, c)).
  { apply outOfRange_false. unfold startGame in E.
    by destruct (outOfRange b r c). }
  destruct (excludedCells_spec rs r c b Hrc) as (_ & Hin & Hstart & _).
  pose proof (startGame_spec now rs r c b Hrc) as H. cbv zeta in H.
  rewrite E in H. destruct H as (_ & b2 & -> & HS).
  assert (Hsafe : forall p, p ∈ (excludedCells rs r c b).1 ->
                    cellIs isMine (set_startTime (Some now) b2) p = false).
  { intros p Hp.
    change (cellIs isMine b2 p = false).
    destruct (Settled_cellIs _ _ _ p HS (Hin p Hp)) as (-> & _).
    apply bool_decide_eq_false_2. intros Hm.
    apply (subseteq_take _ _ _) in Hm.
    by apply (excluded_not_candidate rs r c b p). }
  split; [exact Hsafe |]. split; [exact Hstart |].
  split; [apply excluded_are_near |].
  intros Hne. destruct (excluded_neighbour rs r c b Hne) as (q & Hq & Hq').
  exists q. split; [exact Hq | by apply Hsafe].
Qed.

Lemma startGame_excluded_cells_safe_witness :
  (forall p, p ∈ (excludedCells [] 0 0 (newBoard tiny)).1 ->
             cellIs isMine tinyStarted p = false)
  /\ (0, 0) ∈ (excludedCells [] 0 0 (newBoard tiny)).1
  /\ (forall p, p ∈ (excludedCells [] 0 0 (newBoard tiny)).1 ->
                p = (0, 0) \/ p ∈ getAdjacentCells (newBoard tiny) 0 0)
  /\ (getAdjacentCells (newBoard tiny) 0 0 <> [] ->
      exists q, q ∈ getAdjacentCells (newBoard tiny) 0 0
                /\ cellIs isMine tinyStarted q = false).
Proof.
  apply (startGame_excluded_cells_safe (newBoard tiny) tinyStarted 0 [] 0 0).
  vm_compute. reflexivity.
Defined.

(** X12: with each of the three difficulty levels of the game,
    [startGame] on any cell of the board returns whatever the random
    draws are, with the start cell not mined and exactly the
    configured number of mines on the board. *)
Theorem levels_always_start (d : Difficulty.t) (now : Z) (rs : Rand)
    (r c : Z) :
  d ∈ [Difficulty.BEGINNER; Difficulty.INTERMEDIATE; Difficulty.EXPERT] ->
  inBounds (newBoard d) (r, c) ->
  exists b',
    startGame now rs r c (newBoard d) = Ok b'
    /\ cellIs isMine b' (r, c) = false
    /\ Z.of_nat (countCells isMine b') = Difficulty.mines d.
Proof.
  intros Hd Hrc.
  destruct (excludedCells_spec rs r c (newBoard d) Hrc)
    as (_ & _ & _ & Hk & _).
  pose proof (length_getAdjacentCells (newBoard d) r c) as H8.
  assert (Hroom : mines (newBoard d)
                  <= rows (newBoard d) * cols (newBoard d) - 1
                     - Z.of_nat (excludedNeighbours rs r c (newBoard d))
                  /\ 0 <= mines (newBoard d)).
  { assert (Hk8 : (excludedNeighbours rs r c (newBoard d) <= 8)%nat) by lia.
    change (rows (newBoard d)) with (Difficulty.rows d).
    change (cols (newBoard d)) with (Difficulty.cols d).
    change (mines (newBoard d)) with (Difficulty.mines d).
    revert Hk8. generalize (excludedNeighbours rs r c (newBoard d)).
    clear -Hd. intros k Hk8.
    repeat (apply elem_of_cons in Hd as [->|Hd];
            [unfold Difficulty.BEGINNER, Difficulty.INTERMEDIATE,
               Difficulty.EXPERT; simpl; lia |]).
    inversion Hd. }
  destruct Hroom as [Hm H0].
  destruct (startGame_ok now rs r c (newBoard d) Hrc Hm) as (b2 & E & HS).
  destruct (startGame_result rs r c (newBoard d) b2 Hrc H0 Hm HS) as [H1 H2].
  exists (set_startTime (Some now) b2). auto.
Qed.

Lemma levels_always_start_witness :
  exists b',
    startGame 0 [5; 2; 7]%nat 29 15 (newBoard Difficulty.EXPERT) = Ok b'
    /\ cellIs isMine b' (29, 15) = false
    /\ Z.of_nat (countCells isMine b') = Difficulty.mines Difficulty.EXPERT.
Proof.
  apply (levels_always_start Difficulty.EXPERT 0 [5; 2; 7]%nat 29 15).
  - do 2 right. left.
  - unfold inBounds. simpl. lia.
Defined.

(* ================================================================= *)
(** * The read-only methods and the rendering *)

Section Rendering.

Implicit Types (b : Board) (g : list (list CellState)).

Lemma seqZ_snoc (k : nat) :
  seqZ 0 (Z.of_nat (S k)) = seqZ 0 (Z.of_nat k) ++ [Z.of_nat k].
Proof.
  unfold seqZ. rewrite !Nat2Z.id, seq_S, fmap_app. simpl.
  f_equal. f_equal. lia.
Qed.

Lemma grid_lookup b i j line cell :
  cells b !! i = Some line -> line !! j = Some cell ->
  getCell b (Z.of_nat i) (Z.of_nat j) = Some cell.
Proof.
  intros Hi Hj. unfold getCell.
  rewrite (proj2 (Z.leb_le 0 (Z.of_nat i))), (proj2 (Z.leb_le 0 (Z.of_nat j)))
    by lia.
  simpl. rewrite !Nat2Z.id, Hi. simpl. exact Hj.
Qed.

(** On a board with its grid in order [getGameBoard()] returns the
    states of the cells, line by line. *)
Lemma getGameBoard_grid b :
  GridOk b -> getGameBoard b = Some (map (map state) (cells b)).
Proof.
  intros [Hlen Hall]. unfold getGameBoard. apply mapM_Some.
  apply Forall2_same_length_lookup_2.
  { by rewrite length_seqZ, length_map. }
  intros i r sts Hr Hs.
  apply lookup_seqZ in Hr as [-> Hi].
  rewrite list_lookup_fmap in Hs.
  destruct (cells b !! i) as [line|] eqn:Hline; [| discriminate].
  injection Hs as <-.
  pose proof (proj1 (Forall_forall _ _) Hall line
                (list_elem_of_lookup_2 _ _ _ Hline)) as Hl.
  apply mapM_Some. apply Forall2_same_length_lookup_2.
  { by rewrite length_seqZ, length_map. }
  intros j c st Hc Hst.
  apply lookup_seqZ in Hc as [-> Hj].
  rewrite list_lookup_fmap in Hst.
  destruct (line !! j) as [cell|] eqn:Hcell; [| discriminate].
  injection Hst as <-.
  rewrite !Z.add_0_l. by rewrite (grid_lookup b i j line cell).
Qed.

(** The text of a row whose states are all there. *)
Lemma rowText_Some r (states : list CellState) (k : nat) :
  (k <= length states)%nat ->
  forall ncols, is_Some
    (fold_left
       (fun (acc : option string) (col : Z) =>
          line ← acc;
          st ← states !! Z.to_nat col;
          let line :=
            String.append line (String.append " " (currentState st)) in
          Some (if col <? ncols - 1 then String.append line "  | " else line))
       (seqZ 0 (Z.of_nat k)) (Some (padEnd 3 (decimal (r + 1))))).
Proof.
  intros Hk ncols. induction k as [|k IH]; [by eexists |].
  rewrite seqZ_snoc, fold_left_app.
  destruct IH as [line ->]; [lia |]. simpl.
  rewrite Nat2Z.id.
  destruct (lookup_lt_is_Some_2 states k) as [st ->]; [lia |].
  simpl. by eexists.
Qed.

Lemma rowText_ok r (states : list CellState) :
  is_Some (rowText r (Z.of_nat (length states)) states).
Proof. unfold rowText. by apply rowText_Some. Qed.

(** The lines of the body of [toString()] over the first [k] rows. *)
Lemma bodyLines_length g (ncols : nat) (k : nat) :
  Forall (fun line => length line = ncols) g ->
  (k <= length g)%nat -> (1 <= length g)%nat ->
  exists lines,
    fold_left
      (fun (acc : option (list string)) (r : Z) =>
         lines ← acc;
         states ← g !! Z.to_nat r;
         line ← rowText r (Z.of_nat ncols) states;
         Some (if r <? Z.of_nat (length g) - 1
               then lines ++ [line; getRowLine (Z.of_nat ncols)]
               else lines ++ [line]))
      (seqZ 0 (Z.of_nat k)) (Some [])
    = Some lines
    /\ length lines
       = (if decide (k = length g) then 2 * k - 1 else 2 * k)%nat.
Proof.
  intros Hall Hk Hn. induction k as [|k IH].
  - exists []. split; [reflexivity |].
    destruct (decide (0%nat = length g)); [lia | reflexivity].
  - rewrite seqZ_snoc, fold_left_app.
    destruct IH as (lines & -> & Hlen); [lia |]. simpl.
    rewrite Nat2Z.id.
    destruct (lookup_lt_is_Some_2 g k) as [states Hst]; [lia |].
    rewrite Hst. simpl.
    pose proof (proj1 (Forall_forall _ _) Hall states
                  (list_elem_of_lookup_2 _ _ _ Hst)) as Hl.
    destruct (rowText_ok (Z.of_nat k) states) as [line Hline].
    rewrite Hl in Hline. rewrite Hline. simpl.
    destruct (decide (k = length g)); [lia |].
    destruct (Z.ltb_spec (Z.of_nat k) (Z.of_nat (length g) - 1)).
    + eexists. split; [reflexivity |]. rewrite length_app. simpl.
      destruct (decide (S k = length g)); lia.
    + eexists. split; [reflexivity |]. rewrite length_app. simpl.
      destruct (decide (S k = length g)); lia.
Qed.

(** The lines of a grid of [nrows >= 1] full rows. *)
Lemma boardLines_length g (ncols : nat) :
  Forall (fun line => length line = ncols) g ->
  (1 <= length g)%nat ->
  exists lines,
    boardLines g
    = Some (getColumnIndices (Z.of_nat ncols)
              :: getRowLine (Z.of_nat ncols) :: lines)
    /\ length lines = (2 * length g - 1)%nat.
Proof.
  intros Hall Hn. unfold boardLines.
  destruct g as [|first g'] eqn:Hg; [simpl in Hn; lia |].
  rewrite <- Hg in *. replace (g !! 0%nat) with (Some first) by by rewrite Hg.
  simpl.
  assert (Hf : length first = ncols).
  { apply (proj1 (Forall_forall _ _) Hall). rewrite Hg. left. }
  rewrite Hf.
  destruct (bodyLines_length g ncols (length g) Hall) as (lines & -> & Hlen);
    [lia | lia |].
  simpl. exists lines. split; [reflexivity |].
  destruct (decide (length g = length g)); [lia | congruence].
Qed.

(** The rendering reads the display values of the grid only. *)
Lemma rowText_ext r ncols (s1 s2 : list CellState) :
  map currentState s1 = map currentState s2 ->
  rowText r ncols s1 = rowText r ncols s2.
Proof.
  intros E. unfold rowText.
  generalize (Some (padEnd 3 (decimal (r + 1)))).
  induction (seqZ 0 ncols) as [|col l IH]; intros acc; [reflexivity |].
  simpl. rewrite <- IH. f_equal.
  destruct acc as [line|]; [| reflexivity]. simpl.
  pose proof (f_equal (fun l => l !! Z.to_nat col) E) as H. simpl in H.
  rewrite !list_lookup_fmap in H.
  destruct (s1 !! Z.to_nat col), (s2 !! Z.to_nat col); simpl in *;
    try discriminate; [| reflexivity].
  injection H as ->. reflexivity.
Qed.

Lemma boardLines_ext g1 g2 :
  map (map currentState) g1 = map (map currentState) g2 ->
  boardLines g1 = boardLines g2.
Proof.
  intros E. unfold boardLines.
  assert (Hlen : length g1 = length g2).
  { apply (f_equal length) in E. by rewrite !length_map in E. }
  assert (Hrow : forall i,
            match g1 !! i, g2 !! i with
            | Some s1, Some s2 => map currentState s1 = map currentState s2
            | None, None => True
            | _, _ => False
            end).
  { intros i. pose proof (f_equal (fun l => l !! i) E) as H. simpl in H.
    rewrite !list_lookup_fmap in H.
    destruct (g1 !! i), (g2 !! i); simpl in *; try discriminate; auto.
    by injection H. }
  pose proof (Hrow 0%nat) as H0.
  destruct (g1 !! 0%nat) as [f1|], (g2 !! 0%nat) as [f2|];
    try contradiction; [| reflexivity].
  simpl.
  assert (Hf : length f1 = length f2).
  { apply (f_equal length) in H0. by rewrite !length_map in H0. }
  rewrite Hlen, Hf. f_equal.
  generalize (Some (@nil string)).
  induction (seqZ 0 (Z.of_nat (length g2))) as [|r l IH]; intros acc;
    [reflexivity |].
  simpl. rewrite <- IH. f_equal.
  destruct acc as [lines|]; [| reflexivity]. simpl.
  pose proof (Hrow (Z.to_nat r)) as Hr.
  destruct (g1 !! Z.to_nat r) as [s1|], (g2 !! Z.to_nat r) as [s2|];
    try contradiction; [| reflexivity].
  simpl. by rewrite (rowText_ext r _ s1 s2 Hr).
Qed.

(** The display values of a board on which no cell is opened or
    flagged. *)
Lemma Settled_display ml b0 b :
  Settled ml b0 b ->
  map (map currentState) (map (map state) (cells b))
  = replicate (Z.to_nat (rows b0)) (replicate (Z.to_nat (cols b0)) UNOPENED).
Proof.
  intros ((Hlen & Hall) & _ & Hcfg & Hcells).
  injection Hcfg as Hr Hc _ _ _ _ _ _ _ _.
  rewrite Hr in Hlen. rewrite Hc in Hall.
  apply list_eq. intros i. rewrite !list_lookup_fmap.
  destruct (cells b !! i) as [line|] eqn:Hline; simpl.
  - pose proof (lookup_lt_Some _ _ _ Hline) as Hi. rewrite Hlen in Hi.
    rewrite lookup_replicate_2 by exact Hi. f_equal.
    pose proof (proj1 (Forall_forall _ _) Hall line
                  (list_elem_of_lookup_2 _ _ _ Hline)) as Hl.
    cbv beta in Hl. apply list_eq. intros j. rewrite !list_lookup_fmap.
    destruct (line !! j) as [cell|] eqn:Hcell; simpl.
    + pose proof (lookup_lt_Some _ _ _ Hcell) as Hj. rewrite Hl in Hj.
      rewrite lookup_replicate_2 by exact Hj. f_equal.
      destruct (Hcells (Z.of_nat i, Z.of_nat j)) as (cell' & Hc' & _ & _ & _ & Hu).
      { unfold inBounds; simpl. lia. }
      simpl in Hc'. rewrite (grid_lookup b i j line cell Hline Hcell) in Hc'.
      injection Hc' as <-. exact Hu.
    + apply lookup_ge_None in Hcell. symmetry.
      apply lookup_replicate_None. lia.
  - apply lookup_ge_None in Hline. symmetry.
    apply lookup_replicate_None. lia.
Qed.

(** *** The text of a row, in closed form *)

Lemma str_app_assoc (s1 s2 s3 : string) :
  String.append (String.append s1 s2) s3
  = String.append s1 (String.append s2 s3).
Proof. induction s1 as [|a s1 IH]; simpl; [reflexivity | by rewrite IH]. Qed.

Lemma str_app_nil_r (s : string) : String.append s EmptyString = s.
Proof. induction s as [|a s IH]; simpl; [reflexivity | by rewrite IH]. Qed.

Lemma concat_snoc (sep x y : string) (l : list string) :
  String.concat sep ((x :: l) ++ [y])
  = String.append (String.concat sep (x :: l)) (String.append sep y).
Proof.
  revert x. induction l as [|z l IH]; intros x; [reflexivity |].
  change (String.concat sep ((x :: z :: l) ++ [y]))
    with (String.append x
            (String.append sep (String.concat sep ((z :: l) ++ [y])))).
  rewrite IH.
  change (String.concat sep (x :: z :: l))
    with (String.append x (String.append sep (String.concat sep (z :: l)))).
  by rewrite !str_app_assoc.
Qed.

Lemma rowText_prefix r (states : list CellState) (k : nat) :
  (k <= length states)%nat ->
  fold_left
    (fun (acc : option string) (col : Z) =>
       line ← acc;
       st ← states !! Z.to_nat col;
       let line :=
         String.append line (String.append " " (currentState st)) in
       Some (if col <? Z.of_nat (length states) - 1
             then String.append line "  | " else line))
    (seqZ 0 (Z.of_nat k)) (Some (padEnd 3 (decimal (r + 1))))
  = Some (String.append (padEnd 3 (decimal (r + 1)))
            (String.append
               (String.concat "  | " (map cellText (take k states)))
               (if decide (0 < k < length states)%nat
                then "  | " else EmptyString)))%string.
Proof.
  induction k as [|k IH]; intros Hk.
  - simpl. destruct (decide (0 < 0 < length states)%nat); [lia |].
    by rewrite str_app_nil_r.
  - rewrite seqZ_snoc, fold_left_app, IH by lia. simpl.
    rewrite Nat2Z.id.
    destruct (lookup_lt_is_Some_2 states k) as [st Hst]; [lia |].
    rewrite Hst. simpl. rewrite (take_S_r _ _ _ Hst), map_app. simpl.
    f_equal.
    assert (Hsep : (if Z.of_nat k <? Z.of_nat (length states) - 1
                    then true else false)
                   = (if decide (0 < S k < length states)%nat
                      then true else false)).
    { destruct (Z.ltb_spec (Z.of_nat k) (Z.of_nat (length states) - 1)),
        (decide (0 < S k < length states)%nat); auto; lia. }
    destruct k as [|k].
    + rewrite take_0. simpl.
      destruct (decide (0 < 0 < length states)%nat); [lia |].
      rewrite str_app_nil_r.
      destruct (Z.ltb_spec (Z.of_nat 0) (Z.of_nat (length states) - 1)),
        (decide (0 < 1 < length states)%nat); try lia.
      * by rewrite !str_app_assoc.
      * by rewrite str_app_nil_r.
    + destruct (decide (0 < S k < length states)%nat); [| lia].
      destruct (take (S k) states) as [|st0 l0] eqn:Htake.
      { assert (Hz : length (take (S k) states) = 0%nat) by by rewrite Htake.
        rewrite length_take in Hz. lia. }
      change (map cellText (st0 :: l0) ++ [cellText st])
        with ((cellText st0 :: map cellText l0) ++ [cellText st]).
      rewrite concat_snoc.
      change (map cellText (st0 :: l0))
        with (cellText st0 :: map cellText l0).
      destruct (Z.ltb_spec (Z.of_nat (S k)) (Z.of_nat (length states) - 1)),
        (decide (0 < S (S k) < length states)%nat); try lia;
        unfold cellText; rewrite ?str_app_nil_r, !str_app_assoc;
        reflexivity.
Qed.

(** A full row gives the row number in three columns, then the
    display values of its cells, each after a blank, with a bar
    between two of them. *)
Lemma rowText_closed r (states : list CellState) :
  rowText r (Z.of_nat (length states)) states
  = Some (String.append (padEnd 3 (decimal (r + 1)))
            (String.concat "  | "
               (map cellText states))).
Proof.
  unfold rowText.
  etrans; [apply (rowText_prefix r states (length states)); lia |].
  rewrite firstn_all.
  destruct (decide (0 < length states < length states)%nat); [lia |].
  by rewrite str_app_nil_r.
Qed.

(** The lines of the body of [toString()] over the first [k] rows,
    one by one. *)
Lemma bodyLines_rows g (ncols : nat) (k : nat) :
  Forall (fun line => length line = ncols) g ->
  (k <= length g)%nat -> (1 <= length g)%nat ->
  exists lines,
    fold_left
      (fun (acc : option (list string)) (r : Z) =>
         lines ← acc;
         states ← g !! Z.to_nat r;
         line ← rowText r (Z.of_nat ncols) states;
         Some (if r <? Z.of_nat (length g) - 1
               then lines ++ [line; getRowLine (Z.of_nat ncols)]
               else lines ++ [line]))
      (seqZ 0 (Z.of_nat k)) (Some [])
    = Some lines
    /\ length lines
       = (if decide (k = length g) then 2 * k - 1 else 2 * k)%nat
    /\ (forall r states,
          (r < k)%nat -> g !! r = Some states ->
          lines !! (2 * r)%nat
          = rowText (Z.of_nat r) (Z.of_nat ncols) states)
    /\ (forall r,
          (r < k)%nat -> (S r < length g)%nat ->
          lines !! (2 * r + 1)%nat = Some (getRowLine (Z.of_nat ncols))).
Proof.
  intros Hall Hk Hn. induction k as [|k IH].
  - exists []. split; [reflexivity |].
    split; [destruct (decide (0%nat = length g)); [lia | reflexivity] |].
    split; intros; lia.
  - rewrite seqZ_snoc, fold_left_app.
    destruct IH as (lines & -> & Hlen & Hrow & Hrule); [lia |]. simpl.
    rewrite Nat2Z.id.
    destruct (lookup_lt_is_Some_2 g k) as [states Hst]; [lia |].
    rewrite Hst. simpl.
    pose proof (proj1 (Forall_forall _ _) Hall states
                  (list_elem_of_lookup_2 _ _ _ Hst)) as Hl.
    cbv beta in Hl.
    destruct (rowText_ok (Z.of_nat k) states) as [line Hline].
    rewrite Hl in Hline. rewrite Hline. simpl.
    destruct (decide (k = length g)); [lia |].
    assert (Hold : forall i x, lines !! i = Some x ->
              forall tl, (lines ++ tl) !! i = Some x).
    { intros i x Hi tl. by apply lookup_app_l_Some. }
    assert (Hrow' : forall tl r states',
              (r < S k)%nat -> g !! r = Some states' ->
              (lines ++ line :: tl) !! (2 * r)%nat
              = rowText (Z.of_nat r) (Z.of_nat ncols) states').
    { intros tl r states' Hr Hg.
      destruct (decide (r = k)) as [->|Hne].
      - rewrite Hst in Hg. injection Hg as <-.
        rewrite lookup_app_r by lia.
        replace (2 * k - length lines)%nat with 0%nat by lia.
        simpl. by rewrite Hline.
      - rewrite lookup_app_l by lia. apply Hrow; [lia | exact Hg]. }
    destruct (Z.ltb_spec (Z.of_nat k) (Z.of_nat (length g) - 1)).
    + eexists. split; [reflexivity |].
      split; [rewrite length_app; simpl;
              destruct (decide (S k = length g)); lia |].
      split; [apply Hrow' |].
      intros r Hr Hr'. destruct (decide (r = k)) as [->|Hne].
      * rewrite lookup_app_r by lia.
        assert (Hi : forall i, i = 1%nat ->
                  [line; getRowLine (Z.of_nat ncols)] !! i
                  = Some (getRowLine (Z.of_nat ncols)))
          by (intros ? ->; reflexivity).
        apply Hi. lia.
      * rewrite lookup_app_l by lia. apply Hrule; lia.
    + eexists. split; [reflexivity |].
      split; [rewrite length_app; simpl;
              destruct (decide (S k = length g)); lia |].
      split; [apply Hrow' |].
      intros r Hr Hr'. rewrite lookup_app_l by lia. apply Hrule; lia.
Qed.

(** The lines of a grid of [nrows >= 1] full rows, one by one. *)
Lemma boardLines_rows g (ncols : nat) :
  Forall (fun line => length line = ncols) g ->
  (1 <= length g)%nat ->
  exists lines,
    boardLines g
    = Some (getColumnIndices (Z.of_nat ncols)
              :: getRowLine (Z.of_nat ncols) :: lines)
    /\ length lines = (2 * length g - 1)%nat
    /\ (forall r states,
          g !! r = Some states ->
          lines !! (2 * r)%nat
          = Some (String.append (padEnd 3 (decimal (Z.of_nat r + 1)))
                    (String.concat "  | "
                       (map cellText states))))
    /\ (forall r,
          (S r < length g)%nat ->
          lines !! (2 * r + 1)%nat = Some (getRowLine (Z.of_nat ncols))).
Proof.
  intros Hall Hn. unfold boardLines.
  destruct g as [|first g'] eqn:Hg; [simpl in Hn; lia |].
  rewrite <- Hg in *. replace (g !! 0%nat) with (Some first) by by rewrite Hg.
  simpl.
  assert (Hf : length first = ncols).
  { apply (proj1 (Forall_forall _ _) Hall). rewrite Hg. left. }
  rewrite Hf.
  destruct (bodyLines_rows g ncols (length g) Hall)
    as (lines & -> & Hlen & Hrow & Hrule); [lia | lia |].
  simpl. exists lines. split; [reflexivity |].
  split; [destruct (decide (length g = length g)); [lia | congruence] |].
  split.
  - intros r states Hr.
    etrans; [exact (Hrow r states (lookup_lt_Some _ _ _ Hr) Hr) |].
    pose proof (proj1 (Forall_forall _ _) Hall states
                  (list_elem_of_lookup_2 _ _ _ Hr)) as Hl.
    cbv beta in Hl. rewrite <- Hl. apply rowText_closed.
  - intros r Hr. apply Hrule; lia.
Qed.

End Rendering.

(** X16: on every board the engine can be in, [getGameBoard()] returns
    without a TypeError a grid of [rows] lines of [cols] states, the
    state at line [r] and column [c] being that of the cell at
    [(r, c)]; [getGameInfo()] returns with that grid. *)
Theorem getGameBoard_states (b : Board) (now : Z) :
  Reachable b ->
  exists g,
    getGameBoard b = Some g
    /\ length g = Z.to_nat (rows b)
    /\ Forall (fun line => length line = Z.to_nat (cols b)) g
    /\ (forall p cell,
          getCell b p.1 p.2 = Some cell ->
          g !! Z.to_nat p.1 ≫= (fun line => line !! Z.to_nat p.2)
          = Some (state cell))
    /\ exists info, getGameInfo now b = Some info /\ i_board info = g.
Proof.
  intros Hreach. destruct (Reachable_RInv b Hreach) as [(Hg & _) _].
  exists (map (map state) (cells b)).
  pose proof (getGameBoard_grid b Hg) as E. destruct Hg as [Hlen Hall].
  split; [exact E |]. split; [by rewrite length_map |].
  split; [| split].
  - apply Forall_fmap. eapply Forall_impl; [exact Hall |].
    intros line Hl. simpl. by rewrite length_map.
  - intros [r c] cell. unfold getCell. simpl.
    destruct ((0 <=? r) && (0 <=? c)); [| discriminate].
    rewrite list_lookup_fmap.
    destruct (cells b !! Z.to_nat r) as [line|]; [| discriminate]. simpl.
    rewrite list_lookup_fmap. by intros ->.
  - unfold getGameInfo. rewrite E. simpl. by eexists.
Qed.

Lemma getGameBoard_states_witness :
  exists g,
    getGameBoard tinyFlagged = Some g
    /\ length g = Z.to_nat (rows tinyFlagged)
    /\ Forall (fun line => length line = Z.to_nat (cols tinyFlagged)) g
    /\ (forall p cell,
          getCell tinyFlagged p.1 p.2 = Some cell ->
          g !! Z.to_nat p.1 ≫= (fun line => line !! Z.to_nat p.2)
          = Some (state cell))
    /\ exists info, getGameInfo 5 tinyFlagged = Some info /\ i_board info = g.
Proof.
  apply (getGameBoard_states tinyFlagged 5).
  exists tiny, [DoStartGame 0 [] 0 0; DoToggleFlag 0 1]. reflexivity.
Defined.

(** X17: on every board the engine can be in that has a line,
    [toString()] returns the join of [2 * rows + 1] lines: the header
    of column numbers, a ruler, and under them line by line the rows
    of the grid, row [r] at place [2 * r] with its number in three
    columns and then the display values of its cells, each after a
    blank and with a bar between two of them, and a ruler at place
    [2 * r + 1] after every row but the last.  On a board without
    lines it reads the length of [board[0]], which is [undefined], and
    throws a TypeError. *)
Theorem toString_lines (b : Board) :
  Reachable b ->
  (1 <= rows b ->
   exists g lines,
     getGameBoard b = Some g
     /\ toStringLines b
        = Some (getColumnIndices (Z.max 0 (cols b))
                  :: getRowLine (Z.max 0 (cols b)) :: lines)
     /\ Z.of_nat (length lines) = 2 * rows b - 1
     /\ (forall r states,
           g !! r = Some states ->
           lines !! (2 * r)%nat
           = Some (String.append (padEnd 3 (decimal (Z.of_nat r + 1)))
                     (String.concat "  | "
                        (map cellText states))))
     /\ (forall r,
           Z.of_nat r < rows b - 1 ->
           lines !! (2 * r + 1)%nat = Some (getRowLine (Z.max 0 (cols b))))
     /\ toString b
        = Some (joinLines (getColumnIndices (Z.max 0 (cols b))
                             :: getRowLine (Z.max 0 (cols b)) :: lines)))
  /\ (rows b <= 0 -> toStringLines b = None /\ toString b = None).
Proof.
  intros Hreach. destruct (Reachable_RInv b Hreach) as [(Hg & _) _].
  pose proof (getGameBoard_grid b Hg) as E. destruct Hg as [Hlen Hall].
  unfold toString, toStringLines. rewrite E. split.
  - intros Hrows.
    destruct (boardLines_rows (map (map state) (cells b))
                (Z.to_nat (cols b))) as (lines & El & Hl & Hrow & Hrule).
    + apply Forall_fmap. eapply Forall_impl; [exact Hall |].
      intros line H. simpl. by rewrite length_map.
    + rewrite length_map. lia.
    + replace (Z.max 0 (cols b)) with (Z.of_nat (Z.to_nat (cols b))) by lia.
      exists (map (map state) (cells b)), lines.
      split; [reflexivity |]. simpl. rewrite El.
      split; [reflexivity |]. rewrite length_map in Hl, Hrule.
      split; [lia |]. split; [exact Hrow |].
      split; [| reflexivity]. intros r Hr. apply Hrule. lia.
  - intros Hrows.
    assert (Hnil : cells b = []).
    { apply nil_length_inv. lia. }
    rewrite Hnil. by split.
Qed.

Lemma toString_lines_witness :
  (1 <= rows tinyFlagged ->
   exists g lines,
     getGameBoard tinyFlagged = Some g
     /\ toStringLines tinyFlagged
        = Some (getColumnIndices (Z.max 0 (cols tinyFlagged))
                  :: getRowLine (Z.max 0 (cols tinyFlagged)) :: lines)
     /\ Z.of_nat (length lines) = 2 * rows tinyFlagged - 1
     /\ (forall r states,
           g !! r = Some states ->
           lines !! (2 * r)%nat
           = Some (String.append (padEnd 3 (decimal (Z.of_nat r + 1)))
                     (String.concat "  | "
                        (map cellText states))))
     /\ (forall r,
           Z.of_nat r < rows tinyFlagged - 1 ->
           lines !! (2 * r + 1)%nat
           = Some (getRowLine (Z.max 0 (cols tinyFlagged))))
     /\ toString tinyFlagged
        = Some (joinLines (getColumnIndices (Z.max 0 (cols tinyFlagged))
                             :: getRowLine (Z.max 0 (cols tinyFlagged))
                             :: lines)))
  /\ (rows tinyFlagged <= 0 ->
      toStringLines tinyFlagged = None /\ toString tinyFlagged = None).
Proof.
  apply (toString_lines tinyFlagged).
  exists tiny, [DoStartGame 0 [] 0 0; DoToggleFlag 0 1]. reflexivity.
Defined.

(** X18: the text [toString()] gives for the board [startGame]
    returned is the text of the board just reset: every cell shows the
    unopened marker, and nothing of the placement can be read off. *)
Theorem toString_after_startGame (b b' : Board) (now : Z) (rs : Rand)
    (r c : Z) :
  startGame now rs r c b = Ok b' ->
  toString b' = toString (reset b)
  /\ is_Some (toString b')
  /\ forall p, inBounds b p ->
       exists cell, getCell b' p.1 p.2 = Some cell
                    /\ currentState (state cell) = UNOPENED.
Proof.
  intros E.
  assert (Hrc : inBounds b (r, c)).
  { apply outOfRange_false. unfold startGame in E.
    by destruct (outOfRange b r c). }
  pose proof (startGame_spec now rs r c b Hrc) as H. cbv zeta in H.
  rewrite E in H. destruct H as (_ & b2 & -> & HS).
  pose proof (Settled_display _ _ _ HS) as D2.
  pose proof (Settled_display _ _ _ (Settled_reset b)) as D0.
  pose proof HS as (Hg2 & _ & _ & Hcells).
  pose proof (getGameBoard_grid b2 Hg2) as G2.
  pose proof (getGameBoard_grid (reset b) (GridOk_reset b)) as G0.
  assert (Eq : toString (set_startTime (Some now) b2) = toString (reset b)).
  { unfold toString, toStringLines.
    change (getGameBoard (set_startTime (Some now) b2))
      with (getGameBoard b2).
    rewrite G2, G0. simpl. f_equal. apply boardLines_ext.
    etrans; [exact D2 | symmetry; exact D0]. }
  split; [exact Eq |]. split.
  - rewrite Eq.
    destruct (boardLines_length (map (map state) (cells (reset b)))
                (Z.to_nat (cols b))) as (lines & El & _).
    + apply Forall_fmap. destruct (GridOk_reset b) as [_ Hall].
      eapply Forall_impl; [exact Hall |].
      intros line Hl. simpl in *. by rewrite length_map.
    + rewrite length_map. destruct (GridOk_reset b) as [Hlen _].
      rewrite Hlen. simpl. destruct Hrc as [Hr _]. simpl in Hr. lia.
    + assert (El' : toStringLines (reset b)
                    = Some (getColumnIndices (Z.of_nat (Z.to_nat (cols b)))
                              :: getRowLine (Z.of_nat (Z.to_nat (cols b)))
                              :: lines)).
      { unfold toStringLines. rewrite G0. exact El. }
      unfold toString. rewrite El'. by eexists.
  - intros p Hp. destruct (Hcells p Hp) as (cell & Hc & _ & _ & _ & Hu).
    exists cell. by split.
Qed.

Lemma toString_after_startGame_witness :
  toString tinyStarted = toString (reset (newBoard tiny))
  /\ is_Some (toString tinyStarted)
  /\ forall p, inBounds (newBoard tiny) p ->
       exists cell, getCell tinyStarted p.1 p.2 = Some cell
                    /\ currentState (state cell) = UNOPENED.
Proof.
  apply (toString_after_startGame (newBoard tiny) tinyStarted 0 [] 0 0).
  vm_compute. reflexivity.
Defined.

(** X19: on every board the engine can be in, [printGameInfo()] logs
    its six lines without a TypeError, and the status line tells the
    three states of a game apart: lost, won, and in progress. *)
Theorem printGameInfo_status (b : Board) (now : Z) :
  Reachable b ->
  exists l1 st l3 l4 l5 l6,
    printGameInfo now b
    = Some [l1; String.append "Game Status: " st; l3; l4; l5; l6]
    /\ st = statusText (getGameStatus b)
    /\ (st = "Game Over"%string <-> isGameOver b = true)
    /\ (st = "Game Won"%string <-> isGameWon b = true)
    /\ (st = "In Progress"%string
        <-> isGameOver b = false /\ isGameWon b = false).
Proof.
  intros Hreach.
  destruct (Reachable_RInv b Hreach) as [(Hg & _ & _ & _ & H5) _].
  unfold printGameInfo, getGameInfo. rewrite (getGameBoard_grid b Hg). simpl.
  do 6 eexists. split; [reflexivity |]. split; [reflexivity |].
  unfold statusText, getGameStatus. simpl.
  destruct (isGameOver b) eqn:Hover, (isGameWon b) eqn:Hwon;
    try (destruct (H5 eq_refl); congruence);
    repeat split; try discriminate; try reflexivity; intros []; discriminate.
Qed.

Lemma printGameInfo_status_witness :
  exists l1 st l3 l4 l5 l6,
    printGameInfo 7 tinyLost
    = Some [l1; String.append "Game Status: " st; l3; l4; l5; l6]
    /\ st = statusText (getGameStatus tinyLost)
    /\ (st = "Game Over"%string <-> isGameOver tinyLost = true)
    /\ (st = "Game Won"%string <-> isGameWon tinyLost = true)
    /\ (st = "In Progress"%string
        <-> isGameOver tinyLost = false /\ isGameWon tinyLost = false).
Proof.
  apply (printGameInfo_status tinyLost 7).
  exists tiny, [DoStartGame 0 [] 0 0; DoOpenCell 1 0 2]. reflexivity.
Defined.

(* ================================================================= *)
(** * The cell state, for any sequence of setter calls *)

Section CellStates.

Implicit Types (s : CellState) (op : CellOp).

Lemma StateOk_new : StateOk newCellState.
Proof. unfold StateOk; simpl. repeat split; auto; lia. Qed.

Lemma StateOk_apply op s : StateOk s -> StateOk (applyCellOp op s).
Proof.
  intros Hs. pose proof Hs as (H0 & Hm & Hd & Ho & Hc & Hu).
  destruct op as [v|v|v|v]; simpl.
  - unfold StateOk, set_isMine; simpl.
    split; [lia |]. split; [reflexivity |].
    split; [by destruct v |]. split; [discriminate |].
    split; intros _; [reflexivity | left; reflexivity].
  - unfold set_isFlagged.
    destruct (isOpened s) eqn:Hop; [exact Hs |].
    unfold StateOk; simpl.
    split; [exact H0 |]. split; [exact Hm |]. split; [exact Hd |].
    split; [discriminate |].
    split; intros _; destruct v; auto.
  - unfold StateOk, set_isOpened; simpl.
    split; [exact H0 |]. split; [exact Hm |]. split; [exact Hd |].
    split; [by intros -> |].
    split; intros ->; [by destruct (isFlagged s) | by left].
  - unfold set_adjacentMines.
    destruct (isMine s) eqn:Hmine; [exact Hs |].
    destruct (Z.ltb_spec v 0) as [Hv|Hv]; [exact Hs |].
    unfold StateOk; simpl.
    split; [exact Hv |]. split; [discriminate |].
    split; [reflexivity |].
    split; [by intros -> |].
    split; intros Hop; rewrite Hop; auto.
Qed.

Lemma StateOk_run ops : forall s, StateOk s -> StateOk (runCellOps ops s).
Proof.
  induction ops as [|op ops IH]; intros s Hs; [exact Hs |].
  apply (IH (applyCellOp op s)). by apply StateOk_apply.
Qed.

End CellStates.

(** X20: whatever setters are called on a new cell state, in whatever
    order: [adjacentMines] is never negative and is 0 on a mined cell;
    the hidden value is the mine marker, the coloured number or the
    blank that belongs to the fields; an opened cell shows its hidden
    value; a closed cell shows the unopened marker or the flag marker
    and nothing else, the unopened marker when it has no flag. *)
Theorem cell_state_fields (ops : list CellOp) :
  let s := runCellOps ops newCellState in
  0 <= adjacentMines s
  /\ (isMine s = true -> adjacentMines s = 0)
  /\ defaultState s
     = (if isMine s then MINE
        else if 0 <? adjacentMines s then formatAdjacent (adjacentMines s)
             else NO_ADJACENT)
  /\ (isOpened s = true -> currentState s = defaultState s)
  /\ (isOpened s = false -> isFlagged s = false -> currentState s = UNOPENED)
  /\ (isOpened s = false ->
      currentState s = UNOPENED \/ currentState s = FLAGGED).
Proof.
  intros s.
  destruct (StateOk_run ops newCellState StateOk_new)
    as (H0 & Hm & Hd & Ho & Hc & Hu).
  fold s in H0, Hm, Hd, Ho, Hc, Hu.
  repeat split; auto.
  intros Hop Hfl. specialize (Hc Hop). by rewrite Hfl in Hc.
Qed.

(* ================================================================= *)
(** * The moves: what they return and what they leave alone *)

Section MovesReturn.

Implicit Types (b : Board) (op : Op).

Lemma move_ended op b :
  isGameOver b || isGameWon b = true -> isMove op = true ->
  boardAfter (perform op b) b = b.
Proof.
  intros Hend Hop. destruct op as [|now rs r c|now r c|r c];
    try discriminate; simpl.
  - by rewrite openCell_ended.
  - unfold toggleFlag. destruct (outOfRange b r c); [reflexivity |].
    by rewrite Hend.
Qed.

End MovesReturn.

(** X21: once a game is won or lost, no sequence of [openCell] and
    [toggleFlag] calls changes anything on the board, exceptions
    included; only [reset] and [startGame] leave that state. *)
Theorem ended_game_is_frozen (b : Board) (ops : list Op) :
  isGameOver b || isGameWon b = true ->
  forallb isMove ops = true ->
  run ops b = b.
Proof.
  intros Hend. induction ops as [|op ops IH]; intros Hops; [reflexivity |].
  simpl in Hops. apply andb_prop in Hops as [Hop Hops].
  unfold run. simpl. rewrite (move_ended op b Hend Hop). by apply IH.
Qed.

Lemma ended_game_is_frozen_witness :
  run [DoOpenCell 3 0 1; DoToggleFlag 0 1; DoToggleFlag 5 5; DoOpenCell 4 0 0]
    tinyLost
  = tinyLost.
Proof.
  apply (ended_game_is_frozen tinyLost); reflexivity.
Defined.

(** X22: on every board the engine can be in, [openCell] and
    [toggleFlag], called with integers or NaN, return or throw, and an
    exception leaves the board as it was.  On a cell of the board both
    return: the recursion of [openCell] ends and no cell is missing.
    A RangeError comes exactly with the range test true, that is with
    an integer out of its range.  A TypeError comes only with a NaN
    coordinate that gets through the range test, and then always while
    the game is on: [this.#_cells[row][col]] is [undefined]. *)
Theorem moves_return_or_throw (b : Board) (now : Z) (r c : Num) :
  Reachable b ->
  MoveEnds b r c (openCellNum now r c b)
  /\ MoveEnds b r c (toggleFlagNum r c b)
  /\ (inBoundsNum b r c ->
      (exists b', openCellNum now r c b = Ok b')
      /\ (exists b', toggleFlagNum r c b = Ok b'))
  /\ (outOfRangeNum b r c = true <-> outside r (rows b) \/ outside c (cols b))
  /\ (~ inBoundsNum b r c -> outOfRangeNum b r c = false ->
      isGameOver b || isGameWon b = false ->
      (r = NaN \/ c = NaN)
      /\ openCellNum now r c b = Throw TypeError b
      /\ toggleFlagNum r c b = Throw TypeError b).
Proof.
  intros Hreach. destruct (Reachable_RInv b Hreach) as [HI _].
  pose proof HI as (Hg & _).
  assert (Hopen : MoveEnds b r c (openCellNum now r c b)).
  { destruct (decide (r = NaN \/ c = NaN)) as [Hnan|Hint].
    - rewrite (openCellNum_NaN now b r c Hnan). unfold MoveEnds.
      destruct (isGameOver b || isGameWon b) eqn:Hend; [left; by eexists |].
      destruct (outOfRangeNum b r c) eqn:Hrange; [right; left; by split |].
      right. right. by repeat split.
    - destruct r as [rz|], c as [cz|]; try (exfalso; apply Hint; auto; fail).
      simpl. unfold MoveEnds.
      destruct (openCell_cases now rz cz b HI) as [| |? ? Hno| |];
        try (left; by eexists).
      right. left. split; [reflexivity |].
      rewrite outOfRangeNum_Int. by apply outOfRange_true. }
  assert (Htoggle : MoveEnds b r c (toggleFlagNum r c b)).
  { destruct (decide (r = NaN \/ c = NaN)) as [Hnan|Hint].
    - rewrite (toggleFlagNum_NaN b r c Hnan). unfold MoveEnds.
      destruct (outOfRangeNum b r c) eqn:Hrange; [right; left; by split |].
      destruct (isGameOver b || isGameWon b) eqn:Hend; [left; by eexists |].
      right. right. by repeat split.
    - destruct r as [rz|], c as [cz|]; try (exfalso; apply Hint; auto; fail).
      simpl. unfold MoveEnds.
      destruct (toggleFlag_cases rz cz b Hg) as [Hno| |];
        try (left; by eexists).
      right. left. split; [reflexivity |].
      rewrite outOfRangeNum_Int. by apply outOfRange_true. }
  split; [exact Hopen |]. split; [exact Htoggle |].
  split; [| split; [apply outOfRangeNum_true |]].
  - destruct r as [rz|], c as [cz|]; try contradiction. simpl. intros Hrc.
    split.
    + destruct (openCell_cases now rz cz b HI) as [| |? ? Hno| |];
        [| contradiction | | |]; by eexists.
    + destruct (toggleFlag_cases rz cz b Hg) as [Hno| |];
        [contradiction | |]; by eexists.
  - intros Hout Hrange Hend.
    pose proof (outOfRangeNum_false b r c Hrange Hout) as Hnan.
    split; [exact Hnan |].
    rewrite (openCellNum_NaN now b r c Hnan).
    rewrite (toggleFlagNum_NaN b r c Hnan).
    by rewrite Hrange, Hend.
Qed.

Lemma moves_return_or_throw_witness :
  MoveEnds tinyFlagged NaN (Int 1) (openCellNum 1 NaN (Int 1) tinyFlagged)
  /\ MoveEnds tinyFlagged NaN (Int 1) (toggleFlagNum NaN (Int 1) tinyFlagged)
  /\ (inBoundsNum tinyFlagged NaN (Int 1) ->
      (exists b', openCellNum 1 NaN (Int 1) tinyFlagged = Ok b')
      /\ (exists b', toggleFlagNum NaN (Int 1) tinyFlagged = Ok b'))
  /\ (outOfRangeNum tinyFlagged NaN (Int 1) = true
      <-> outside NaN (rows tinyFlagged) \/ outside (Int 1) (cols tinyFlagged))
  /\ (~ inBoundsNum tinyFlagged NaN (Int 1) ->
      outOfRangeNum tinyFlagged NaN (Int 1) = false ->
      isGameOver tinyFlagged || isGameWon tinyFlagged = false ->
      (NaN = NaN \/ Int 1 = NaN)
      /\ openCellNum 1 NaN (Int 1) tinyFlagged = Throw TypeError tinyFlagged
      /\ toggleFlagNum NaN (Int 1) tinyFlagged = Throw TypeError tinyFlagged).
Proof.
  apply (moves_return_or_throw tinyFlagged 1 NaN (Int 1)).
  exists tiny, [DoStartGame 0 [] 0 0; DoToggleFlag 0 1]. reflexivity.
Defined.

(** X23: on every board the engine can be in, a [toggleFlag] that
    returns changes nothing but the flag of its cell and the counter
    [flags], by one at most: size, mines, opened cells, status, clock
    and every other cell stay as they are, and the cell stays closed
    or opened as it was. *)
Theorem toggleFlag_frame (b b' : Board) (r c : Z) :
  Reachable b ->
  toggleFlag r c b = Ok b' ->
  (rows b', cols b', mines b', difficulty b', minesList b', openedCells b',
   isGameOver b', isGameWon b', startTime b', endTime b')
  = (rows b, cols b, mines b, difficulty b, minesList b, openedCells b,
     isGameOver b, isGameWon b, startTime b, endTime b)
  /\ -1 <= flags b' - flags b <= 1
  /\ (forall r' c', (r', c') <> (r, c) -> getCell b' r' c' = getCell b r' c')
  /\ cellIs isOpened b' (r, c) = cellIs isOpened b (r, c)
  /\ cellIs isMine b' (r, c) = cellIs isMine b (r, c).
Proof.
  intros Hreach E. destruct (Reachable_RInv b Hreach) as [(Hg & _) _].
  destruct (toggleFlag_cases r c b Hg) as [|Hin _|cell Hin _ _ Hcell Hop];
    [discriminate | injection E as <- | injection E as <-].
  { split; [reflexivity |]. split; [lia |]. auto. }
  destruct Hin as [[Hr _] [Hc _]]. simpl in Hr, Hc.
  split; [reflexivity |]. split; [simpl; destruct (isFlagged (state cell)); lia |].
  split; [| split].
  - intros r' c' Hne.
    change (getCell (updState (fun s => set_isFlagged (negb (isFlagged s)) s)
                       r c b) r' c' = getCell b r' c').
    rewrite getCell_updState by assumption.
    destruct (decide ((r', c') = (r, c))); [contradiction | reflexivity].
  - apply (cellIs_toggle isOpened r c b (r, c) cell Hcell Hop).
    intros s v Ho. unfold set_isFlagged. by rewrite Ho.
  - apply (cellIs_toggle isMine r c b (r, c) cell Hcell Hop).
    intros s v Ho. unfold set_isFlagged. by rewrite Ho.
Qed.

Lemma toggleFlag_frame_witness :
  (rows tinyFlagged, cols tinyFlagged, mines tinyFlagged,
   difficulty tinyFlagged, minesList tinyFlagged, openedCells tinyFlagged,
   isGameOver tinyFlagged, isGameWon tinyFlagged, startTime tinyFlagged,
   endTime tinyFlagged)
  = (rows tinyStarted, cols tinyStarted, mines tinyStarted,
     difficulty tinyStarted, minesList tinyStarted, openedCells tinyStarted,
     isGameOver tinyStarted, isGameWon tinyStarted, startTime tinyStarted,
     endTime tinyStarted)
  /\ -1 <= flags tinyFlagged - flags tinyStarted <= 1
  /\ (forall r' c', (r', c') <> (0, 1) ->
        getCell tinyFlagged r' c' = getCell tinyStarted r' c')
  /\ cellIs isOpened tinyFlagged (0, 1) = cellIs isOpened tinyStarted (0, 1)
  /\ cellIs isMine tinyFlagged (0, 1) = cellIs isMine tinyStarted (0, 1).
Proof.
  apply (toggleFlag_frame tinyStarted tinyFlagged 0 1).
  - exists tiny, [DoStartGame 0 [] 0 0]. reflexivity.
  - reflexivity.
Defined.

(* ================================================================= *)
(** * The number exercises *)

Section Primes.

Lemma noDivisorFrom_spec num n : forall i,
  0 < i ->
  (noDivisorFrom num i n = true
   <-> forall j, i <= j < i + Z.of_nat n -> Z.rem num j <> 0).
Proof.
  induction n as [|n IH]; intros i Hi.
  - simpl. split; [intros _ j Hj; lia | reflexivity].
  - simpl noDivisorFrom. destruct (Z.eqb_spec (Z.rem num i) 0) as [E|N].
    + split; [discriminate |]. intros H. exfalso. apply (H i); [lia | exact E].
    + rewrite IH by lia. split.
      * intros H j Hj. destruct (decide (j = i)) as [->|]; [exact N |].
        apply H. lia.
      * intros H j Hj. apply H. lia.
Qed.

End Primes.

(** X24: on the integers, [isPrime(num)] is true exactly for the prime
    numbers, and [printPrime] logs Yes for them and No for every other
    integer, the negative ones, 0 and 1 included. *)
Theorem isPrime_correct (num : Z) :
  (isPrime num = true <-> Z.prime num)
  /\ (printPrime num = "Yes"%string <-> Z.prime num)
  /\ (printPrime num = "No"%string <-> ~ Z.prime num).
Proof.
  assert (H : isPrime num = true <-> Z.prime num).
  { unfold isPrime, Z.prime.
    destruct (Z.leb_spec num 1) as [Hle|Hgt].
    - split; [discriminate | intros [H _]; lia].
    - rewrite noDivisorFrom_spec by lia. split.
      + intros Hn. split; [exact Hgt |]. intros n Hlt Hdiv.
        apply (Hn n); [lia |]. apply Z.rem_divide; [lia | exact Hdiv].
      + intros [_ Hn] j Hj Hrem. apply (Hn j); [lia |].
        apply Z.rem_divide; [lia | exact Hrem]. }
  split; [exact H |]. unfold printPrime.
  destruct (isPrime num).
  - split; [split; [intros _; by apply H | reflexivity] |].
    split; [discriminate |]. intros Hn. exfalso. apply Hn. by apply H.
  - assert (Hn : ~ Z.prime num) by (intros Hp; apply H in Hp; discriminate).
    split; [split; [discriminate | intros Hp; contradiction] |].
    split; [intros _; exact Hn | reflexivity].
Qed.

(* ================================================================= *)
(** * The configuration of a board, and [reset] *)

Section Configuration.

Implicit Types (b : Board) (op : Op).

(** No operation changes the name of the difficulty level. *)
Lemma perform_difficulty op b :
  Reachable b -> difficulty (boardAfter (perform op b) b) = difficulty b.
Proof.
  intros Hreach. destruct (Reachable_RInv b Hreach) as [HI _].
  pose proof HI as (Hg & _).
  destruct op as [|now rs r c|now r c|r c]; simpl.
  - reflexivity.
  - destruct (decide (inBounds b (r, c))) as [Hrc|Hrc].
    + pose proof (startGame_spec now rs r c b Hrc) as H. cbv zeta in H.
      destruct (startGame now rs r c b) as [b'|e b'|]; simpl;
        [| | contradiction].
      * destruct H as (_ & b2 & -> & HS).
        by destruct (Settled_frame _ _ _ HS) as (_ & _ & _ & ? & _).
      * destruct H as (_ & _ & HS).
        by destruct (Settled_frame _ _ _ HS) as (_ & _ & _ & ? & _).
    + unfold startGame. by rewrite (proj2 (outOfRange_true b r c) Hrc).
  - pose proof (openCell_steps now r c b) as H.
    destruct (openCell now r c b) as [b'|e b'|]; simpl in *; auto;
      by destruct (steps_frame _ _ _ H) as (_ & _ & _ & _ & _ & ? & _).
  - destruct (toggleFlag_cases r c b Hg); simpl; auto.
Qed.

Lemma reset_config b b' :
  rows b' = rows b -> cols b' = cols b -> mines b' = mines b ->
  difficulty b' = difficulty b ->
  reset b' = reset b.
Proof. intros Hr Hc Hm Hd. unfold reset. by rewrite Hr, Hc, Hm, Hd. Qed.

End Configuration.

(** X25: [reset()] brings a game back to the board the constructor
    built, whatever was played on it: size, number of mines and name
    of the level are never changed by an operation, and everything
    else is built anew. *)
Theorem reset_restores_new_board (d : Difficulty.t) (ops : list Op) :
  reset (run ops (newBoard d)) = newBoard d
  /\ (rows (run ops (newBoard d)), cols (run ops (newBoard d)),
      mines (run ops (newBoard d)), difficulty (run ops (newBoard d)))
     = (Difficulty.rows d, Difficulty.cols d, Difficulty.mines d,
        Difficulty.name d).
Proof.
  assert (H : (rows (run ops (newBoard d)), cols (run ops (newBoard d)),
               mines (run ops (newBoard d)),
               difficulty (run ops (newBoard d)))
              = (Difficulty.rows d, Difficulty.cols d, Difficulty.mines d,
                 Difficulty.name d)).
  { induction ops as [|op ops IH] using rev_ind; [reflexivity |].
    rewrite run_snoc.
    assert (Hreach : Reachable (run ops (newBoard d))) by by exists d, ops.
    pose proof (perform_config op _ Hreach) as Hcfg. cbv zeta in Hcfg.
    destruct Hcfg as (Hr & Hc & Hm).
    pose proof (perform_difficulty op _ Hreach) as Hd.
    rewrite Hr, Hc, Hm, Hd. exact IH. }
  split; [| exact H].
  injection H as Hr Hc Hm Hd.
  change (newBoard d) with (reset (newBoard d)) at 2.
  by apply reset_config.
Qed.

(* ================================================================= *)
(** * The first move *)



